(** * Artifact filters of pkg/reg/filter (artifact.go)

    A shallow embedding of the replication artifact filters and the
    properties their specification states about them.

    Layout: the data model ([model]), the Go run-time notions the code
    relies on (references to records, [(T, error)] returns, panics, [range]
    loops), the library capabilities the package imports ([Library]), the
    filters themselves, one executable library instance for concrete runs,
    the filters once more over slice headers ([Slices]), and then the lemmas
    and theorems. *)

From Stdlib Require Import Ascii.
From Stdlib Require String.
From stdpp Require Import base list strings gmap.

Set Default Proof Using "Type".

(* ================================================================== *)
(** ** Data model *)
(* ================================================================== *)

Module model.

(** Modelled from the spec: [model.Artifact] is declared in pkg/reg/model,
    outside this file; the fields are the ones the filters read and the
    spec lists (type, digest, tags, labels, accessory flag, parent tags). *)
Module Artifact.
Record t : Type := mk {
  Type_      : string;
  Digest     : string;
  Labels     : list string;
  Tags       : list string;
  IsAcc      : bool;
  ParentTags : list string
}.
End Artifact.

(** Modelled from the spec: the rule-kind discriminator of [model.Filter].
    The four kinds are the ones [BuildArtifactFilters] switches on; every
    other discriminator value is [FilterTypeOther]. *)
Inductive FilterType : Type :=
| FilterTypeLabel
| FilterTypeTag
| FilterTypeTagRegex
| FilterTypeLabelRegex
| FilterTypeOther (kind : string).

(** The dynamically typed [Value] of a rule: the builder asserts it to be a
    [string] or a [[]string]; anything else is [AnyOther]. *)
Inductive any : Type :=
| AnyString (s : string)
| AnyStrings (l : list string)
| AnyOther.

Module Filter.
Record t : Type := mk {
  Type_      : FilterType;
  Value      : any;
  Decoration : string
}.
End Filter.

(** Modelled from the spec: the two decoration constants of pkg/reg/model
    ("matches", "excludes"). *)
Definition Matches : string := "matches".
Definition Excludes : string := "excludes".

End model.

Import model.

(* ================================================================== *)
(** ** Run-time: references, outcomes, loops *)
(* ================================================================== *)

(** A [*model.Artifact] is nil ([None]) or the address of a record in the
    store of allocated records. *)
Abbreviation ptr := (option nat) (only parsing).

(** The store: record [i] lives at address [i]; allocation appends. *)
Abbreviation Mem := (list Artifact.t) (only parsing).

(** The record a reference points to. A Go run only holds nil and
    addresses of the store; an address outside the store is treated like
    nil. *)
Definition load (m : Mem) (p : ptr) : option Artifact.t :=
  match p with
  | Some i => m !! i
  | None => None
  end.

Definition error : Type := string.

Inductive panic : Type :=
| NilDereference
| IndexOutOfRange (index len : nat)
| InterfaceConversion.

(** What a call does: return [(a, nil)], return [(nil, e)], or panic. *)
Inductive outcome (A : Type) : Type :=
| Ok (a : A)
| Err (e : error)
| Panic (p : panic).

Arguments Ok {A} a.
Arguments Err {A} e.
Arguments Panic {A} p.

Definition M (A : Type) : Type := Mem -> outcome (A * Mem).

Definition ret {A} (a : A) : M A := fun m => Ok (a, m).

Definition bind {A B} (c : M A) (k : A -> M B) : M B :=
  fun m =>
    match c m with
    | Ok (a, m') => k a m'
    | Err e => Err e
    | Panic p => Panic p
    end.

Notation "'do' x <- c ; k" := (bind c (fun x => k))
  (at level 10, x name, c at level 100, k at level 200).

(** [v, err := f(...); if err != nil { return nil, err }] *)
Definition try {A} (r : error + A) : M A :=
  fun m => match r with inl e => Err e | inr a => Ok (a, m) end.

Definition throw {A} (p : panic) : M A := fun _ => Panic p.

(** [*p] *)
Definition deref (p : ptr) : M Artifact.t :=
  fun m => match load m p with Some a => Ok (a, m) | None => Panic NilDereference end.

(** [&model.Artifact{...}] *)
Definition new (a : Artifact.t) : M ptr :=
  fun m => Ok (Some (length m), m ++ [a]).

(** [s[i]] *)
Definition index {A} (s : list A) (i : nat) : M A :=
  match s !! i with Some x => ret x | None => throw (IndexOutOfRange i (length s)) end.

(** [for _, x := range xs { s = body(x, s) }] *)
Fixpoint forRange {A S} (xs : list A) (body : A -> S -> M S) (s : S) : M S :=
  match xs with
  | [] => ret s
  | x :: xs' => do s' <- body x s; forRange xs' body s'
  end.

(** A loop body either falls through to the next iteration or leaves the
    (labelled) loop. *)
Inductive flow (S : Type) : Type :=
| Next (s : S)
| Break (s : S).

Arguments Next {S} s.
Arguments Break {S} s.

Definition flowState {S} (f : flow S) : S :=
  match f with Next s => s | Break s => s end.

Fixpoint forRangeBrk {A S} (xs : list A) (body : A -> S -> M (flow S)) (s : S)
  : M (flow S) :=
  match xs with
  | [] => ret (Next s)
  | x :: xs' =>
      do f <- body x s;
      match f with
      | Next s' => forRangeBrk xs' body s'
      | Break s' => ret (Break s')
      end
  end.

(** [for i, x := range xs]: the elements paired with their positions. *)
Definition indexed {A} (xs : list A) : list (nat * A) := zip (seq 0 (length xs)) xs.

(* ================================================================== *)
(** ** Imported capabilities *)
(* ================================================================== *)

(** What artifact.go takes from other packages: Go's [regexp] and [strings],
    and [util.Match] of pkg/reg/util (the double-star glob). They are a
    parameter of the development; [Fragment] below is one instance. *)
Class Library : Type := {
  Regexp : Type;
  regexp_Compile : string -> error + Regexp;
  MatchString : Regexp -> string -> bool;
  util_Match : string -> string -> error + bool;
  strings_ToLower : string -> string;
  strings_EqualFold : string -> string -> bool
}.

(* ================================================================== *)
(** ** The filters *)
(* ================================================================== *)

Section Filters.

Context {L : Library}.

(** [artifactTypeFilter.Filter]. The [continue] sits in the inner loop. *)
Definition artifactTypeFilter_Filter (types : list string) (artifacts : list ptr)
  : M (list ptr) :=
  if length types =? 0 then ret artifacts else
  forRange artifacts (fun artifact result =>
    forRange types (fun t result =>
      do a <- deref artifact;
      if strings_EqualFold (strings_ToLower (Artifact.Type_ a)) (strings_ToLower t)
      then ret (result ++ [artifact])
      else ret result) result) [].

(** [artifactLabelFilter.Filter] *)
Definition artifactLabelFilter_Filter (labels : list string) (decoration : string)
    (artifacts : list ptr) : M (list ptr) :=
  if length labels =? 0 then ret artifacts else
  forRange artifacts (fun artifact result =>
    do a <- deref artifact;
    do labelset <- forRange (Artifact.Labels a)
                     (fun label (labelset : gset string) => ret ({[label]} ∪ labelset)) ∅;
    do f <- forRangeBrk labels (fun label match_ =>
              if bool_decide (label ∈ labelset)
              then ret (Next match_)
              else ret (Break false)) true;
    let match_ := flowState f in
    if String.eqb decoration Excludes then
      if negb match_ then ret (result ++ [artifact]) else ret result
    else
      if match_ then ret (result ++ [artifact]) else ret result) [].

(** [artifactTaggedFilter.Filter] *)
Definition artifactTaggedFilter_Filter (tagged : bool) (artifacts : list ptr)
  : M (list ptr) :=
  forRange artifacts (fun artifact result =>
    do a <- deref artifact;
    if (tagged && (0 <? length (Artifact.Tags a)))
       || (negb tagged && (length (Artifact.Tags a) =? 0))
    then ret (result ++ [artifact])
    else ret result) [].

(** [artifactTagFilter.Filter] *)
Definition artifactTagFilter_Filter (pattern decoration : string)
    (artifacts : list ptr) : M (list ptr) :=
  if String.length pattern =? 0 then ret artifacts else
  forRange artifacts (fun artifact result =>
    do a <- deref artifact;
    let tagsForMatching :=
      if Artifact.IsAcc a then [] ++ Artifact.ParentTags a else [] ++ Artifact.Tags a in
    if length tagsForMatching =? 0 then
      do match_ <- try (util_Match pattern "");
      if String.eqb decoration Excludes then
        if negb match_ then ret (result ++ [artifact]) else ret result
      else
        if match_ then ret (result ++ [artifact]) else ret result
    else
      do tags <- forRange tagsForMatching (fun tag tags =>
                   do match_ <- try (util_Match pattern tag);
                   if String.eqb decoration Excludes then
                     if negb match_ then ret (tags ++ [tag]) else ret tags
                   else
                     if match_ then ret (tags ++ [tag]) else ret tags) [];
      if length tags =? 0 then ret result else
      if Artifact.IsAcc a then
        do r <- new {| Artifact.Type_ := Artifact.Type_ a;
                       Artifact.Digest := Artifact.Digest a;
                       Artifact.Labels := Artifact.Labels a;
                       Artifact.Tags := Artifact.Tags a;
                       Artifact.IsAcc := false;
                       Artifact.ParentTags := [] |};
        ret (result ++ [r])
      else
        do r <- new {| Artifact.Type_ := Artifact.Type_ a;
                       Artifact.Digest := Artifact.Digest a;
                       Artifact.Labels := Artifact.Labels a;
                       Artifact.Tags := tags;
                       Artifact.IsAcc := false;
                       Artifact.ParentTags := [] |};
        ret (result ++ [r])) [].

(** [artifactTagFilterRegex.Filter]: the pattern is compiled once, before
    the loop. What the function prints while it runs is not part of the
    model. *)
Definition artifactTagFilterRegex_Filter (pattern decoration : string)
    (artifacts : list ptr) : M (list ptr) :=
  if String.length pattern =? 0 then ret artifacts else
  do filterRegexPattern <- try (regexp_Compile pattern);
  forRange artifacts (fun artifact result =>
    do a <- deref artifact;
    let tagsForMatching :=
      if Artifact.IsAcc a then [] ++ Artifact.ParentTags a else [] ++ Artifact.Tags a in
    if length tagsForMatching =? 0 then
      let match_ := MatchString filterRegexPattern "" in
      if String.eqb decoration Excludes then
        if negb match_ then ret (result ++ [artifact]) else ret result
      else
        if match_ then ret (result ++ [artifact]) else ret result
    else
      do tags <- forRange tagsForMatching (fun tag tags =>
                   let match_ := MatchString filterRegexPattern tag in
                   if String.eqb decoration Excludes then
                     if negb match_ then ret (tags ++ [tag]) else ret tags
                   else
                     if match_ then ret (tags ++ [tag]) else ret tags) [];
      if length tags =? 0 then ret result else
      if Artifact.IsAcc a then
        do r <- new {| Artifact.Type_ := Artifact.Type_ a;
                       Artifact.Digest := Artifact.Digest a;
                       Artifact.Labels := Artifact.Labels a;
                       Artifact.Tags := Artifact.Tags a;
                       Artifact.IsAcc := false;
                       Artifact.ParentTags := [] |};
        ret (result ++ [r])
      else
        do r <- new {| Artifact.Type_ := Artifact.Type_ a;
                       Artifact.Digest := Artifact.Digest a;
                       Artifact.Labels := Artifact.Labels a;
                       Artifact.Tags := tags;
                       Artifact.IsAcc := false;
                       Artifact.ParentTags := [] |};
        ret (result ++ [r])) [].

(** [artifactLabelFilterRegex.Filter]. Each pattern is compiled inside both
    loops; the inner loop leaves the pattern loop ([break outer]) at the
    first label the pattern does not match, and evaluates
    [artifacts[i].Digest] with the label's position [i] for its debug
    output (the output itself is not part of the model). *)
Definition artifactLabelFilterRegex_Filter (labels : list string) (decoration : string)
    (artifacts : list ptr) : M (list ptr) :=
  if length labels =? 0 then ret artifacts else
  forRange artifacts (fun artifact result =>
    do f <- forRangeBrk labels (fun label match_ =>
              do filterRegexPattern <- try (regexp_Compile label);
              do a <- deref artifact;
              forRangeBrk (indexed (Artifact.Labels a)) (fun il match_ =>
                let exists_ := MatchString filterRegexPattern il.2 in
                do other <- index artifacts il.1;
                do _ <- deref other;
                if negb exists_ then ret (Break false) else ret (Next match_))
                match_) true;
    let match_ := flowState f in
    if String.eqb decoration Excludes then
      if negb match_ then ret (result ++ [artifact]) else ret result
    else
      if match_ then ret (result ++ [artifact]) else ret result) [].

(** The [ArtifactFilter] interface and its implementations. *)
Inductive ArtifactFilter : Type :=
| artifactTypeFilter (types : list string)
| artifactLabelFilter (labels : list string) (decoration : string)
| artifactTaggedFilter (tagged : bool)
| artifactTagFilter (pattern decoration : string)
| artifactTagFilterRegex (pattern decoration : string)
| artifactLabelFilterRegex (labels : list string) (decoration : string).

Definition Filter (f : ArtifactFilter) : list ptr -> M (list ptr) :=
  match f with
  | artifactTypeFilter types => artifactTypeFilter_Filter types
  | artifactLabelFilter labels decoration => artifactLabelFilter_Filter labels decoration
  | artifactTaggedFilter tagged => artifactTaggedFilter_Filter tagged
  | artifactTagFilter pattern decoration => artifactTagFilter_Filter pattern decoration
  | artifactTagFilterRegex pattern decoration =>
      artifactTagFilterRegex_Filter pattern decoration
  | artifactLabelFilterRegex labels decoration =>
      artifactLabelFilterRegex_Filter labels decoration
  end.

Definition ArtifactFilters : Type := list ArtifactFilter.

(** [ArtifactFilters.Filter] *)
Definition ArtifactFilters_Filter (a : ArtifactFilters) (artifacts : list ptr)
  : M (list ptr) :=
  forRange a (fun filter artifacts => Filter filter artifacts) artifacts.

(** [filter.Value.(string)] and [filter.Value.([]string)] *)
Definition assertString (v : any) : M string :=
  match v with AnyString s => ret s | _ => throw InterfaceConversion end.

Definition assertStrings (v : any) : M (list string) :=
  match v with AnyStrings l => ret l | _ => throw InterfaceConversion end.

(** [filter.Type], the first use of a [*model.Filter]: the reference is nil
    ([None]) or points to a rule. The code only reads rules, so a reference
    that is not nil is modelled by the rule it points to. *)
Definition derefFilter (filter : option Filter.t) : M Filter.t :=
  match filter with Some r => ret r | None => throw NilDereference end.

(** [BuildArtifactFilters] *)
Definition BuildArtifactFilters (filters : list (option Filter.t)) : M ArtifactFilters :=
  forRange filters (fun filter fs =>
    do filter <- derefFilter filter;
    do f <- match Filter.Type_ filter with
            | FilterTypeLabel =>
                do labels <- assertStrings (Filter.Value filter);
                ret (Some (artifactLabelFilter labels (Filter.Decoration filter)))
            | FilterTypeTag =>
                do pattern <- assertString (Filter.Value filter);
                ret (Some (artifactTagFilter pattern (Filter.Decoration filter)))
            | FilterTypeTagRegex =>
                do pattern <- assertString (Filter.Value filter);
                ret (Some (artifactTagFilterRegex pattern (Filter.Decoration filter)))
            | FilterTypeLabelRegex =>
                do labels <- assertStrings (Filter.Value filter);
                ret (Some (artifactLabelFilterRegex labels (Filter.Decoration filter)))
            | FilterTypeOther _ => ret None
            end;
    match f with
    | Some f => ret (fs ++ [f])
    | None => ret fs
    end) [].

(** [DoFilterArtifacts] *)
Definition DoFilterArtifacts (artifacts : list ptr) (filters : list (option Filter.t))
  : M (list ptr) :=
  do fl <- BuildArtifactFilters filters;
  ArtifactFilters_Filter fl artifacts.

End Filters.

(* ================================================================== *)
(** ** An executable instance of the imported capabilities *)
(* ================================================================== *)

(** [Fragment] implements [Library] for ASCII text and a fragment of the
    pattern languages, so that the filters can be run on concrete inputs:

    - regular expressions built from literal characters, [.], [^], [$],
      [( )], [|] and the operators [*], [+], [?] (with their lazy forms),
      parsed with an operator stack the way regexp/syntax does, trailing
      errors included ("missing closing )", "unexpected )", "missing
      argument to repetition operator", "invalid nested repetition
      operator"); [MatchString] is an unanchored search;
    - globs built from literal characters, [?] and single [*], neither of
      which crosses a ['/']; as in [util.Match], the empty pattern matches
      everything;
    - [ToLower] and [EqualFold] on the letters A-Z.

    Patterns that use other syntax (classes, counted repetition, escapes,
    flags, [**]) are reported as errors by this instance although the real
    libraries accept many of them; the only such pattern run below is the
    glob made of a single opening bracket, an unterminated class, which the
    real library rejects as well. The general theorems do not depend on
    this instance. *)
Module Fragment.

Inductive re : Type :=
| Never
| Empty
| Char (c : ascii)
| AnyChar
| AnyByte
| Bol
| Eol
| Cat (r1 r2 : re)
| Alt (r1 r2 : re)
| Star (r : re).

Definition cat (r1 r2 : re) : re :=
  match r1, r2 with
  | Never, _ | _, Never => Never
  | Empty, r | r, Empty => r
  | _, _ => Cat r1 r2
  end.

Definition alt (r1 r2 : re) : re :=
  match r1, r2 with
  | Never, r | r, Never => r
  | _, _ => Alt r1 r2
  end.

(** Does [r] match the empty string here, at the start and/or the end of
    the text? *)
Fixpoint nullable (atStart atEnd : bool) (r : re) : bool :=
  match r with
  | Never | Char _ | AnyChar | AnyByte => false
  | Empty | Star _ => true
  | Bol => atStart
  | Eol => atEnd
  | Cat r1 r2 => nullable atStart atEnd r1 && nullable atStart atEnd r2
  | Alt r1 r2 => nullable atStart atEnd r1 || nullable atStart atEnd r2
  end.

(** What is left of [r] after reading the character [c]. *)
Fixpoint deriv (atStart : bool) (c : ascii) (r : re) : re :=
  match r with
  | Never | Empty | Bol | Eol => Never
  | Char d => if Ascii.eqb c d then Empty else Never
  | AnyChar => if Ascii.eqb c "010"%char then Never else Empty
  | AnyByte => Empty
  | Cat r1 r2 =>
      alt (cat (deriv atStart c r1) r2)
          (if nullable atStart false r1 then deriv atStart c r2 else Never)
  | Alt r1 r2 => alt (deriv atStart c r1) (deriv atStart c r2)
  | Star r1 => cat (deriv atStart c r1) (Star r1)
  end.

Fixpoint fullMatch (atStart : bool) (r : re) (s : string) : bool :=
  match s with
  | EmptyString => nullable atStart true r
  | String c s' => fullMatch false (deriv atStart c r) s'
  end.

Definition search (r : re) (s : string) : bool :=
  fullMatch true (Cat (Star AnyByte) (Cat r (Star AnyByte))) s.

(** The operator stack of the parser. *)
Inductive item : Type :=
| Operand (r : re)
| LeftParen
| VerticalBar.

(** Concatenate the operands above the nearest marker. *)
Fixpoint concat (stack : list item) (acc : re) : re * list item :=
  match stack with
  | Operand r :: rest => concat rest (cat r acc)
  | _ => (acc, stack)
  end.

(** Fold the alternatives collected below [r]. *)
Fixpoint alternate (r : re) (stack : list item) : re * list item :=
  match stack with
  | VerticalBar :: Operand r' :: rest => alternate (Alt r' r) rest
  | _ => (r, stack)
  end.

Inductive repeat : Type :=
| NoRepeat
| RepeatOp
| RepeatLazy.

Definition syntaxError (code expr : string) : error :=
  "error parsing regexp: " +:+ code +:+ ": `" +:+ expr +:+ "`".

Definition applyRepeat (c : ascii) (r : re) : re :=
  if Ascii.eqb c "*" then Star r
  else if Ascii.eqb c "+" then Cat r (Star r)
  else Alt r Empty.

Fixpoint parse (whole t : string) (stack : list item) (last : repeat)
  : error + re :=
  match t with
  | EmptyString =>
      let '(r, rest) := concat stack Empty in
      let '(r, rest) := alternate r rest in
      match rest with
      | [] => inr r
      | _ => inl (syntaxError "missing closing )" whole)
      end
  | String c t' =>
      if Ascii.eqb c "(" then parse whole t' (LeftParen :: stack) NoRepeat
      else if Ascii.eqb c "|" then
        let '(r, rest) := concat stack Empty in
        parse whole t' (VerticalBar :: Operand r :: rest) NoRepeat
      else if Ascii.eqb c ")" then
        let '(r, rest) := concat stack Empty in
        let '(r, rest) := alternate r rest in
        match rest with
        | LeftParen :: rest' => parse whole t' (Operand r :: rest') NoRepeat
        | _ => inl (syntaxError "unexpected )" whole)
        end
      else if Ascii.eqb c "*" || Ascii.eqb c "+" || Ascii.eqb c "?" then
        match last, Ascii.eqb c "?" with
        | RepeatOp, true => parse whole t' stack RepeatLazy
        | NoRepeat, _ =>
            match stack with
            | Operand r :: rest =>
                parse whole t' (Operand (applyRepeat c r) :: rest) RepeatOp
            | _ => inl (syntaxError "missing argument to repetition operator" whole)
            end
        | _, _ => inl (syntaxError "invalid nested repetition operator" whole)
        end
      else if Ascii.eqb c "." then parse whole t' (Operand AnyChar :: stack) NoRepeat
      else if Ascii.eqb c "^" then parse whole t' (Operand Bol :: stack) NoRepeat
      else if Ascii.eqb c "$" then parse whole t' (Operand Eol :: stack) NoRepeat
      else if Ascii.eqb c "[" || Ascii.eqb c "]" || Ascii.eqb c "{"
              || Ascii.eqb c "}" || Ascii.eqb c "\" then
        inl (syntaxError "outside the modelled fragment" whole)
      else parse whole t' (Operand (Char c) :: stack) NoRepeat
  end.

Definition Compile (expr : string) : error + re := parse expr expr [] NoRepeat.

(** Globs. *)
Definition notSeparator (c : ascii) : bool := negb (Ascii.eqb c "/").

Fixpoint glob (p s : string) : bool :=
  match p with
  | EmptyString => match s with EmptyString => true | _ => false end
  | String c p' =>
      if Ascii.eqb c "*" then
        (fix star (s : string) : bool :=
           glob p' s ||
           match s with
           | EmptyString => false
           | String d s' => notSeparator d && star s'
           end) s
      else
        match s with
        | EmptyString => false
        | String d s' =>
            (if Ascii.eqb c "?" then notSeparator d else Ascii.eqb c d) && glob p' s'
        end
  end.

Fixpoint globSyntax (p : string) (afterStar : bool) : bool :=
  match p with
  | EmptyString => true
  | String c p' =>
      if Ascii.eqb c "[" || Ascii.eqb c "]" || Ascii.eqb c "{" || Ascii.eqb c "}"
         || Ascii.eqb c "\" || Ascii.eqb c "/" then false
      else if Ascii.eqb c "*" then negb afterStar && globSyntax p' true
      else globSyntax p' false
  end.

Definition Match (pattern str : string) : error + bool :=
  if String.length pattern =? 0 then inr true
  else if globSyntax pattern false then inr (glob pattern str)
  else inl "syntax error in pattern".

(** Letter case. *)
Definition lower (c : ascii) : ascii :=
  let n := nat_of_ascii c in
  if (65 <=? n) && (n <=? 90) then ascii_of_nat (n + 32) else c.

Fixpoint ToLower (s : string) : string :=
  match s with
  | EmptyString => EmptyString
  | String c s' => String (lower c) (ToLower s')
  end.

Definition EqualFold (s t : string) : bool := String.eqb (ToLower s) (ToLower t).

Definition lib : Library := {|
  Regexp := re;
  regexp_Compile := Compile;
  MatchString := search;
  util_Match := Match;
  strings_ToLower := ToLower;
  strings_EqualFold := EqualFold
|}.

End Fragment.


(* ================================================================== *)
(** ** The artifact list as a slice *)
(* ================================================================== *)

(** Above, a [[]*model.Artifact] is the list of its elements, which is all
    that the effect of the filters on the artifacts depends on. The identity
    of the list value itself does not show there: handing back the argument
    and handing back a copy of it are the same list. [Slices] embeds the
    filters once more with the artifact list as Go has it, a slice header
    (array, position in it, length, capacity) over a store of arrays, so
    that the slice that came in can be told from another slice with the same
    elements. Inside the module the run-time notions are the ones above,
    taken to the larger state under their names. *)
Declare Scope slice_scope.

Module Slices.

(** A [[]*model.Artifact]: the array it is a window on ([None] for a nil
    slice), where the window starts, its length and its capacity. *)
Record slice : Type := Slice {
  array : option nat;
  start : nat;
  len : nat;
  cap : nat
}.

(** [var result []*model.Artifact] *)
Definition nilSlice : slice := Slice None 0 0 0.

(** The state: the store of records and the arrays allocated so far, array
    [i] at address [i]. *)
Record Heap : Type := mkHeap {
  records : Mem;
  arrays : list (list ptr)
}.

Definition St (A : Type) : Type := Heap -> outcome (A * Heap).

Definition ret {A} (a : A) : St A := fun h => Ok (a, h).

Definition bind {A B} (c : St A) (k : A -> St B) : St B :=
  fun h =>
    match c h with
    | Ok (a, h') => k a h'
    | Err e => Err e
    | Panic p => Panic p
    end.

Notation "'do' x <- c ; k" := (bind c (fun x => k))
  (at level 10, x name, c at level 100, k at level 200) : slice_scope.

Local Open Scope slice_scope.

(** A computation on the records, run in the larger state. *)
Definition lift {A} (c : M A) : St A :=
  fun h =>
    match c (records h) with
    | Ok (a, m) => Ok (a, mkHeap m (arrays h))
    | Err e => Err e
    | Panic p => Panic p
    end.

Definition try {A} (r : error + A) : St A := lift (try r).

Definition deref (p : ptr) : St Artifact.t := lift (deref p).

Definition new (a : Artifact.t) : St ptr := lift (new a).

(** The cells of its array a slice can reach, and the elements it holds. *)
Definition cells (h : Heap) (s : slice) : list ptr :=
  match array s with
  | Some i => drop (start s) (default [] (arrays h !! i))
  | None => []
  end.

Definition elems (h : Heap) (s : slice) : list ptr := take (len s) (cells h s).

(** [s[i]]. A Go run only holds slices that lie within their array; a
    position of the slice that is outside the array reads as nil. *)
Definition index (s : slice) (i : nat) : St ptr :=
  fun h =>
    if i <? len s
    then Ok (default None (cells h s !! i), h)
    else Panic (IndexOutOfRange i (len s)).

(** The capacity [append] gives a new array is up to the Go run time:
    [growslice old need] is its choice for a slice of capacity [old] that
    has to hold [need] elements; the array gets at least [need] cells. *)
Class Runtime : Type := {
  growslice : nat -> nat -> nat
}.

(** One choice, for concrete runs: double the capacity. *)
Definition doubling : Runtime := {| growslice := fun old _ => 2 * old |}.

Section Filters.

Context {L : Library} {R : Runtime}.

(** [append(s, x)] when the capacity does not suffice: a new array with the
    elements of [s], then [x], then nil cells. *)
Definition grown (s : slice) (x : ptr) : St slice :=
  fun h =>
    let c := Nat.max (S (len s)) (growslice (cap s) (S (len s))) in
    Ok (Slice (Some (length (arrays h))) 0 (S (len s)) c,
        mkHeap (records h)
          (arrays h ++ [elems h s ++ x :: replicate (c - S (len s)) None])).

(** [append(s, x)]: within the capacity the cell after the last element is
    written and the array stays; otherwise the slice moves to a new array. *)
Definition append (s : slice) (x : ptr) : St slice :=
  match array s with
  | Some i =>
      if len s <? cap s then
        fun h =>
          Ok (Slice (Some i) (start s) (S (len s)) (cap s),
              mkHeap (records h)
                (alter (fun c => <[start s + len s := x]> c) i (arrays h)))
      else grown s x
  | None => grown s x
  end.

Fixpoint forRange {A S} (xs : list A) (body : A -> S -> St S) (s : S) : St S :=
  match xs with
  | [] => ret s
  | x :: xs' => do s' <- body x s; forRange xs' body s'
  end.

Fixpoint forRangeBrk {A S} (xs : list A) (body : A -> S -> St (flow S)) (s : S)
  : St (flow S) :=
  match xs with
  | [] => ret (Next s)
  | x :: xs' =>
      do f <- body x s;
      match f with
      | Next s' => forRangeBrk xs' body s'
      | Break s' => ret (Break s')
      end
  end.

(** [for _, artifact := range artifacts]: the length is read once, the
    element at each position when the loop gets there. *)
Definition forArtifacts {S} (artifacts : slice) (body : ptr -> S -> St S) (s : S)
  : St S :=
  forRange (seq 0 (len artifacts)) (fun i s =>
    do artifact <- index artifacts i;
    body artifact s) s.

(** [artifactTypeFilter.Filter] *)
Definition artifactTypeFilter_Filter (types : list string) (artifacts : slice)
  : St slice :=
  if length types =? 0 then ret artifacts else
  forArtifacts artifacts (fun artifact result =>
    forRange types (fun t result =>
      do a <- deref artifact;
      if strings_EqualFold (strings_ToLower (Artifact.Type_ a)) (strings_ToLower t)
      then append result artifact
      else ret result) result) nilSlice.

(** [artifactLabelFilter.Filter] *)
Definition artifactLabelFilter_Filter (labels : list string) (decoration : string)
    (artifacts : slice) : St slice :=
  if length labels =? 0 then ret artifacts else
  forArtifacts artifacts (fun artifact result =>
    do a <- deref artifact;
    do labelset <- forRange (Artifact.Labels a)
                     (fun label (labelset : gset string) => ret ({[label]} ∪ labelset)) ∅;
    do f <- forRangeBrk labels (fun label match_ =>
              if bool_decide (label ∈ labelset)
              then ret (Next match_)
              else ret (Break false)) true;
    let match_ := flowState f in
    if String.eqb decoration Excludes then
      if negb match_ then append result artifact else ret result
    else
      if match_ then append result artifact else ret result) nilSlice.

(** [artifactTaggedFilter.Filter] *)
Definition artifactTaggedFilter_Filter (tagged : bool) (artifacts : slice)
  : St slice :=
  forArtifacts artifacts (fun artifact result =>
    do a <- deref artifact;
    if (tagged && (0 <? length (Artifact.Tags a)))
       || (negb tagged && (length (Artifact.Tags a) =? 0))
    then append result artifact
    else ret result) nilSlice.

(** [artifactTagFilter.Filter] *)
Definition artifactTagFilter_Filter (pattern decoration : string)
    (artifacts : slice) : St slice :=
  if String.length pattern =? 0 then ret artifacts else
  forArtifacts artifacts (fun artifact result =>
    do a <- deref artifact;
    let tagsForMatching :=
      if Artifact.IsAcc a then [] ++ Artifact.ParentTags a else [] ++ Artifact.Tags a in
    if length tagsForMatching =? 0 then
      do match_ <- try (util_Match pattern "");
      if String.eqb decoration Excludes then
        if negb match_ then append result artifact else ret result
      else
        if match_ then append result artifact else ret result
    else
      do tags <- forRange tagsForMatching (fun tag tags =>
                   do match_ <- try (util_Match pattern tag);
                   if String.eqb decoration Excludes then
                     if negb match_ then ret (tags ++ [tag]) else ret tags
                   else
                     if match_ then ret (tags ++ [tag]) else ret tags) [];
      if length tags =? 0 then ret result else
      if Artifact.IsAcc a then
        do r <- new {| Artifact.Type_ := Artifact.Type_ a;
                       Artifact.Digest := Artifact.Digest a;
                       Artifact.Labels := Artifact.Labels a;
                       Artifact.Tags := Artifact.Tags a;
                       Artifact.IsAcc := false;
                       Artifact.ParentTags := [] |};
        append result r
      else
        do r <- new {| Artifact.Type_ := Artifact.Type_ a;
                       Artifact.Digest := Artifact.Digest a;
                       Artifact.Labels := Artifact.Labels a;
                       Artifact.Tags := tags;
                       Artifact.IsAcc := false;
                       Artifact.ParentTags := [] |};
        append result r) nilSlice.

(** [artifactTagFilterRegex.Filter] *)
Definition artifactTagFilterRegex_Filter (pattern decoration : string)
    (artifacts : slice) : St slice :=
  if String.length pattern =? 0 then ret artifacts else
  do filterRegexPattern <- try (regexp_Compile pattern);
  forArtifacts artifacts (fun artifact result =>
    do a <- deref artifact;
    let tagsForMatching :=
      if Artifact.IsAcc a then [] ++ Artifact.ParentTags a else [] ++ Artifact.Tags a in
    if length tagsForMatching =? 0 then
      let match_ := MatchString filterRegexPattern "" in
      if String.eqb decoration Excludes then
        if negb match_ then append result artifact else ret result
      else
        if match_ then append result artifact else ret result
    else
      do tags <- forRange tagsForMatching (fun tag tags =>
                   let match_ := MatchString filterRegexPattern tag in
                   if String.eqb decoration Excludes then
                     if negb match_ then ret (tags ++ [tag]) else ret tags
                   else
                     if match_ then ret (tags ++ [tag]) else ret tags) [];
      if length tags =? 0 then ret result else
      if Artifact.IsAcc a then
        do r <- new {| Artifact.Type_ := Artifact.Type_ a;
                       Artifact.Digest := Artifact.Digest a;
                       Artifact.Labels := Artifact.Labels a;
                       Artifact.Tags := Artifact.Tags a;
                       Artifact.IsAcc := false;
                       Artifact.ParentTags := [] |};
        append result r
      else
        do r <- new {| Artifact.Type_ := Artifact.Type_ a;
                       Artifact.Digest := Artifact.Digest a;
                       Artifact.Labels := Artifact.Labels a;
                       Artifact.Tags := tags;
                       Artifact.IsAcc := false;
                       Artifact.ParentTags := [] |};
        append result r) nilSlice.

(** [artifactLabelFilterRegex.Filter] *)
Definition artifactLabelFilterRegex_Filter (labels : list string) (decoration : string)
    (artifacts : slice) : St slice :=
  if length labels =? 0 then ret artifacts else
  forArtifacts artifacts (fun artifact result =>
    do f <- forRangeBrk labels (fun label match_ =>
              do filterRegexPattern <- try (regexp_Compile label);
              do a <- deref artifact;
              forRangeBrk (indexed (Artifact.Labels a)) (fun il match_ =>
                let exists_ := MatchString filterRegexPattern il.2 in
                do other <- index artifacts il.1;
                do _ <- deref other;
                if negb exists_ then ret (Break false) else ret (Next match_))
                match_) true;
    let match_ := flowState f in
    if String.eqb decoration Excludes then
      if negb match_ then append result artifact else ret result
    else
      if match_ then append result artifact else ret result) nilSlice.

Definition Filter (f : ArtifactFilter) : slice -> St slice :=
  match f with
  | artifactTypeFilter types => artifactTypeFilter_Filter types
  | artifactLabelFilter labels decoration => artifactLabelFilter_Filter labels decoration
  | artifactTaggedFilter tagged => artifactTaggedFilter_Filter tagged
  | artifactTagFilter pattern decoration => artifactTagFilter_Filter pattern decoration
  | artifactTagFilterRegex pattern decoration =>
      artifactTagFilterRegex_Filter pattern decoration
  | artifactLabelFilterRegex labels decoration =>
      artifactLabelFilterRegex_Filter labels decoration
  end.

(** [ArtifactFilters.Filter] *)
Definition ArtifactFilters_Filter (a : ArtifactFilters) (artifacts : slice)
  : St slice :=
  forRange a (fun filter artifacts => Filter filter artifacts) artifacts.

(** [DoFilterArtifacts] *)
Definition DoFilterArtifacts (artifacts : slice) (filters : list (option Filter.t))
  : St slice :=
  do fl <- lift (BuildArtifactFilters filters);
  ArtifactFilters_Filter fl artifacts.

End Filters.

(** The slice lies within an allocated array, or is the nil slice. *)
Definition valid (h : Heap) (s : slice) : Prop :=
  len s <= cap s /\
  match array s with
  | Some i => exists c, arrays h !! i = Some c /\ start s + cap s <= length c
  | None => cap s = 0
  end.

End Slices.

(* ================================================================== *)
(** ** Notions used to state the properties *)
(* ================================================================== *)

(** The decoration test written at every append: under "excludes" the
    candidate is kept when the match failed, under any other decoration
    when it succeeded. *)
Definition keeps (decoration : string) (b : bool) : bool :=
  if String.eqb decoration Excludes then negb b else b.

(** The tags a tag rule looks at. *)
Definition tagsForMatching (a : Artifact.t) : list string :=
  if Artifact.IsAcc a then Artifact.ParentTags a else Artifact.Tags a.

(** The record a tag rule allocates for [a] with tag list [tags]. *)
Definition narrowed (a : Artifact.t) (tags : list string) : Artifact.t :=
  {| Artifact.Type_ := Artifact.Type_ a;
     Artifact.Digest := Artifact.Digest a;
     Artifact.Labels := Artifact.Labels a;
     Artifact.Tags := tags;
     Artifact.IsAcc := false;
     Artifact.ParentTags := [] |}.

(** What one artifact contributes to the output of a tag rule whose pattern
    matches exactly the strings accepted by [mb]. *)
Definition tagEmit (mb : string -> bool) (decoration : string)
    (p : ptr) (a : Artifact.t) (m : Mem) : list ptr * Mem :=
  match tagsForMatching a with
  | [] => (if keeps decoration (mb "") then [p] else [], m)
  | src =>
      match List.filter (fun t => keeps decoration (mb t)) src with
      | [] => ([], m)
      | tags =>
          ([Some (length m)],
           m ++ [narrowed a (if Artifact.IsAcc a then Artifact.Tags a else tags)])
      end
  end.

(** The run of a tag rule over a list: the contributions of the artifacts
    in order, each computed in the store the previous ones left; [None] when
    a reference of the list points to no record. *)
Fixpoint tagRun (mb : string -> bool) (decoration : string)
    (artifacts : list ptr) (m : Mem) : option (list ptr * Mem) :=
  match artifacts with
  | [] => Some ([], m)
  | p :: rest =>
      match load m p with
      | None => None
      | Some a =>
          let '(e, m1) := tagEmit mb decoration p a m in
          match tagRun mb decoration rest m1 with
          | Some (es, m2) => Some (e ++ es, m2)
          | None => None
          end
      end
  end.

(** The boolean reading of a [(bool, error)] result. *)
Definition boolOf (mt : string -> error + bool) (s : string) : bool :=
  match mt s with inr b => b | inl _ => false end.

(** An artifact up to the rewriting of its tag list. *)
Definition ident (a : Artifact.t) : string * string * list string :=
  (Artifact.Type_ a, Artifact.Digest a, Artifact.Labels a).

(** The artifacts a list of references stands for, up to their tags. *)
Definition idents (ps : list ptr) (m : Mem) : list (string * string * list string) :=
  omap (fun p => ident <$> load m p) ps.

(** The two outputs split the input: together they have its elements, and
    they have none in common. *)
Definition partitionOf {A} (input outM outE : list A) : Prop :=
  (forall x, x ∈ input <-> x ∈ outM \/ x ∈ outE) /\
  (forall x, ~ (x ∈ outM /\ x ∈ outE)).

(** Every reference of the list points to a record of the store. *)
Definition allocated (ps : list ptr) (m : Mem) : Prop :=
  Forall (fun p => is_Some (load m p)) ps.

Section Notions.

Context {L : Library}.

(** The two tag rules share their loops: [narrowBody] is the body of the
    loop over the tags and [tagBody] the body of the loop over the
    artifacts, both over an arbitrary matcher. *)
Definition narrowBody (mt : string -> error + bool) (decoration : string)
    (tag : string) (tags : list string) : M (list string) :=
  do match_ <- try (mt tag);
  if String.eqb decoration Excludes then
    if negb match_ then ret (tags ++ [tag]) else ret tags
  else
    if match_ then ret (tags ++ [tag]) else ret tags.

Definition tagBody (mt : string -> error + bool) (decoration : string)
    (artifact : ptr) (result : list ptr) : M (list ptr) :=
  do a <- deref artifact;
  let tagsForMatching :=
    if Artifact.IsAcc a then [] ++ Artifact.ParentTags a else [] ++ Artifact.Tags a in
  if length tagsForMatching =? 0 then
    do match_ <- try (mt "");
    if String.eqb decoration Excludes then
      if negb match_ then ret (result ++ [artifact]) else ret result
    else
      if match_ then ret (result ++ [artifact]) else ret result
  else
    do tags <- forRange tagsForMatching (narrowBody mt decoration) [];
    if length tags =? 0 then ret result else
    if Artifact.IsAcc a then
      do r <- new (narrowed a (Artifact.Tags a));
      ret (result ++ [r])
    else
      do r <- new (narrowed a tags);
      ret (result ++ [r]).

(** The two label rules end their loop body with the same decoration
    test; [decorated] is that body over an arbitrary match computation. *)
Definition decorated (analysis : ptr -> M bool) (decoration : string)
    (artifact : ptr) (result : list ptr) : M (list ptr) :=
  do match_ <- analysis artifact;
  if String.eqb decoration Excludes then
    if negb match_ then ret (result ++ [artifact]) else ret result
  else
    if match_ then ret (result ++ [artifact]) else ret result.

(** The match computation of [artifactLabelFilter.Filter]. *)
Definition labelAnalysis (labels : list string) (artifact : ptr) : M bool :=
  do a <- deref artifact;
  do labelset <- forRange (Artifact.Labels a)
                   (fun label (labelset : gset string) => ret ({[label]} ∪ labelset)) ∅;
  do f <- forRangeBrk labels (fun label match_ =>
            if bool_decide (label ∈ labelset)
            then ret (Next match_)
            else ret (Break false)) true;
  ret (flowState f).

(** The match computation of [artifactLabelFilterRegex.Filter]. *)
Definition labelRegexAnalysis (labels : list string) (artifacts : list ptr)
    (artifact : ptr) : M bool :=
  do f <- forRangeBrk labels (fun label match_ =>
            do filterRegexPattern <- try (regexp_Compile label);
            do a <- deref artifact;
            forRangeBrk (indexed (Artifact.Labels a)) (fun il match_ =>
              let exists_ := MatchString filterRegexPattern il.2 in
              do other <- index artifacts il.1;
              do _ <- deref other;
              if negb exists_ then ret (Break false) else ret (Next match_))
              match_) true;
  ret (flowState f).

(** Glob or regular expression. *)
Inductive tagKind : Type :=
| glob
| regex.

Definition tagFilter (k : tagKind) (pattern decoration : string) : ArtifactFilter :=
  match k with
  | glob => artifactTagFilter pattern decoration
  | regex => artifactTagFilterRegex pattern decoration
  end.

(** [pattern] is well-formed for the kind [k], and [mb] tells which strings it
    matches. *)
Definition usable (k : tagKind) (pattern : string) (mb : string -> bool) : Prop :=
  match k with
  | glob => forall s, util_Match pattern s = inr (mb s)
  | regex =>
      exists re, regexp_Compile pattern = inr re /\ forall s, MatchString re s = mb s
  end.

(** The match predicate a tag rule computes with when it runs. *)
Definition matcherOf (k : tagKind) (pattern : string) : string -> bool :=
  match k with
  | glob => boolOf (util_Match pattern)
  | regex =>
      match regexp_Compile pattern with
      | inr re => MatchString re
      | inl _ => fun _ => false
      end
  end.

End Notions.

(** The strategy a rule stands for. *)
Inductive builds : Filter.t -> ArtifactFilter -> Prop :=
| builds_Label labels decoration :
    builds (Filter.mk FilterTypeLabel (AnyStrings labels) decoration)
           (artifactLabelFilter labels decoration)
| builds_Tag pattern decoration :
    builds (Filter.mk FilterTypeTag (AnyString pattern) decoration)
           (artifactTagFilter pattern decoration)
| builds_TagRegex pattern decoration :
    builds (Filter.mk FilterTypeTagRegex (AnyString pattern) decoration)
           (artifactTagFilterRegex pattern decoration)
| builds_LabelRegex labels decoration :
    builds (Filter.mk FilterTypeLabelRegex (AnyStrings labels) decoration)
           (artifactLabelFilterRegex labels decoration).

(** The body of the builder's loop. *)
Definition buildBody (filter : option Filter.t) (fs : ArtifactFilters)
  : M ArtifactFilters :=
  do filter <- derefFilter filter;
  do f <- match Filter.Type_ filter with
          | FilterTypeLabel =>
              do labels <- assertStrings (Filter.Value filter);
              ret (Some (artifactLabelFilter labels (Filter.Decoration filter)))
          | FilterTypeTag =>
              do pattern <- assertString (Filter.Value filter);
              ret (Some (artifactTagFilter pattern (Filter.Decoration filter)))
          | FilterTypeTagRegex =>
              do pattern <- assertString (Filter.Value filter);
              ret (Some (artifactTagFilterRegex pattern (Filter.Decoration filter)))
          | FilterTypeLabelRegex =>
              do labels <- assertStrings (Filter.Value filter);
              ret (Some (artifactLabelFilterRegex labels (Filter.Decoration filter)))
          | FilterTypeOther _ => ret None
          end;
  match f with
  | Some f => ret (fs ++ [f])
  | None => ret fs
  end.

(** The strategy of a rule of a known kind whose value has the dynamic type
    the kind asks for. *)
Definition strategyOf (r : Filter.t) : option ArtifactFilter :=
  match Filter.Type_ r, Filter.Value r with
  | FilterTypeLabel, AnyStrings l =>
      Some (artifactLabelFilter l (Filter.Decoration r))
  | FilterTypeTag, AnyString s =>
      Some (artifactTagFilter s (Filter.Decoration r))
  | FilterTypeTagRegex, AnyString s =>
      Some (artifactTagFilterRegex s (Filter.Decoration r))
  | FilterTypeLabelRegex, AnyStrings l =>
      Some (artifactLabelFilterRegex l (Filter.Decoration r))
  | _, _ => None
  end.

(** The rule has one of the four kinds the builder knows. *)
Definition recognised (r : Filter.t) : bool :=
  match Filter.Type_ r with
  | FilterTypeOther _ => false
  | _ => true
  end.

(** The value of the rule has the dynamic type its kind asks for. *)
Definition wellTyped (r : Filter.t) : bool :=
  match Filter.Type_ r, Filter.Value r with
  | FilterTypeLabel, AnyStrings _
  | FilterTypeLabelRegex, AnyStrings _
  | FilterTypeTag, AnyString _
  | FilterTypeTagRegex, AnyString _
  | FilterTypeOther _, _ => true
  | _, _ => false
  end.

(** What the builder panics with on a rule reference, if anything: a nil
    dereference on a nil reference, a failed type assertion on a rule whose
    value has not the dynamic type its kind asks for. *)
Definition fault (filter : option Filter.t) : option panic :=
  match filter with
  | None => Some NilDereference
  | Some r => if wellTyped r then None else Some InterfaceConversion
  end.

(** The fault of the first rule reference of the list that has one. *)
Definition firstFault (filters : list (option Filter.t)) : option panic :=
  head (omap fault filters).

(** The rules a list of references points to, in order. *)
Definition rulesOf (filters : list (option Filter.t)) : list Filter.t :=
  omap id filters.

(** The reference is nil or points to a rule of a kind the builder knows. *)
Definition kept (filter : option Filter.t) : bool :=
  match filter with
  | Some r => recognised r
  | None => true
  end.

(** The rule [r] under the decoration [decoration]. *)
Definition withDecoration (r : Filter.t) (decoration : string) : Filter.t :=
  Filter.mk (Filter.Type_ r) (Filter.Value r) decoration.

(** A Label or LabelRegex rule with at least one label. *)
Definition labelRule (r : Filter.t) : bool :=
  match Filter.Type_ r, Filter.Value r with
  | FilterTypeLabel, AnyStrings (_ :: _)
  | FilterTypeLabelRegex, AnyStrings (_ :: _) => true
  | _, _ => false
  end.

(** Every reference of the list is nil or points to a record of the store,
    as in any Go state. *)
Definition wellFormed (ps : list ptr) (m : Mem) : Prop :=
  Forall (fun p => p = None \/ is_Some (load m p)) ps.

(** The artifact has every label of the list (exact label rule). *)
Definition hasLabels (labels : list string) (a : Artifact.t) : bool :=
  forallb (fun label => bool_decide (label ∈ Artifact.Labels a)) labels.

(** The artifact gets through a tag rule whose pattern matches the strings
    accepted by [mb]. *)
Definition survives (mb : string -> bool) (decoration : string) (a : Artifact.t)
  : bool :=
  match tagsForMatching a with
  | [] => keeps decoration (mb "")
  | src =>
      match List.filter (fun t => keeps decoration (mb t)) src with
      | [] => false
      | _ => true
      end
  end.

(** Some of the tags the rule looks at match and some do not. *)
Definition mixed (mb : string -> bool) (a : Artifact.t) : bool :=
  existsb mb (tagsForMatching a) && existsb (fun t => negb (mb t)) (tagsForMatching a).

(** The artifacts of the list with mixed tags. *)
Definition mixedArtifacts (mb : string -> bool) (ps : list ptr) (m : Mem) : list ptr :=
  List.filter (fun p => match load m p with
                        | Some a => mixed mb a
                        | None => false
                        end) ps.

(** What the artifact behind [p] contributes to the two outputs of a tag
    rule whose pattern matches the strings accepted by [mb]: the references
    [eM] to the output under Matches and [eE] to the output under Excludes.
    Each is empty or a single reference, to the artifact itself or to a
    record with its type, digest and labels; the first is there when the
    artifact gets through under Matches, the second when it gets through
    under Excludes; one of them is there, and both are exactly when the
    artifact has a matching and a non-matching tag. *)
Definition contributes (mb : string -> bool) (m mM mE : Mem)
    (p : ptr) (eM eE : list ptr) : Prop :=
  exists a, load m p = Some a /\
    length eM = Nat.b2n (survives mb Matches a) /\
    length eE = Nat.b2n (survives mb Excludes a) /\
    (forall q, q ∈ eM -> exists r, load mM q = Some r /\ ident r = ident a) /\
    (forall q, q ∈ eE -> exists r, load mE q = Some r /\ ident r = ident a) /\
    (eM <> [] \/ eE <> []) /\
    (eM <> [] /\ eE <> [] <-> mixed mb a = true).

(** The kind and pattern of a Tag or TagRegex rule. *)
Definition tagRuleOf (r : Filter.t) : option (tagKind * string) :=
  match Filter.Type_ r, Filter.Value r with
  | FilterTypeTag, AnyString s => Some (glob, s)
  | FilterTypeTagRegex, AnyString s => Some (regex, s)
  | _, _ => None
  end.

(** The parent-tag check of a tag rule on an accessory. *)
Definition parentTagCheck (mb : string -> bool) (a : Artifact.t) : bool :=
  match Artifact.ParentTags a with
  | [] => mb ""
  | tags => existsb mb tags
  end.

(* ------------------------------------------------------------------ *)
(** Notions for the properties of the remaining code. *)

(** Every reference of the list points to a record, as a test. *)
Definition allocatedb (ps : list ptr) (m : Mem) : bool :=
  forallb (fun p => match load m p with Some _ => true | None => false end) ps.

(** The references of the list whose record passes the test [f], in order. *)
Definition select (f : Artifact.t -> bool) (ps : list ptr) (m : Mem) : list ptr :=
  List.filter (fun p => match load m p with Some a => f a | None => false end) ps.

(** The artifact has at least one tag. *)
Definition hasTags (a : Artifact.t) : bool :=
  match Artifact.Tags a with
  | [] => false
  | _ => true
  end.

(** The strings a tag rule hands to its matcher for the artifact: the tags
    it looks at, or the empty string when there are none. *)
Definition examined (a : Artifact.t) : list string :=
  match tagsForMatching a with
  | [] => [""]
  | src => src
  end.

(** The records a list of references points to. *)
Definition contents (ps : list ptr) (m : Mem) : list Artifact.t :=
  omap (load m) ps.

(** The record that stands for [a] after a tag rule, if any. *)
Definition tagContent (mb : string -> bool) (decoration : string) (a : Artifact.t)
  : list Artifact.t :=
  match tagsForMatching a with
  | [] => if keeps decoration (mb "") then [a] else []
  | src =>
      match List.filter (fun t => keeps decoration (mb t)) src with
      | [] => []
      | tags => [narrowed a (if Artifact.IsAcc a then Artifact.Tags a else tags)]
      end
  end.

(** The strategies that select among the references they are given and
    allocate nothing: the label rules and the tagged/untagged filter. *)
Definition selecting (f : ArtifactFilter) : bool :=
  match f with
  | artifactLabelFilter _ _ | artifactLabelFilterRegex _ _ | artifactTaggedFilter _ => true
  | _ => false
  end.

Section MoreNotions.

Context {L : Library}.

(** The configured types the type of [a] equals up to letter case. *)
Definition typeMatches (types : list string) (a : Artifact.t) : list string :=
  List.filter (fun t => strings_EqualFold (strings_ToLower (Artifact.Type_ a))
                          (strings_ToLower t)) types.

(** Every pattern of the list matches every label of the artifact. *)
Definition everyLabelMatches (res : list Regexp) (a : Artifact.t) : bool :=
  forallb (fun re => forallb (MatchString re) (Artifact.Labels a)) res.

(** The match computation of [artifactTaggedFilter.Filter]. *)
Definition taggedAnalysis (tagged : bool) (artifact : ptr) : M bool :=
  do a <- deref artifact;
  ret ((tagged && (0 <? length (Artifact.Tags a)))
       || (negb tagged && (length (Artifact.Tags a) =? 0))).

(** Where an error of a run can come from: the compilation of the pattern
    of a TagRegex rule or of a label pattern of a LabelRegex rule, or a
    [util.Match] call with the pattern of a Tag rule. *)
Definition errorSource (r : Filter.t) (e : error) : Prop :=
  match Filter.Type_ r, Filter.Value r with
  | FilterTypeTag, AnyString s => s <> "" /\ exists t, util_Match s t = inl e
  | FilterTypeTagRegex, AnyString s => s <> "" /\ regexp_Compile s = inl e
  | FilterTypeLabelRegex, AnyStrings ls => exists l, l ∈ ls /\ regexp_Compile l = inl e
  | _, _ => False
  end.

(** The same for a strategy. *)
Definition errorOf (f : ArtifactFilter) (e : error) : Prop :=
  match f with
  | artifactTagFilter s _ => s <> "" /\ exists t, util_Match s t = inl e
  | artifactTagFilterRegex s _ => s <> "" /\ regexp_Compile s = inl e
  | artifactLabelFilterRegex ls _ => exists l, l ∈ ls /\ regexp_Compile l = inl e
  | _ => False
  end.

End MoreNotions.

(* ------------------------------------------------------------------ *)
(** Notions for the slice-level embedding. *)

(** [append] once per element of the list, in order. *)
Definition appendAll {R : Slices.Runtime} (s : Slices.slice) (xs : list ptr)
  : Slices.St Slices.slice :=
  Slices.forRange xs (fun x s => Slices.append s x) s.

(** The slice is nil or a window on an array at address [n] or above: on
    none of the first [n] arrays. *)
Definition fresh (n : nat) (s : Slices.slice) : Prop :=
  match Slices.array s with
  | Some i => n <= i
  | None => True
  end.

(** The strategy has no early return, or is past it: it runs its loop. *)
Definition runsLoop (f : ArtifactFilter) : bool :=
  match f with
  | artifactTypeFilter types => negb (length types =? 0)
  | artifactLabelFilter labels _ => negb (length labels =? 0)
  | artifactTaggedFilter _ => true
  | artifactTagFilter pattern _ => negb (String.length pattern =? 0)
  | artifactTagFilterRegex pattern _ => negb (String.length pattern =? 0)
  | artifactLabelFilterRegex labels _ => negb (length labels =? 0)
  end.

(** A run on slices against a run on lists of elements: both return, and
    the results are related by [rel]; or both return the same error; or
    both panic in the same way. *)
Definition refines {A B} (rel : A -> Slices.Heap -> B -> Mem -> Prop)
    (x : outcome (A * Slices.Heap)) (y : outcome (B * Mem)) : Prop :=
  match x, y with
  | Ok (a, h), Ok (b, m) => rel a h b m
  | Err e, Err e' => e = e'
  | Panic p, Panic p' => p = p'
  | _, _ => False
  end.

(** What relates the slice [out] a run started in [h] on [artifacts]
    returns in [h'] to the list [outl] and the store [m'] the run on the
    elements returns: the records are those of [m'], the elements of [out]
    are [outl], [out] lies within an array of [h'], the arrays of [h] are
    still there, unchanged, and [out] is the slice [artifacts] itself or is
    on none of them. *)
Definition sameRun (h : Slices.Heap) (artifacts : Slices.slice)
    (out : Slices.slice) (h' : Slices.Heap) (outl : list ptr) (m' : Mem) : Prop :=
  Slices.records h' = m' /\
  Slices.elems h' out = outl /\
  Slices.valid h' out /\
  (exists ext, Slices.arrays h' = Slices.arrays h ++ ext) /\
  (out = artifacts \/ fresh (length (Slices.arrays h)) out).

(* ================================================================== *)
(** ** Lemmas on the run-time notions *)
(* ================================================================== *)

Ltac munfold := unfold bind, ret, try, throw, deref, new, index in *.

Lemma forRange_ext {A S} (xs : list A) (f g : A -> S -> M S) s m :
  (forall x s m, f x s m = g x s m) ->
  forRange xs f s m = forRange xs g s m.
Proof.
  intros Hfg. revert s m.
  induction xs as [|x xs IH]; intros s m; simpl; [reflexivity|].
  unfold bind. rewrite Hfg. destruct (g x s m) as [[s' m']| |]; auto.
Qed.

Lemma forRange_cons {A S} (x : A) (xs : list A) (f : A -> S -> M S) s m :
  forRange (x :: xs) f s m =
  match f x s m with
  | Ok (s', m') => forRange xs f s' m'
  | Err e => Err e
  | Panic p => Panic p
  end.
Proof. reflexivity. Qed.

Lemma forRange_app {A S} (xs ys : list A) (f : A -> S -> M S) s m :
  forRange (xs ++ ys) f s m = bind (forRange xs f s) (forRange ys f) m.
Proof.
  revert s m. induction xs as [|x xs IH]; intros s m; simpl.
  - reflexivity.
  - unfold bind in *. destruct (f x s m) as [[s' m']| |]; simpl; auto.
Qed.

Lemma keeps_Matches b : keeps Matches b = b.
Proof. reflexivity. Qed.

Lemma keeps_Excludes b : keeps Excludes b = negb b.
Proof. reflexivity. Qed.

Lemma keeps_cover b : keeps Matches b || keeps Excludes b = true.
Proof. destruct b; reflexivity. Qed.

(* ================================================================== *)
(** ** The tag loop *)
(* ================================================================== *)

Section TagLoop.

Context {L : Library}.

Lemma tagFilter_glob_unfold pattern decoration artifacts :
  artifactTagFilter_Filter pattern decoration artifacts =
  if String.length pattern =? 0 then ret artifacts
  else forRange artifacts (tagBody (util_Match pattern) decoration) [].
Proof. reflexivity. Qed.

Lemma tagFilter_regex_unfold pattern decoration artifacts m :
  artifactTagFilterRegex_Filter pattern decoration artifacts m =
  if String.length pattern =? 0 then Ok (artifacts, m)
  else match regexp_Compile pattern with
       | inl e => Err e
       | inr re =>
           forRange artifacts
             (tagBody (fun s => inr (MatchString re s)) decoration) [] m
       end.
Proof.
  unfold artifactTagFilterRegex_Filter.
  destruct (String.length pattern =? 0); [reflexivity|].
  unfold bind at 1, try at 1.
  destruct (regexp_Compile pattern) as [e|re]; reflexivity.
Qed.

(** The inner loop keeps, in order, the tags the decoration keeps. *)
Lemma narrowBody_eq (mt : string -> error + bool) decoration tag tags m :
  narrowBody mt decoration tag tags m =
  match mt tag with
  | inl e => Err e
  | inr b => Ok (if keeps decoration b then tags ++ [tag] else tags, m)
  end.
Proof.
  unfold narrowBody, keeps. munfold.
  destruct (mt tag) as [e|b]; [reflexivity|].
  destruct (String.eqb decoration Excludes), b; reflexivity.
Qed.

Lemma narrow_sound (mt : string -> error + bool) decoration tags acc m out m' :
  forRange tags (narrowBody mt decoration) acc m = Ok (out, m') ->
  m' = m /\
  out = acc ++ List.filter (fun t => keeps decoration (boolOf mt t)) tags.
Proof.
  revert acc. induction tags as [|t tags IH]; intros acc.
  - simpl. munfold. intros [= <- <-]. by rewrite app_nil_r.
  - rewrite forRange_cons, narrowBody_eq. simpl. unfold boolOf at 1.
    destruct (mt t) as [e|b]; [discriminate|].
    intros H. apply IH in H as [-> ->]. split; [reflexivity|].
    destruct (keeps decoration b); [|reflexivity].
    by rewrite <- app_assoc.
Qed.

Lemma narrow_complete (mt : string -> error + bool) mb decoration tags acc m :
  (forall s, mt s = inr (mb s)) ->
  forRange tags (narrowBody mt decoration) acc m
  = Ok (acc ++ List.filter (fun t => keeps decoration (mb t)) tags, m).
Proof.
  intros Hmt. revert acc. induction tags as [|t tags IH]; intros acc.
  - simpl. munfold. by rewrite app_nil_r.
  - rewrite forRange_cons, narrowBody_eq, Hmt, IH. simpl.
    destruct (keeps decoration (mb t)); [|reflexivity].
    by rewrite <- app_assoc.
Qed.

Lemma decorate_if {A} decoration (b : bool) (x y : A) :
  (if String.eqb decoration Excludes
   then if negb b then x else y
   else if b then x else y) = if keeps decoration b then x else y.
Proof. unfold keeps. destruct (String.eqb decoration Excludes), b; reflexivity. Qed.

Lemma tagBody_sound (mt : string -> error + bool) decoration p result m out m' :
  tagBody mt decoration p result m = Ok (out, m') ->
  exists a, load m p = Some a /\
    out = result ++ (tagEmit (boolOf mt) decoration p a m).1 /\
    m' = (tagEmit (boolOf mt) decoration p a m).2.
Proof.
  unfold tagBody, tagEmit, tagsForMatching.
  unfold bind at 1, deref at 1.
  destruct (load m p) as [a|]; [|discriminate].
  intros H. exists a. split; [reflexivity|]. revert H.
  rewrite !app_nil_l.
  destruct (if Artifact.IsAcc a then Artifact.ParentTags a else Artifact.Tags a)
    as [|t src] eqn:Esrc.
  - simpl. unfold bind, try, boolOf. destruct (mt "") as [e|b]; [discriminate|].
    rewrite decorate_if. destruct (keeps decoration b); unfold ret;
      intros [= <- <-]; simpl; by rewrite ?app_nil_r.
  - change (length (t :: src) =? 0) with false. cbv iota.
    unfold bind at 1.
    destruct (forRange (t :: src) (narrowBody mt decoration) [] m)
      as [[tags m1]| |] eqn:E; try discriminate.
    apply narrow_sound in E as [-> ->]. rewrite app_nil_l.
    destruct (List.filter _ (t :: src)) as [|t' tags'].
    + simpl. unfold ret. intros [= <- <-]. by rewrite app_nil_r.
    + change (length (t' :: tags') =? 0) with false. cbv iota.
      destruct (Artifact.IsAcc a); unfold bind, new, ret; intros [= <- <-]; done.
Qed.

Lemma tagBody_complete (mt : string -> error + bool) mb decoration p a result m :
  (forall s, mt s = inr (mb s)) ->
  load m p = Some a ->
  tagBody mt decoration p result m =
  Ok (result ++ (tagEmit mb decoration p a m).1, (tagEmit mb decoration p a m).2).
Proof.
  intros Hmt Hp.
  unfold tagBody, tagEmit, tagsForMatching.
  unfold bind at 1, deref at 1. rewrite Hp.
  rewrite !app_nil_l.
  destruct (if Artifact.IsAcc a then Artifact.ParentTags a else Artifact.Tags a)
    as [|t src] eqn:Esrc.
  - simpl. unfold bind, try. rewrite Hmt, decorate_if.
    destruct (keeps decoration (mb "")); unfold ret; simpl; by rewrite ?app_nil_r.
  - change (length (t :: src) =? 0) with false. cbv iota.
    unfold bind at 1. rewrite (narrow_complete mt mb) by done. rewrite app_nil_l.
    destruct (List.filter _ (t :: src)) as [|t' tags'].
    + simpl. unfold ret. by rewrite app_nil_r.
    + change (length (t' :: tags') =? 0) with false. cbv iota.
      destruct (Artifact.IsAcc a); unfold bind, new, ret; done.
Qed.

Lemma tagLoop_sound (mt : string -> error + bool) decoration artifacts result m out m' :
  forRange artifacts (tagBody mt decoration) result m = Ok (out, m') ->
  exists es, tagRun (boolOf mt) decoration artifacts m = Some (es, m') /\
             out = result ++ es.
Proof.
  revert result m. induction artifacts as [|p rest IH]; intros result m.
  - simpl. unfold ret. intros [= <- <-]. exists []. by rewrite app_nil_r.
  - rewrite forRange_cons.
    destruct (tagBody mt decoration p result m) as [[r1 m1]| |] eqn:E;
      try discriminate.
    apply tagBody_sound in E as (a & Hp & -> & ->).
    intros H. apply IH in H as (es & Hrun & ->).
    simpl. rewrite Hp.
    destruct (tagEmit (boolOf mt) decoration p a m) as [e m1]. simpl in *.
    rewrite Hrun. eexists. split; [reflexivity|]. by rewrite app_assoc.
Qed.

Lemma tagLoop_complete (mt : string -> error + bool) mb decoration artifacts
    result m es m' :
  (forall s, mt s = inr (mb s)) ->
  tagRun mb decoration artifacts m = Some (es, m') ->
  forRange artifacts (tagBody mt decoration) result m = Ok (result ++ es, m').
Proof.
  intros Hmt. revert result m es.
  induction artifacts as [|p rest IH]; intros result m es.
  - simpl. unfold ret. intros [= <- <-]. by rewrite app_nil_r.
  - simpl tagRun. destruct (load m p) as [a|] eqn:Hp; [|discriminate].
    rewrite forRange_cons, (tagBody_complete mt mb _ _ a) by done.
    destruct (tagEmit mb decoration p a m) as [e m1]. simpl.
    destruct (tagRun mb decoration rest m1) as [[es' m2]|] eqn:Hrun;
      [|discriminate].
    intros [= <- <-]. rewrite (IH _ _ _ Hrun). by rewrite app_assoc.
Qed.

(** A tag rule that returns has computed [tagRun] with the match predicate
    of its pattern. *)
Lemma tagFilter_sound k pattern decoration artifacts m out m' :
  pattern <> "" ->
  Filter (tagFilter k pattern decoration) artifacts m = Ok (out, m') ->
  tagRun (matcherOf k pattern) decoration artifacts m = Some (out, m').
Proof.
  intros Hne. assert ((String.length pattern =? 0) = false) as Hlen.
  { destruct pattern; [done|reflexivity]. }
  destruct k; simpl.
  - rewrite tagFilter_glob_unfold, Hlen. intros H.
    apply tagLoop_sound in H as (es & Hrun & ->). done.
  - rewrite tagFilter_regex_unfold, Hlen.
    destruct (regexp_Compile pattern) as [e|re]; [discriminate|].
    intros H. apply tagLoop_sound in H as (es & Hrun & ->). done.
Qed.

(** With a well-formed pattern a tag rule returns what [tagRun] computes. *)
Lemma tagFilter_complete k pattern mb decoration artifacts m out m' :
  pattern <> "" ->
  usable k pattern mb ->
  tagRun mb decoration artifacts m = Some (out, m') ->
  Filter (tagFilter k pattern decoration) artifacts m = Ok (out, m').
Proof.
  intros Hne Hus Hrun. assert ((String.length pattern =? 0) = false) as Hlen.
  { destruct pattern; [done|reflexivity]. }
  destruct k; simpl in *.
  - rewrite tagFilter_glob_unfold, Hlen.
    by apply (tagLoop_complete _ mb _ _ [] _ out m').
  - rewrite tagFilter_regex_unfold, Hlen.
    destruct Hus as (re & -> & Hre).
    apply (tagLoop_complete _ mb _ _ [] _ out m'); [|done].
    intros s. by rewrite Hre.
Qed.

End TagLoop.

(* ================================================================== *)
(** ** What a run of a tag rule does to the store *)
(* ================================================================== *)

Lemma store_grows (m ext : Mem) q r : load m q = Some r -> load (m ++ ext) q = Some r.
Proof. destruct q as [i|]; [|done]. simpl. apply lookup_app_l_Some. Qed.

Lemma load_new (m : Mem) r : load (m ++ [r]) (Some (length m)) = Some r.
Proof. simpl. by rewrite lookup_app_r, Nat.sub_diag. Qed.

Lemma load_new_None (m : Mem) : load m (Some (length m)) = None.
Proof. simpl. by apply lookup_ge_None. Qed.

Lemma load_app_Some (m ext : Mem) q r :
  load (m ++ ext) q = Some r ->
  load m q = Some r \/
  (load m q = None /\
   exists i, q = Some i /\ length m <= i /\ ext !! (i - length m) = Some r).
Proof.
  destruct q as [i|]; [|done]. simpl.
  intros [H|[Hge H]]%lookup_app_Some; [by left|right].
  split; [by apply lookup_ge_None|]. by exists i.
Qed.

Lemma allocated_app ps qs m : allocated (ps ++ qs) m <-> allocated ps m /\ allocated qs m.
Proof. apply Forall_app. Qed.

Lemma allocated_grows ps (m ext : Mem) : allocated ps m -> allocated ps (m ++ ext).
Proof.
  intros H. eapply Forall_impl; [exact H|]. intros q [r Hq].
  exists r. by apply store_grows.
Qed.

Lemma tagEmit_cases mb decoration p a m e m1 :
  tagEmit mb decoration p a m = (e, m1) ->
  ((e = [] \/ e = [p]) /\ m1 = m) \/
  (exists tags, tags <> [] /\ e = [Some (length m)] /\
     m1 = m ++ [narrowed a (if Artifact.IsAcc a then Artifact.Tags a else tags)]).
Proof.
  unfold tagEmit. destruct (tagsForMatching a) as [|t src].
  - destruct (keeps decoration (mb "")); intros [= <- <-]; left; auto.
  - destruct (List.filter _ (t :: src)) as [|t' tags']; intros [= <- <-].
    + left; auto.
    + right. by exists (t' :: tags').
Qed.

(** The store only grows, by records that are not accessories, have no
    parent tags and rewrite an artifact of the input list; all references
    returned are allocated. *)
Lemma tagRun_store mb decoration artifacts m es m' :
  tagRun mb decoration artifacts m = Some (es, m') ->
  exists ext, m' = m ++ ext /\
    Forall (fun r => exists p a tags,
              p ∈ artifacts /\ load m p = Some a /\ r = narrowed a tags) ext /\
    allocated es m'.
Proof.
  revert m es m'. induction artifacts as [|p rest IH]; intros m es m'; simpl.
  - intros [= <- <-]. exists []. rewrite app_nil_r. by repeat constructor.
  - destruct (load m p) as [a|] eqn:Hp; [|discriminate].
    destruct (tagEmit mb decoration p a m) as [e m1] eqn:He.
    destruct (tagRun mb decoration rest m1) as [[es' m2]|] eqn:Hrun;
      [|discriminate].
    intros [= <- <-]. apply IH in Hrun as (ext & -> & Hext & Hes).
    apply tagEmit_cases in He as [[He ->]|(tags & _ & -> & ->)].
    + exists ext. split; [done|]. split.
      * eapply Forall_impl; [exact Hext|].
        intros r (p' & a' & tags & Hin & Hl & ->).
        exists p', a', tags. split; [by right|done].
      * apply Forall_app. split; [|done].
        destruct He as [->| ->]; repeat constructor.
        exists a. by apply store_grows.
    + eexists (_ :: ext). split; [by rewrite <- app_assoc|]. split.
      * constructor; [exists p, a; eexists; split; [left|done]|].
        eapply Forall_impl; [exact Hext|].
        intros r (p' & a' & tags' & Hin & Hl & ->).
        apply load_app_Some in Hl as [Hl|[Hnone (i & -> & Hge & Hl)]].
        -- exists p', a', tags'. split; [by right|done].
        -- destruct (i - length m) as [|n] eqn:En; simpl in Hl; [|done].
           injection Hl as <-. exists p, a, tags'. split; [left|done].
      * apply Forall_app. split; [|done]. repeat constructor.
        eexists. apply store_grows, load_new.
Qed.

Lemma tagRun_app mb decoration xs ys m :
  tagRun mb decoration (xs ++ ys) m =
  match tagRun mb decoration xs m with
  | Some (e1, m1) =>
      match tagRun mb decoration ys m1 with
      | Some (e2, m2) => Some (e1 ++ e2, m2)
      | None => None
      end
  | None => None
  end.
Proof.
  revert m. induction xs as [|p xs IH]; intros m; simpl.
  - by destruct (tagRun mb decoration ys m) as [[e2 m2]|].
  - destruct (load m p) as [a|]; [|done].
    destruct (tagEmit mb decoration p a m) as [e m1]. rewrite IH.
    destruct (tagRun mb decoration xs m1) as [[e1 m2]|]; [|done].
    destruct (tagRun mb decoration ys m2) as [[e2 m3]|]; [|done].
    by rewrite app_assoc.
Qed.

Lemma tagRun_total mb decoration artifacts m :
  allocated artifacts m -> is_Some (tagRun mb decoration artifacts m).
Proof.
  revert m. induction artifacts as [|p rest IH]; intros m Hall; simpl; [done|].
  apply Forall_cons in Hall as [[a Hp] Hrest]. rewrite Hp.
  destruct (tagEmit mb decoration p a m) as [e m1] eqn:He.
  destruct (IH m1) as [[es m2] ->]; [|done].
  apply tagEmit_cases in He as [[_ ->]|(tags & _ & _ & ->)]; [done|].
  by apply allocated_grows.
Qed.

(** The run of a tag rule, seen from one position of the input list. *)
Lemma tagRun_at mb decoration pre p post m a :
  allocated (pre ++ p :: post) m ->
  load m p = Some a ->
  exists o1 m1 e m2 o2 m',
    tagRun mb decoration pre m = Some (o1, m1) /\
    tagEmit mb decoration p a m1 = (e, m2) /\
    tagRun mb decoration (pre ++ p :: post) m = Some (o1 ++ e ++ o2, m') /\
    load m1 (Some (length m1)) = None /\
    (forall q, load m1 q = None -> load m q = None) /\
    (forall q r, load m q = Some r -> load m1 q = Some r) /\
    (forall q r, load m2 q = Some r -> load m' q = Some r).
Proof.
  intros Hall Hp.
  apply allocated_app in Hall as [Hpre Hpost].
  destruct (tagRun_total mb decoration pre m Hpre) as [[o1 m1] Hrun1].
  destruct (tagRun_store _ _ _ _ _ _ Hrun1) as (ext1 & -> & _ & _).
  destruct (tagEmit mb decoration p a (m ++ ext1)) as [e m2] eqn:He.
  assert (exists ext2, m2 = m ++ ext2) as [ext2 ->].
  { apply tagEmit_cases in He as [[_ ->]|(tags & _ & _ & ->)]; [by eexists|].
    rewrite <- app_assoc. by eexists. }
  apply Forall_cons in Hpost as [_ Hpost].
  destruct (tagRun_total mb decoration post (m ++ ext2)) as [[o2 m'] Hrun2].
  { by apply allocated_grows. }
  destruct (tagRun_store _ _ _ _ _ _ Hrun2) as (ext3 & -> & _ & _).
  exists o1, (m ++ ext1), e, (m ++ ext2), o2, ((m ++ ext2) ++ ext3).
  split; [done|]. split; [done|]. split.
  - rewrite tagRun_app, Hrun1. simpl.
    rewrite (store_grows m ext1 p a Hp), He, Hrun2. done.
  - split; [apply load_new_None|]. split; [|split].
    + intros q Hq. destruct (load m q) as [r|] eqn:Hl; [|done].
      by rewrite (store_grows m ext1 q r Hl) in Hq.
    + intros q r. apply store_grows.
    + intros q r. apply store_grows.
Qed.

(** Every record the run allocates is referenced by the output. *)
Lemma tagRun_fresh_emitted mb decoration artifacts m es m' q :
  tagRun mb decoration artifacts m = Some (es, m') ->
  load m q = None ->
  is_Some (load m' q) ->
  q ∈ es.
Proof.
  revert m es m'. induction artifacts as [|p rest IH]; intros m es m'; simpl.
  - intros [= <- <-] Hq [r Hr]. congruence.
  - destruct (load m p) as [a|] eqn:Hp; [|discriminate].
    destruct (tagEmit mb decoration p a m) as [e m1] eqn:He.
    destruct (tagRun mb decoration rest m1) as [[es' m2]|] eqn:Hrun;
      [|discriminate].
    intros [= <- <-] Hq Hr. apply elem_of_app.
    apply tagEmit_cases in He as [[_ ->]|(tags & _ & -> & ->)].
    + right. by eapply IH.
    + destruct (decide (q = Some (length m))) as [->|Hne]; [left; by left|].
      right. eapply IH; [done| |done].
      destruct q as [i|]; [|done]. simpl in *.
      apply lookup_ge_None in Hq. apply lookup_ge_None.
      rewrite length_app. simpl.
      assert (i <> length m) by congruence. lia.
Qed.

Lemma existsb_filter {A} (f : A -> bool) (l : list A) :
  existsb f l = true -> List.filter f l <> [].
Proof.
  induction l as [|x l IH]; simpl; [done|].
  destruct (f x); [done|]. simpl. exact IH.
Qed.

Section TagRules.

Context {L : Library}.

Lemma tagFilter_at k pattern mb decoration pre p post m a :
  pattern <> "" ->
  usable k pattern mb ->
  allocated (pre ++ p :: post) m ->
  load m p = Some a ->
  exists o1 m1 e m2 o2 m',
    Filter (tagFilter k pattern decoration) pre m = Ok (o1, m1) /\
    tagEmit mb decoration p a m1 = (e, m2) /\
    Filter (tagFilter k pattern decoration) (pre ++ p :: post) m
      = Ok (o1 ++ e ++ o2, m') /\
    load m1 (Some (length m1)) = None /\
    (forall q, load m1 q = None -> load m q = None) /\
    (forall q r, load m q = Some r -> load m1 q = Some r) /\
    (forall q r, load m2 q = Some r -> load m' q = Some r).
Proof.
  intros Hne Hus Hall Hp.
  destruct (tagRun_at mb decoration pre p post m a Hall Hp)
    as (o1 & m1 & e & m2 & o2 & m' & H1 & He & H & Hnew & Hold & Hm1 & Hm').
  exists o1, m1, e, m2, o2, m'.
  split; [by eapply tagFilter_complete|].
  split; [done|].
  split; [by eapply tagFilter_complete|].
  done.
Qed.

Lemma tagFilter_empty k decoration artifacts m :
  Filter (tagFilter k "" decoration) artifacts m = Ok (artifacts, m).
Proof. by destruct k. Qed.

End TagRules.

(* ================================================================== *)
(** ** The label loops *)
(* ================================================================== *)

Lemma forRangeBrk_cons {A S} (x : A) (xs : list A) (f : A -> S -> M (flow S)) s m :
  forRangeBrk (x :: xs) f s m =
  match f x s m with
  | Ok (Next s', m') => forRangeBrk xs f s' m'
  | Ok (Break s', m') => Ok (Break s', m')
  | Err e => Err e
  | Panic p => Panic p
  end.
Proof.
  simpl. unfold bind. destruct (f x s m) as [[[s'|s'] m']| |]; reflexivity.
Qed.

Lemma forRangeBrk_ext_at {A S} (xs : list A) (f g : A -> S -> M (flow S)) s m :
  (forall x s r m', f x s m = Ok (r, m') -> m' = m) ->
  (forall x s, f x s m = g x s m) ->
  forRangeBrk xs f s m = forRangeBrk xs g s m.
Proof.
  intros Hro Hfg. revert s.
  induction xs as [|x xs IH]; intros s; [reflexivity|].
  rewrite !forRangeBrk_cons, <- Hfg.
  destruct (f x s m) as [[[s'|s'] m']| |] eqn:E; try done.
  apply Hro in E as ->. apply IH.
Qed.

Lemma forRangeBrk_readonly {A S} (xs : list A) (f : A -> S -> M (flow S)) s m r m' :
  (forall x s m r m', f x s m = Ok (r, m') -> m' = m) ->
  forRangeBrk xs f s m = Ok (r, m') -> m' = m.
Proof.
  intros Hf. revert s m.
  induction xs as [|x xs IH]; intros s m.
  - simpl. unfold ret. by intros [= <- <-].
  - rewrite forRangeBrk_cons.
    destruct (f x s m) as [[[s'|s'] m1]| |] eqn:E; try discriminate.
    + apply Hf in E as ->. apply IH.
    + apply Hf in E as ->. by intros [= <- <-].
Qed.

Lemma forallb_pointwise {A} (f g : A -> bool) (l : list A) :
  (forall x, f x = g x) -> forallb f l = forallb g l.
Proof. intros H. induction l as [|x l IH]; simpl; [done|]. by rewrite H, IH. Qed.

Lemma decorated_eq (analysis : ptr -> M bool) decoration p result m :
  decorated analysis decoration p result m =
  match analysis p m with
  | Ok (b, m1) => Ok (if keeps decoration b then result ++ [p] else result, m1)
  | Err e => Err e
  | Panic x => Panic x
  end.
Proof.
  unfold decorated, bind. destruct (analysis p m) as [[b m1]| |]; [|done..].
  rewrite decorate_if. by destruct (keeps decoration b).
Qed.

(** A decorated loop over a match computation that only reads the store
    keeps, in order, the references the decoration keeps. *)
Lemma decorated_sound (analysis : ptr -> M bool) decoration artifacts result m out m' :
  (forall p b m1, analysis p m = Ok (b, m1) -> m1 = m) ->
  forRange artifacts (decorated analysis decoration) result m = Ok (out, m') ->
  m' = m /\
  Forall (fun p => exists b, analysis p m = Ok (b, m)) artifacts /\
  out = result ++
        List.filter (fun p => match analysis p m with
                              | Ok (b, _) => keeps decoration b
                              | _ => false
                              end) artifacts.
Proof.
  intros Hro. revert result.
  induction artifacts as [|p rest IH]; intros result.
  - simpl. unfold ret. intros [= <- <-]. by rewrite app_nil_r.
  - rewrite forRange_cons, decorated_eq. simpl.
    destruct (analysis p m) as [[b m1]| |] eqn:E; try discriminate.
    apply Hro in E as Hm. subst m1.
    intros H. apply IH in H as (-> & Hall & ->).
    split; [done|]. split; [constructor; [by exists b|done]|].
    destruct (keeps decoration b); [|done]. by rewrite <- app_assoc.
Qed.

(** Under the two decorations such a loop splits the references of its
    input. *)
Lemma decorated_partition (analysis : ptr -> M bool) artifacts m oM mM oE mE :
  (forall p b m1, analysis p m = Ok (b, m1) -> m1 = m) ->
  forRange artifacts (decorated analysis Matches) [] m = Ok (oM, mM) ->
  forRange artifacts (decorated analysis Excludes) [] m = Ok (oE, mE) ->
  mM = m /\ mE = m /\
  (forall p, p ∈ oM <-> p ∈ artifacts /\ analysis p m = Ok (true, m)) /\
  (forall p, p ∈ oE <-> p ∈ artifacts /\ analysis p m = Ok (false, m)) /\
  (forall p, p ∈ artifacts -> exists b, analysis p m = Ok (b, m)).
Proof.
  intros Hro HM HE.
  apply decorated_sound in HM as (-> & Hall & ->); [|done].
  apply decorated_sound in HE as (-> & _ & ->); [|done].
  split; [done|]. split; [done|]. simpl.
  split; [|split].
  - intros p. rewrite list_elem_of_In, filter_In, <- list_elem_of_In.
    split; intros [Hin H]; (split; [done|]).
    + destruct (analysis p m) as [[b m1]| |] eqn:E; try done.
      apply Hro in E as Hm. subst m1. rewrite keeps_Matches in H. by subst b.
    + by rewrite H.
  - intros p. rewrite list_elem_of_In, filter_In, <- list_elem_of_In.
    split; intros [Hin H]; (split; [done|]).
    + destruct (analysis p m) as [[b m1]| |] eqn:E; try done.
      apply Hro in E as Hm. subst m1. rewrite keeps_Excludes in H.
      by destruct b.
    + by rewrite H.
  - intros p Hp. by apply (proj1 (Forall_forall _ _) Hall).
Qed.

Section LabelLoops.

Context {L : Library}.

Lemma labelFilter_unfold labels decoration artifacts m :
  artifactLabelFilter_Filter labels decoration artifacts m =
  if length labels =? 0 then Ok (artifacts, m)
  else forRange artifacts (decorated (labelAnalysis labels) decoration) [] m.
Proof.
  unfold artifactLabelFilter_Filter.
  destruct (length labels =? 0); [reflexivity|].
  apply forRange_ext. intros p result m1.
  unfold decorated, labelAnalysis, bind.
  destruct (deref p m1) as [[a m2]| |]; [|done..].
  destruct (forRange _ _ _ m2) as [[ls m3]| |]; [|done..].
  destruct (forRangeBrk _ _ _ m3) as [[f m4]| |]; [|done..].
  reflexivity.
Qed.

Lemma labelRegexFilter_unfold labels decoration artifacts m :
  artifactLabelFilterRegex_Filter labels decoration artifacts m =
  if length labels =? 0 then Ok (artifacts, m)
  else forRange artifacts
         (decorated (labelRegexAnalysis labels artifacts) decoration) [] m.
Proof.
  unfold artifactLabelFilterRegex_Filter.
  destruct (length labels =? 0); [reflexivity|].
  apply forRange_ext. intros p result m1.
  unfold decorated, labelRegexAnalysis, bind.
  destruct (forRangeBrk _ _ _ m1) as [[f m2]| |]; [|done..].
  reflexivity.
Qed.

(** The set built from the labels of an artifact has exactly those labels. *)
Lemma labelset_loop (labels : list string) (acc : gset string) m :
  forRange labels (fun label (labelset : gset string) => ret ({[label]} ∪ labelset))
    acc m
  = Ok (list_to_set labels ∪ acc, m).
Proof.
  revert acc. induction labels as [|l labels IH]; intros acc.
  - simpl. unfold ret. by rewrite (left_id_L ∅ (∪)).
  - rewrite forRange_cons. unfold ret at 1. rewrite IH, list_to_set_cons.
    do 2 f_equal. apply set_eq. intros x. rewrite !elem_of_union. tauto.
Qed.

(** The loop over the wanted labels stops with [false] at the first one
    that is missing. *)
Lemma wanted_loop (wanted : list string) (labelset : gset string) m :
  exists f,
    forRangeBrk wanted (fun label match_ =>
      if bool_decide (label ∈ labelset)
      then ret (Next match_)
      else ret (Break false)) true m = Ok (f, m) /\
    flowState f = forallb (fun label => bool_decide (label ∈ labelset)) wanted.
Proof.
  induction wanted as [|l wanted IH].
  - by exists (Next true).
  - rewrite forRangeBrk_cons. simpl.
    destruct (bool_decide (l ∈ labelset)); simpl.
    + exact IH.
    + by exists (Break false).
Qed.

Lemma labelAnalysis_eq labels p m :
  labelAnalysis labels p m =
  match load m p with
  | Some a => Ok (hasLabels labels a, m)
  | None => Panic NilDereference
  end.
Proof.
  unfold labelAnalysis, bind, deref.
  destruct (load m p) as [a|]; [|done].
  rewrite labelset_loop.
  destruct (wanted_loop labels (list_to_set (Artifact.Labels a) ∪ ∅) m)
    as (f & -> & Hf).
  unfold ret. rewrite Hf. unfold hasLabels. do 2 f_equal.
  apply forallb_pointwise. intros l. apply bool_decide_ext.
  by rewrite (right_id_L ∅ (∪)), elem_of_list_to_set.
Qed.

Lemma regexLabels_readonly (re : Regexp) (artifacts : list ptr) il s m r m' :
  (let exists_ := MatchString re il.2 in
   do other <- index artifacts il.1;
   do _ <- deref other;
   if negb exists_ then ret (Break false) else ret (Next s)) m = Ok (r, m') ->
  m' = m.
Proof.
  unfold bind, index, deref.
  destruct (artifacts !! il.1) as [other|]; [|discriminate].
  unfold ret at 1. destruct (load m other); [|discriminate].
  by destruct (negb _); intros [= _ <-].
Qed.

Lemma regexPatterns_readonly (artifacts : list ptr) p label s m r m' :
  (do filterRegexPattern <- try (regexp_Compile label);
   do a <- deref p;
   forRangeBrk (indexed (Artifact.Labels a)) (fun il match_ =>
     let exists_ := MatchString filterRegexPattern il.2 in
     do other <- index artifacts il.1;
     do _ <- deref other;
     if negb exists_ then ret (Break false) else ret (Next match_)) s) m
  = Ok (r, m') ->
  m' = m.
Proof.
  unfold bind at 1, try.
  destruct (regexp_Compile label) as [e|re]; [discriminate|].
  unfold bind at 1, deref.
  destruct (load m p) as [a|]; [|discriminate].
  apply forRangeBrk_readonly.
  intros il s1 m1 r1 m1'. apply regexLabels_readonly.
Qed.

Lemma labelRegexAnalysis_readonly labels artifacts p m b m1 :
  labelRegexAnalysis labels artifacts p m = Ok (b, m1) -> m1 = m.
Proof.
  unfold labelRegexAnalysis. unfold bind at 1.
  destruct (forRangeBrk _ _ _ m) as [[f m2]| |] eqn:E; try discriminate.
  unfold ret. intros [= _ <-].
  apply forRangeBrk_readonly in E; [done|].
  intros label s m1 r m1'. apply regexPatterns_readonly.
Qed.

(** Whether a label rule keeps an artifact depends on its labels only. *)
Lemma labelRegexAnalysis_labels labels artifacts p p' m a a' :
  load m p = Some a ->
  load m p' = Some a' ->
  Artifact.Labels a = Artifact.Labels a' ->
  labelRegexAnalysis labels artifacts p m = labelRegexAnalysis labels artifacts p' m.
Proof.
  intros Hp Hp' Hl. unfold labelRegexAnalysis. unfold bind at 1 3.
  erewrite forRangeBrk_ext_at; [reflexivity| |].
  - intros label s r m'. apply regexPatterns_readonly.
  - intros label s. unfold bind, try, deref.
    destruct (regexp_Compile label) as [e|re]; [done|].
    by rewrite Hp, Hp', Hl.
Qed.

Lemma labelAnalysis_labels labels p p' m a a' :
  load m p = Some a ->
  load m p' = Some a' ->
  Artifact.Labels a = Artifact.Labels a' ->
  labelAnalysis labels p m = labelAnalysis labels p' m.
Proof.
  intros Hp Hp' Hl. rewrite !labelAnalysis_eq, Hp, Hp'.
  unfold hasLabels. by rewrite Hl.
Qed.

Lemma labelAnalysis_readonly labels p m b m1 :
  labelAnalysis labels p m = Ok (b, m1) -> m1 = m.
Proof.
  rewrite labelAnalysis_eq. destruct (load m p); [|done]. by intros [= _ <-].
Qed.

End LabelLoops.

(* ================================================================== *)
(** ** The pipeline and the builder *)
(* ================================================================== *)

Section Pipeline.

Context {L : Library}.

Lemma pipeline_app (fs1 fs2 : ArtifactFilters) artifacts m :
  ArtifactFilters_Filter (fs1 ++ fs2) artifacts m =
  match ArtifactFilters_Filter fs1 artifacts m with
  | Ok (artifacts1, m1) => ArtifactFilters_Filter fs2 artifacts1 m1
  | Err e => Err e
  | Panic p => Panic p
  end.
Proof. unfold ArtifactFilters_Filter. by rewrite forRange_app. Qed.

Lemma pipeline_cons (f : ArtifactFilter) (fs : ArtifactFilters) artifacts m :
  ArtifactFilters_Filter (f :: fs) artifacts m =
  match Filter f artifacts m with
  | Ok (artifacts1, m1) => ArtifactFilters_Filter fs artifacts1 m1
  | Err e => Err e
  | Panic p => Panic p
  end.
Proof. reflexivity. Qed.

Lemma build_unfold (filters : list (option Filter.t)) :
  BuildArtifactFilters filters = forRange filters buildBody [].
Proof. reflexivity. Qed.

Lemma buildBody_eq (filter : option Filter.t) acc m :
  buildBody filter acc m =
  match filter with
  | None => Panic NilDereference
  | Some r =>
      if wellTyped r
      then Ok (acc ++ option_list (strategyOf r), m)
      else Panic InterfaceConversion
  end.
Proof.
  destruct filter as [[[] [] d]|]; try reflexivity; simpl; by rewrite app_nil_r.
Qed.

Lemma strategyOf_builds (r : Filter.t) :
  wellTyped r = true ->
  Forall2 builds (if recognised r then [r] else []) (option_list (strategyOf r)).
Proof. destruct r as [[] [] d]; try done; repeat constructor. Qed.

Lemma strategies_build (rules : list Filter.t) :
  forallb wellTyped rules = true ->
  Forall2 builds (List.filter recognised rules)
    (flat_map (fun r => option_list (strategyOf r)) rules).
Proof.
  induction rules as [|r rules IH]; simpl; [constructor|].
  intros [Hr Hrules]%andb_true_iff. specialize (IH Hrules).
  apply strategyOf_builds in Hr.
  destruct (recognised r); exact (Forall2_app Hr IH).
Qed.

(** No rule reference has a fault exactly when none is nil and every rule
    is well typed. *)
Lemma firstFault_None (filters : list (option Filter.t)) :
  firstFault filters = None <->
  Forall (fun filter => exists r, filter = Some r /\ wellTyped r = true) filters.
Proof.
  unfold firstFault. induction filters as [|[r|] filters IH]; simpl.
  - split; [constructor|done].
  - destruct (wellTyped r) eqn:Hr; simpl.
    + rewrite IH. split.
      * intros H. constructor; [by exists r|done].
      * by intros [_ H]%Forall_cons.
    + split; [done|]. intros [(r' & [= <-] & Hr') _]%Forall_cons. congruence.
  - split; [done|]. by intros [(r' & ? & _) _]%Forall_cons.
Qed.

Lemma firstFault_wellTyped (filters : list (option Filter.t)) :
  firstFault filters = None ->
  forallb wellTyped (rulesOf filters) = true /\ filters = Some <$> rulesOf filters.
Proof.
  intros H%firstFault_None. unfold rulesOf.
  induction H as [|filter filters (r & -> & Hr) _ [IH1 IH2]]; [done|].
  cbn [omap list_omap id]. cbn [forallb fmap list_fmap].
  rewrite Hr. split; [exact IH1|]. by rewrite <- IH2.
Qed.

Lemma firstFault_app (filters1 filters2 : list (option Filter.t)) :
  firstFault (filters1 ++ filters2) =
  match firstFault filters1 with
  | Some p => Some p
  | None => firstFault filters2
  end.
Proof.
  unfold firstFault. rewrite omap_app.
  by destruct (omap fault filters1).
Qed.

Lemma rulesOf_app (filters1 filters2 : list (option Filter.t)) :
  rulesOf (filters1 ++ filters2) = rulesOf filters1 ++ rulesOf filters2.
Proof. apply omap_app. Qed.

Lemma elem_of_rulesOf (filters : list (option Filter.t)) r :
  r ∈ rulesOf filters <-> Some r ∈ filters.
Proof.
  unfold rulesOf. rewrite list_elem_of_omap. split.
  - intros (x & Hx & Hr). unfold id in Hr. by subst x.
  - intros H. by exists (Some r).
Qed.

(** The builder panics at the first rule reference with a fault; without
    one it returns the strategies of the rules, in order, and leaves the
    store alone. *)
Lemma build_loop (filters : list (option Filter.t)) acc m :
  forRange filters buildBody acc m =
  match firstFault filters with
  | Some p => Panic p
  | None =>
      Ok (acc ++ flat_map (fun r => option_list (strategyOf r)) (rulesOf filters), m)
  end.
Proof.
  unfold firstFault, rulesOf. revert acc.
  induction filters as [|filter filters IH]; intros acc.
  - simpl. unfold ret. by rewrite app_nil_r.
  - rewrite forRange_cons, buildBody_eq.
    destruct filter as [r|]; [|done]. simpl.
    destruct (wellTyped r); [|done]. simpl. rewrite IH.
    by rewrite <- app_assoc.
Qed.

Lemma build_spec (filters : list (option Filter.t)) m :
  BuildArtifactFilters filters m =
  match firstFault filters with
  | Some p => Panic p
  | None => Ok (flat_map (fun r => option_list (strategyOf r)) (rulesOf filters), m)
  end.
Proof. rewrite build_unfold. apply build_loop. Qed.

End Pipeline.

(* ================================================================== *)
(** ** The two decorations of one rule *)
(* ================================================================== *)

Lemma elem_of_idents (ps : list ptr) (m : Mem) i :
  i ∈ idents ps m <-> exists p a, p ∈ ps /\ load m p = Some a /\ ident a = i.
Proof.
  unfold idents. rewrite list_elem_of_omap. split.
  - intros (p & Hp & H). destruct (load m p) as [a|] eqn:E; [|done].
    injection H as <-. by exists p, a.
  - intros (p & a & Hp & Hl & <-). exists p. by rewrite Hl.
Qed.

Lemma survives_cover mb a :
  survives mb Matches a || survives mb Excludes a = true.
Proof.
  unfold survives. destruct (tagsForMatching a) as [|t src].
  - apply keeps_cover.
  - simpl. rewrite keeps_Matches, keeps_Excludes.
    destruct (mb t); simpl; [done|]. apply orb_true_r.
Qed.

Lemma tagEmit_idents mb decoration p a m e m1 ext i :
  tagEmit mb decoration p a m = (e, m1) ->
  load m p = Some a ->
  i ∈ idents e (m1 ++ ext) <-> survives mb decoration a = true /\ ident a = i.
Proof.
  unfold tagEmit, survives. intros He Hp. rewrite elem_of_idents.
  destruct (tagsForMatching a) as [|t src].
  - destruct (keeps decoration (mb "")); injection He as <- <-.
    + split.
      * intros (q & a' & ->%list_elem_of_singleton & Hl & <-).
        rewrite (store_grows _ _ _ _ Hp) in Hl. by injection Hl as <-.
      * intros [_ <-]. exists p, a. split; [by left|].
        split; [by apply store_grows|done].
    + split; [|by intros []]. by intros (q & a' & ?%elem_of_nil & _).
  - destruct (List.filter _ (t :: src)) as [|t' tags']; injection He as <- <-.
    + split; [|by intros []]. by intros (q & a' & ?%elem_of_nil & _).
    + split.
      * intros (q & a' & ->%list_elem_of_singleton & Hl & <-).
        rewrite (store_grows _ _ _ _ (load_new m _)) in Hl. by injection Hl as <-.
      * intros [_ <-]. eexists _, _. split; [by left|].
        split; [apply store_grows, load_new|done].
Qed.

Lemma tagRun_idents mb decoration artifacts m es m' i :
  allocated artifacts m ->
  tagRun mb decoration artifacts m = Some (es, m') ->
  i ∈ idents es m' <->
  exists p a, p ∈ artifacts /\ load m p = Some a /\
              survives mb decoration a = true /\ ident a = i.
Proof.
  revert m es m'. induction artifacts as [|p rest IH]; intros m es m' Hall; simpl.
  - intros [= <- <-]. split; [by intros ?%elem_of_nil|].
    by intros (p & a & ?%elem_of_nil & _).
  - apply Forall_cons in Hall as [[a Hp] Hrest]. rewrite Hp.
    destruct (tagEmit mb decoration p a m) as [e m1] eqn:He.
    destruct (tagRun mb decoration rest m1) as [[es' m2]|] eqn:Hrun;
      [|discriminate].
    intros [= <- <-].
    assert (exists ext1, m1 = m ++ ext1) as [ext1 ->].
    { apply tagEmit_cases in He as [[_ ->]|(tags & _ & _ & ->)]; [|by eexists].
      exists []. by rewrite app_nil_r. }
    destruct (tagRun_store _ _ _ _ _ _ Hrun) as (ext & -> & _ & _).
    unfold idents. rewrite omap_app, elem_of_app. fold (idents e ((m ++ ext1) ++ ext)).
    fold (idents es' ((m ++ ext1) ++ ext)).
    rewrite (tagEmit_idents _ _ _ _ _ _ _ ext i He Hp).
    rewrite (IH _ _ _ (allocated_grows _ _ ext1 Hrest) Hrun).
    split.
    + intros [[Hs <-]|(p' & a' & Hin & Hl & Hs & <-)].
      * exists p, a. split; [by left|done].
      * exists p', a'. split; [by right|]. split; [|done].
        apply (proj1 (Forall_forall _ _) Hrest) in Hin as [a'' Ha''].
        rewrite (store_grows _ _ _ _ Ha'') in Hl. congruence.
    + intros (p' & a' & Hin & Hl & Hs & <-).
      apply elem_of_cons in Hin as [->|Hin].
      * left. rewrite Hp in Hl. by injection Hl as <-.
      * right. exists p', a'. split; [done|]. split; [|done].
        by apply store_grows.
Qed.

Lemma filter_nonempty_existsb {A} (f : A -> bool) (l : list A) :
  match List.filter f l with [] => false | _ => true end = existsb f l.
Proof.
  induction l as [|x l IH]; simpl; [done|]. by destruct (f x).
Qed.

(** An artifact gets through under exactly one decoration, or under both
    when its tags are mixed. *)
Lemma survives_count mb a :
  Nat.b2n (survives mb Matches a) + Nat.b2n (survives mb Excludes a)
  = 1 + Nat.b2n (mixed mb a).
Proof.
  unfold survives, mixed. destruct (tagsForMatching a) as [|t src] eqn:E.
  - rewrite keeps_Matches, keeps_Excludes. by destruct (mb "").
  - rewrite !filter_nonempty_existsb.
    change (existsb (fun t0 => keeps Matches (mb t0)) (t :: src))
      with (existsb mb (t :: src)).
    change (existsb (fun t0 => keeps Excludes (mb t0)) (t :: src))
      with (existsb (fun t0 => negb (mb t0)) (t :: src)).
    simpl. destruct (mb t); simpl.
    + by destruct (existsb (fun t0 => negb (mb t0)) src).
    + destruct (existsb mb src); simpl; lia.
Qed.

Lemma filter_count_sum {A} (f g h : A -> bool) (l : list A) :
  (forall x, In x l -> Nat.b2n (f x) + Nat.b2n (g x) = 1 + Nat.b2n (h x)) ->
  length (List.filter f l) + length (List.filter g l)
  = length l + length (List.filter h l).
Proof.
  induction l as [|x l IH]; intros H; simpl; [done|].
  specialize (IH (fun y Hy => H y (or_intror Hy))).
  specialize (H x (or_introl eq_refl)).
  destruct (f x), (g x), (h x); simpl in *; lia.
Qed.

Lemma tagRun_length mb decoration artifacts m es m' :
  allocated artifacts m ->
  tagRun mb decoration artifacts m = Some (es, m') ->
  length es =
  length (List.filter (fun p => match load m p with
                                | Some a => survives mb decoration a
                                | None => false
                                end) artifacts).
Proof.
  revert m es m'. induction artifacts as [|p rest IH]; intros m es m' Hall; simpl.
  - by intros [= <- <-].
  - apply Forall_cons in Hall as [[a Hp] Hrest]. rewrite Hp.
    destruct (tagEmit mb decoration p a m) as [e m1] eqn:He.
    destruct (tagRun mb decoration rest m1) as [[es' m2]|] eqn:Hrun;
      [|discriminate].
    intros [= <- <-].
    assert (exists ext1, m1 = m ++ ext1) as [ext1 ->].
    { apply tagEmit_cases in He as [[_ ->]|(tags & _ & _ & ->)]; [|by eexists].
      exists []. by rewrite app_nil_r. }
    rewrite length_app, (IH _ _ _ (allocated_grows _ _ ext1 Hrest) Hrun).
    assert (length e = Nat.b2n (survives mb decoration a)) as ->.
    { unfold tagEmit, survives in *. destruct (tagsForMatching a) as [|t src].
      - destruct (keeps decoration (mb "")); by injection He as <- _.
      - destruct (List.filter _ (t :: src)); by injection He as <- _. }
    rewrite (filter_ext_in _ (fun p => match load m p with
                                     | Some a => survives mb decoration a
                                     | None => false
                                     end) rest).
    + by destruct (survives mb decoration a).
    + intros q Hq%list_elem_of_In.
      apply (proj1 (Forall_forall _ _) Hrest) in Hq as [r Hr].
      by rewrite Hr, (store_grows _ _ _ _ Hr).
Qed.

Lemma tagRun_allocated mb decoration artifacts m es m' :
  wellFormed artifacts m ->
  tagRun mb decoration artifacts m = Some (es, m') ->
  allocated artifacts m.
Proof.
  revert m es m'. induction artifacts as [|p rest IH]; intros m es m' Hwf; simpl.
  - constructor.
  - apply Forall_cons in Hwf as [Hp Hrest].
    destruct (load m p) as [a|] eqn:Hl; [|discriminate].
    destruct (tagEmit mb decoration p a m) as [e m1] eqn:He.
    destruct (tagRun mb decoration rest m1) as [[es' m2]|] eqn:Hrun;
      [|discriminate].
    intros _. constructor; [by exists a|].
    assert (exists ext1, m1 = m ++ ext1) as [ext1 ->].
    { apply tagEmit_cases in He as [[_ ->]|(tags & _ & _ & ->)]; [|by eexists].
      exists []. by rewrite app_nil_r. }
    assert (wellFormed rest (m ++ ext1)) as Hwf1.
    { eapply Forall_impl; [exact Hrest|]. intros q [->|[r Hr]]; [by left|].
      right. exists r. by apply store_grows. }
    specialize (IH _ _ _ Hwf1 Hrun).
    apply Forall_forall. intros q Hq.
    apply (proj1 (Forall_forall _ _) Hrest) in Hq as Hq1.
    apply (proj1 (Forall_forall _ _) IH) in Hq as [r Hr].
    destruct Hq1 as [->|Hq1]; [done|done].
Qed.

(** The output of a tag run, artifact by artifact. *)
Lemma tagRun_parts mb decoration artifacts (m ext0 : Mem) es m' :
  allocated artifacts m ->
  tagRun mb decoration artifacts (m ++ ext0) = Some (es, m') ->
  exists c, es = concat c /\
    Forall2 (fun p e =>
      exists a, load m p = Some a /\
        length e = Nat.b2n (survives mb decoration a) /\
        forall q, q ∈ e -> exists r, load m' q = Some r /\ ident r = ident a)
      artifacts c.
Proof.
  revert ext0 es m'.
  induction artifacts as [|p rest IH]; intros ext0 es m' Hall; simpl.
  - intros [= <- <-]. exists []. split; [done|constructor].
  - apply Forall_cons in Hall as [[a Hp] Hrest].
    rewrite (store_grows _ ext0 _ _ Hp).
    destruct (tagEmit mb decoration p a (m ++ ext0)) as [e m1] eqn:He.
    destruct (tagRun mb decoration rest m1) as [[es' m2]|] eqn:Hrun;
      [|discriminate].
    intros [= <- <-].
    assert (exists ext1, m1 = (m ++ ext0) ++ ext1) as [ext1 ->].
    { apply tagEmit_cases in He as [[_ ->]|(tags & _ & _ & ->)]; [|by eexists].
      exists []. by rewrite app_nil_r. }
    destruct (tagRun_store _ _ _ _ _ _ Hrun) as (ext & -> & _ & _).
    rewrite <- (app_assoc m ext0 ext1) in Hrun.
    destruct (IH _ _ _ Hrest Hrun) as (c & -> & Hc).
    rewrite <- (app_assoc m ext0 ext1).
    exists (e :: c). split; [done|]. constructor; [|done].
    exists a. split; [done|]. split.
    + unfold tagEmit, survives in *. destruct (tagsForMatching a) as [|t src].
      * destruct (keeps decoration (mb "")); by injection He as <- _.
      * destruct (List.filter _ (t :: src)); by injection He as <- _.
    + intros q Hq.
      apply tagEmit_cases in He as [[[->| ->] _]|(tags & _ & -> & He)].
      * by apply elem_of_nil in Hq.
      * apply list_elem_of_singleton in Hq as ->. exists a. split; [|done].
        by do 2 apply store_grows.
      * apply list_elem_of_singleton in Hq as ->. eexists. split; [|].
        -- apply store_grows. rewrite (app_assoc m ext0 ext1), He. apply load_new.
        -- reflexivity.
Qed.

Lemma Forall2_Forall3 {A B C} (P : A -> B -> Prop) (Q : A -> C -> Prop) l k k' :
  Forall2 P l k -> Forall2 Q l k' ->
  Forall3 (fun x y z => P x y /\ Q x z) l k k'.
Proof.
  intros H. revert k'. induction H as [|x y l k Hxy _ IH]; intros k' H'.
  - apply Forall2_nil_inv_l in H' as ->. constructor.
  - apply Forall2_cons_inv_l in H' as (z & k2 & Hxz & H' & ->).
    constructor; [done|]. by apply IH.
Qed.

Lemma contributes_intro mb (m mM mE : Mem) p eM eE :
  (exists a, load m p = Some a /\
     length eM = Nat.b2n (survives mb Matches a) /\
     forall q, q ∈ eM -> exists r, load mM q = Some r /\ ident r = ident a) /\
  (exists a, load m p = Some a /\
     length eE = Nat.b2n (survives mb Excludes a) /\
     forall q, q ∈ eE -> exists r, load mE q = Some r /\ ident r = ident a) ->
  contributes mb m mM mE p eM eE.
Proof.
  intros [(a & Ha & HlM & HqM) (a' & Ha' & HlE & HqE)].
  rewrite Ha in Ha'. injection Ha' as <-.
  exists a. do 5 (split; [done|]).
  pose proof (survives_count mb a) as Hc.
  destruct (survives mb Matches a), (survives mb Excludes a), (mixed mb a),
    eM, eE; simpl in *; try lia; (split; [|split]); try tauto; try done;
    try (by left); try (by right); try (by intros []).
Qed.

Section Decorations.

Context {L : Library}.

Lemma pipeline_single (f : ArtifactFilter) artifacts m :
  ArtifactFilters_Filter [f] artifacts m = Filter f artifacts m.
Proof.
  rewrite pipeline_cons. by destruct (Filter f artifacts m) as [[o m1]| |].
Qed.

Lemma DoFilter_single (r : Filter.t) artifacts m :
  DoFilterArtifacts artifacts [Some r] m =
  if wellTyped r
  then match strategyOf r with
       | Some f => Filter f artifacts m
       | None => Ok (artifacts, m)
       end
  else Panic InterfaceConversion.
Proof.
  unfold DoFilterArtifacts, bind.
  rewrite build_unfold, forRange_cons, buildBody_eq.
  destruct (wellTyped r); [|done]. simpl.
  destruct (strategyOf r) as [f|]; simpl; [|done].
  apply pipeline_single.
Qed.

(** What the split of a read-only decorated loop means for the artifacts. *)
Lemma partition_props (analysis : ptr -> M bool) artifacts m oM oE :
  (forall p p' a a', load m p = Some a -> load m p' = Some a' ->
     Artifact.Labels a = Artifact.Labels a' -> analysis p m = analysis p' m) ->
  (forall p, p ∈ oM <-> p ∈ artifacts /\ analysis p m = Ok (true, m)) ->
  (forall p, p ∈ oE <-> p ∈ artifacts /\ analysis p m = Ok (false, m)) ->
  (forall p, p ∈ artifacts -> exists b, analysis p m = Ok (b, m)) ->
  (forall i, i ∈ idents artifacts m <-> i ∈ idents oM m \/ i ∈ idents oE m) /\
  (forall p, p ∈ artifacts <-> p ∈ oM \/ p ∈ oE) /\
  (forall p, ~ (p ∈ oM /\ p ∈ oE)) /\
  (forall i, ~ (i ∈ idents oM m /\ i ∈ idents oE m)).
Proof.
  intros Hlab HM HE Hall.
  assert (forall p, p ∈ artifacts <-> p ∈ oM \/ p ∈ oE) as Hcover.
  { intros p. rewrite HM, HE. split; [|tauto].
    intros Hp. destruct (Hall p Hp) as [[] Hb]; tauto. }
  split; [|split; [done|split]].
  - intros i. rewrite !elem_of_idents. split.
    + intros (p & a & Hp & Hl & Hi). apply Hcover in Hp as [Hp|Hp];
        [left|right]; by exists p, a.
    + intros [(p & a & Hp & Hl & Hi)|(p & a & Hp & Hl & Hi)];
        exists p, a; (split; [apply Hcover; tauto|done]).
  - intros p [[_ H1]%HM [_ H2]%HE]. congruence.
  - intros i. rewrite !elem_of_idents.
    intros [(p & a & [_ H1]%HM & Hl & Hi) (p' & a' & [_ H2]%HE & Hl' & Hi')].
    assert (Artifact.Labels a = Artifact.Labels a') as Hsame.
    { unfold ident in *. congruence. }
    rewrite (Hlab _ _ _ _ Hl Hl' Hsame) in H1. congruence.
Qed.

End Decorations.

(* ================================================================== *)
(** ** Theorems *)
(* ================================================================== *)

(** C9. A Tag or TagRegex rule with an empty pattern and a Label or
    LabelRegex rule with an empty label list return, under either
    decoration, the very slice they were given: the same array, the same
    position in it, the same length and capacity, and not some other slice
    with the same elements. There is no error, and the state is as before:
    no record and no array is allocated or written. The same holds for such
    a rule run through the entry point, and so does its reading on the
    elements alone: the list of references comes back with the store
    unchanged. *)
Theorem empty_rule_is_identity {L : Library} {R : Slices.Runtime}
    (decoration : string) (artifacts : Slices.slice) (h : Slices.Heap)
    (elements : list ptr) (m : Mem) :
  (Slices.Filter (artifactTagFilter "" decoration) artifacts h = Ok (artifacts, h) /\
   Slices.Filter (artifactTagFilterRegex "" decoration) artifacts h = Ok (artifacts, h) /\
   Slices.Filter (artifactLabelFilter [] decoration) artifacts h = Ok (artifacts, h) /\
   Slices.Filter (artifactLabelFilterRegex [] decoration) artifacts h
     = Ok (artifacts, h)) /\
  (Slices.DoFilterArtifacts artifacts
     [Some (Filter.mk FilterTypeTag (AnyString "") decoration)] h = Ok (artifacts, h) /\
   Slices.DoFilterArtifacts artifacts
     [Some (Filter.mk FilterTypeTagRegex (AnyString "") decoration)] h
     = Ok (artifacts, h) /\
   Slices.DoFilterArtifacts artifacts
     [Some (Filter.mk FilterTypeLabel (AnyStrings []) decoration)] h
     = Ok (artifacts, h) /\
   Slices.DoFilterArtifacts artifacts
     [Some (Filter.mk FilterTypeLabelRegex (AnyStrings []) decoration)] h
     = Ok (artifacts, h)) /\
  (Filter (artifactTagFilter "" decoration) elements m = Ok (elements, m) /\
   Filter (artifactTagFilterRegex "" decoration) elements m = Ok (elements, m) /\
   Filter (artifactLabelFilter [] decoration) elements m = Ok (elements, m) /\
   Filter (artifactLabelFilterRegex [] decoration) elements m = Ok (elements, m)).
Proof. destruct h as [records arrays]. repeat split. Qed.

(** C6. The pipeline executor hands the original input to the first
    strategy and the output of each strategy to the next one, in list order;
    the first error ends the run and is the whole result (an [Err] carries
    no artifact list); the empty strategy list returns its input unchanged;
    and when "(unterminated" is rejected by the regular-expression compiler
    with error [e], the rule list [TagRegex "(unterminated"; Tag "*"], and
    any strategy list that starts with that TagRegex strategy, returns [e]
    whatever follows it. *)
Theorem pipeline_runs_in_order_and_aborts {L : Library}
    (fs1 fs2 : ArtifactFilters) (f : ArtifactFilter)
    (decoration1 decoration2 : string) (e : error)
    (artifacts : list ptr) (m : Mem) :
  regexp_Compile "(unterminated" = inl e ->
  ArtifactFilters_Filter [] artifacts m = Ok (artifacts, m) /\
  ArtifactFilters_Filter (fs1 ++ f :: fs2) artifacts m =
    match ArtifactFilters_Filter fs1 artifacts m with
    | Ok (artifacts1, m1) =>
        match Filter f artifacts1 m1 with
        | Ok (artifacts2, m2) => ArtifactFilters_Filter fs2 artifacts2 m2
        | Err e' => Err e'
        | Panic p => Panic p
        end
    | Err e' => Err e'
    | Panic p => Panic p
    end /\
  ArtifactFilters_Filter
    (artifactTagFilterRegex "(unterminated" decoration1 :: fs2) artifacts m = Err e /\
  DoFilterArtifacts artifacts
    [Some (Filter.mk FilterTypeTagRegex (AnyString "(unterminated") decoration1);
     Some (Filter.mk FilterTypeTag (AnyString "*") decoration2)] m = Err e.
Proof.
  intros Hbad.
  assert (forall fs, ArtifactFilters_Filter
            (artifactTagFilterRegex "(unterminated" decoration1 :: fs) artifacts m
          = Err e) as Habort.
  { intros fs. rewrite pipeline_cons. simpl.
    rewrite tagFilter_regex_unfold. simpl. by rewrite Hbad. }
  split; [reflexivity|]. split; [|split].
  - rewrite pipeline_app.
    destruct (ArtifactFilters_Filter fs1 artifacts m) as [[a1 m1]| |]; [|done..].
    by rewrite pipeline_cons.
  - apply Habort.
  - unfold DoFilterArtifacts. unfold bind. simpl. apply Habort.
Qed.

(** The error of C6 on the executable instance: the pattern is rejected
    with "missing closing )", and the run returns that error. *)
Lemma pipeline_runs_in_order_and_aborts_witness :
  let a := Artifact.mk "image" "sha256:1" ["stable"] ["v1"; "beta"] false [] in
  DoFilterArtifacts (L := Fragment.lib) [Some 0]
    [Some (Filter.mk FilterTypeTagRegex (AnyString "(unterminated") Matches);
     Some (Filter.mk FilterTypeTag (AnyString "*") Matches)] [a]
  = Err "error parsing regexp: missing closing ): `(unterminated`".
Proof.
  intros a.
  apply (pipeline_runs_in_order_and_aborts (L := Fragment.lib) [] []
           (artifactTaggedFilter true) Matches Matches _ [Some 0] [a]).
  reflexivity.
Defined.

(** C8, as the code has it. The builder never returns an error. When no
    rule reference is nil and every rule of a known kind carries a value of
    the dynamic type that kind asks for (a string list for Label and
    LabelRegex, a string for Tag and TagRegex), it returns, with the store
    untouched, one strategy of the corresponding kind per such rule,
    carrying the rule's value and decoration, nothing for a rule of any
    other kind, in the order of the rule list. Otherwise it panics at the
    first rule reference that is nil (a nil dereference) or whose rule has a
    value of another dynamic type (the failed type assertion). *)
Theorem builder_maps_rules_in_order (filters : list (option Filter.t)) (m : Mem) :
  (forall e, BuildArtifactFilters filters m <> Err e) /\
  (firstFault filters = None <->
   Forall (fun filter => exists r, filter = Some r /\ wellTyped r = true) filters) /\
  match firstFault filters with
  | None =>
      exists fs, BuildArtifactFilters filters m = Ok (fs, m) /\
                 Forall2 builds (List.filter recognised (rulesOf filters)) fs
  | Some p => BuildArtifactFilters filters m = Panic p
  end.
Proof.
  rewrite build_spec. split; [|split; [apply firstFault_None|]].
  - by destruct (firstFault filters).
  - destruct (firstFault filters) eqn:E; [done|].
    eexists. split; [done|].
    apply strategies_build. by apply firstFault_wellTyped.
Qed.

(** C8 as stated fails: a Label rule whose value is a string, not a string
    list, makes the builder panic; no strategy list is produced. The type
    assertions of the builder show that the value of a rule has an interface
    type, so such a rule is a value the builder can be handed. *)
Lemma builder_panics_on_ill_typed_value :
  let rule := Filter.mk FilterTypeLabel (AnyString "stable") Matches in
  BuildArtifactFilters [Some rule] [] = Panic InterfaceConversion /\
  ~ (exists fs m', BuildArtifactFilters [Some rule] [] = Ok (fs, m')).
Proof. split; [reflexivity|]. by intros (fs & m' & H). Qed.

(** C5. Under a glob or regex tag rule with a non-empty, well-formed
    pattern and decoration Matches, run on a store in which the listed
    references are allocated, a non-accessory artifact at least one of whose
    tags matches is represented in the output, right after what the
    preceding artifacts produced, by a record [q] that is new (no record of
    the input store has its address, so it is not the input record), whose
    tags are the matching tags in their original order and whose type,
    digest and labels are the input's; the input record, tag list included,
    and every other record of the input store are as before the call. *)
Theorem tag_narrowing_copies {L : Library} (k : tagKind) (pattern : string)
    (mb : string -> bool) (pre post : list ptr) (p : ptr) (a : Artifact.t)
    (m : Mem) :
  pattern <> "" ->
  usable k pattern mb ->
  allocated (pre ++ p :: post) m ->
  load m p = Some a ->
  Artifact.IsAcc a = false ->
  existsb mb (Artifact.Tags a) = true ->
  exists out m' o1 m1 o2 q r,
    Filter (tagFilter k pattern Matches) (pre ++ p :: post) m = Ok (out, m') /\
    Filter (tagFilter k pattern Matches) pre m = Ok (o1, m1) /\
    out = o1 ++ q :: o2 /\
    load m q = None /\
    q <> p /\
    load m' q = Some r /\
    Artifact.Tags r = List.filter mb (Artifact.Tags a) /\
    Artifact.Type_ r = Artifact.Type_ a /\
    Artifact.Digest r = Artifact.Digest a /\
    Artifact.Labels r = Artifact.Labels a /\
    load m' p = Some a /\
    (forall p' a', load m p' = Some a' -> load m' p' = Some a').
Proof.
  intros Hne Hus Hall Hp Hacc Hex.
  destruct (tagFilter_at k pattern mb Matches pre p post m a Hne Hus Hall Hp)
    as (o1 & m1 & e & m2 & o2 & m' & H1 & He & H & Hnew & Hold & Hm1 & Hm').
  unfold tagEmit, tagsForMatching in He. rewrite Hacc in He.
  pose proof (existsb_filter _ _ Hex) as Hfil.
  destruct (Artifact.Tags a) as [|t tags] eqn:Htags; [done|].
  change (List.filter (fun t => keeps Matches (mb t)) (t :: tags))
    with (List.filter mb (t :: tags)) in He.
  destruct (List.filter mb (t :: tags)) as [|t' tags'] eqn:Ef; [done|].
  injection He as <- <-.
  assert (forall p' a', load m p' = Some a' -> load m' p' = Some a') as Hkeep.
  { intros p' a' Hl. apply Hm', store_grows, Hm1, Hl. }
  apply Hold in Hnew.
  exists (o1 ++ [Some (length m1)] ++ o2), m', o1, m1, o2, (Some (length m1)).
  eexists. split; [done|]. split; [done|]. split; [done|].
  split; [done|]. split; [congruence|].
  split; [apply Hm', load_new|].
  simpl. repeat split; try done. by apply Hkeep.
Qed.

(** The spec's example for C5: tags v1, v2, latest under the glob "v*". *)
Lemma tag_narrowing_copies_witness :
  let a := Artifact.mk "image" "sha256:1" ["stable"] ["v1"; "v2"; "latest"] false [] in
  exists out m' o1 m1 o2 q r,
    Filter (L := Fragment.lib) (tagFilter glob "v*" Matches) [Some 0] [a]
      = Ok (out, m') /\
    Filter (L := Fragment.lib) (tagFilter glob "v*" Matches) [] [a] = Ok (o1, m1) /\
    out = o1 ++ q :: o2 /\
    load [a] q = None /\
    q <> Some 0 /\
    load m' q = Some r /\
    Artifact.Tags r = ["v1"; "v2"] /\
    Artifact.Type_ r = "image" /\
    Artifact.Digest r = "sha256:1" /\
    Artifact.Labels r = ["stable"] /\
    load m' (Some 0) = Some a /\
    (forall p' a', load [a] p' = Some a' -> load m' p' = Some a').
Proof.
  intros a.
  apply (tag_narrowing_copies (L := Fragment.lib) glob "v*" (Fragment.glob "v*")
           [] [] (Some 0) a [a]).
  - discriminate.
  - intros s. reflexivity.
  - repeat constructor. by exists a.
  - reflexivity.
  - reflexivity.
  - reflexivity.
Defined.

(** C3. Under a glob or regex tag rule with a well-formed pattern and
    decoration Matches, run on a store in which the listed references are
    allocated, an accessory artifact whose parent-tag check passes (one of
    its parent tags matches; without parent tags, the empty string matches)
    is represented in the output, right after what the preceding artifacts
    produced, by a record whose tag list is the accessory's own tag list,
    unchanged, and whose type, digest and labels are the accessory's. *)
Theorem accessory_keeps_own_tags {L : Library} (k : tagKind) (pattern : string)
    (mb : string -> bool) (pre post : list ptr) (p : ptr) (a : Artifact.t)
    (m : Mem) :
  usable k pattern mb ->
  allocated (pre ++ p :: post) m ->
  load m p = Some a ->
  Artifact.IsAcc a = true ->
  parentTagCheck mb a = true ->
  exists out m' o1 m1 o2 q r,
    Filter (tagFilter k pattern Matches) (pre ++ p :: post) m = Ok (out, m') /\
    Filter (tagFilter k pattern Matches) pre m = Ok (o1, m1) /\
    out = o1 ++ q :: o2 /\
    load m' q = Some r /\
    Artifact.Tags r = Artifact.Tags a /\
    Artifact.Type_ r = Artifact.Type_ a /\
    Artifact.Digest r = Artifact.Digest a /\
    Artifact.Labels r = Artifact.Labels a.
Proof.
  intros Hus Hall Hp Hacc Hcheck.
  destruct (decide (pattern = "")) as [->|Hne].
  { exists (pre ++ p :: post), m, pre, m, post, p, a.
    rewrite !tagFilter_empty. done. }
  destruct (tagFilter_at k pattern mb Matches pre p post m a Hne Hus Hall Hp)
    as (o1 & m1 & e & m2 & o2 & m' & H1 & He & H & Hnew & Hold & Hm1 & Hm').
  unfold tagEmit, tagsForMatching in He. rewrite Hacc in He.
  unfold parentTagCheck in Hcheck.
  destruct (Artifact.ParentTags a) as [|t tags] eqn:Htags.
  - rewrite keeps_Matches, Hcheck in He. injection He as <- <-.
    exists (o1 ++ [p] ++ o2), m', o1, m1, o2, p, a.
    repeat split; try done. by apply Hm', Hm1.
  - apply existsb_filter in Hcheck.
    change (List.filter (fun t => keeps Matches (mb t)) (t :: tags))
      with (List.filter mb (t :: tags)) in He.
    destruct (List.filter mb (t :: tags)) as [|t' tags']; [done|].
    injection He as <- <-.
    exists (o1 ++ [Some (length m1)] ++ o2), m', o1, m1, o2, (Some (length m1)).
    eexists. split; [done|]. split; [done|]. split; [done|].
    split; [apply Hm', load_new|].
    done.
Qed.

(** The spec's example for C3: an accessory without tags of its own whose
    parent is tagged v1, under the glob "v*". *)
Lemma accessory_keeps_own_tags_witness :
  let a := Artifact.mk "signature" "sha256:2" [] [] true ["v1"] in
  exists out m' o1 m1 o2 q r,
    Filter (L := Fragment.lib) (tagFilter glob "v*" Matches) [Some 0] [a]
      = Ok (out, m') /\
    Filter (L := Fragment.lib) (tagFilter glob "v*" Matches) [] [a] = Ok (o1, m1) /\
    out = o1 ++ q :: o2 /\
    load m' q = Some r /\
    Artifact.Tags r = [] /\
    Artifact.Type_ r = "signature" /\
    Artifact.Digest r = "sha256:2" /\
    Artifact.Labels r = [].
Proof.
  intros a.
  apply (accessory_keeps_own_tags (L := Fragment.lib) glob "v*" (Fragment.glob "v*")
           [] [] (Some 0) a [a]).
  - intros s. reflexivity.
  - repeat constructor. by exists a.
  - reflexivity.
  - reflexivity.
  - reflexivity.
Defined.

(** C10. A record that a run of a glob or regex tag rule has added to the
    store is referenced by the output, is not an accessory, has no parent
    tags, and has the type, digest and labels of an artifact of the input
    list; the tags a tag rule looks at are therefore its own, and a later
    tag rule run on it (well-formed non-empty pattern, either kind, either
    decoration) returns what matching its own tags gives. *)
Theorem narrowed_record_is_plain {L : Library} (k : tagKind)
    (pattern decoration : string) (artifacts : list ptr) (m : Mem)
    (out : list ptr) (m' : Mem) (q : ptr) (r : Artifact.t)
    (k2 : tagKind) (pattern2 decoration2 : string) (mb2 : string -> bool) :
  Filter (tagFilter k pattern decoration) artifacts m = Ok (out, m') ->
  load m q = None ->
  load m' q = Some r ->
  pattern2 <> "" ->
  usable k2 pattern2 mb2 ->
  q ∈ out /\
  Artifact.IsAcc r = false /\
  Artifact.ParentTags r = [] /\
  (exists p a, p ∈ artifacts /\ load m p = Some a /\
     Artifact.Type_ r = Artifact.Type_ a /\
     Artifact.Digest r = Artifact.Digest a /\
     Artifact.Labels r = Artifact.Labels a) /\
  tagsForMatching r = Artifact.Tags r /\
  Filter (tagFilter k2 pattern2 decoration2) [q] m'
    = Ok (tagEmit mb2 decoration2 q r m').
Proof.
  intros Hrun Hq Hr Hne2 Hus2.
  destruct (decide (pattern = "")) as [->|Hne].
  { rewrite tagFilter_empty in Hrun. injection Hrun as <- <-. congruence. }
  apply tagFilter_sound in Hrun; [|done].
  destruct (tagRun_store _ _ _ _ _ _ Hrun) as (ext & -> & Hext & Hout).
  assert (q ∈ out) as Hin by (by eapply tagRun_fresh_emitted).
  destruct (tagEmit mb2 decoration2 q r (m ++ ext)) as [e m2] eqn:He.
  assert (Filter (tagFilter k2 pattern2 decoration2) [q] (m ++ ext) = Ok (e, m2))
    as Hnext.
  { apply tagFilter_complete with (mb := mb2); [done..|].
    simpl. rewrite Hr, He. by rewrite app_nil_r. }
  apply load_app_Some in Hr as [Hr|[_ (i & -> & Hge & Hr)]]; [congruence|].
  apply list_elem_of_lookup_2 in Hr.
  apply (proj1 (Forall_forall _ _) Hext) in Hr as (p & a & tags & Hp & Ha & ->).
  split; [done|]. split; [done|]. split; [done|].
  split; [by exists p, a|]. done.
Qed.

(** An accessory that got through the glob "v*" by its parent tag: the
    record that stands for it afterwards is matched by the next rule, the
    regular expression "^v", on its own (empty) tag list. *)
Lemma narrowed_record_is_plain_witness :
  let a := Artifact.mk "signature" "sha256:2" [] [] true ["v1"] in
  let r := Artifact.mk "signature" "sha256:2" [] [] false [] in
  Some 1 ∈ [Some 1] /\
  Artifact.IsAcc r = false /\
  Artifact.ParentTags r = [] /\
  (exists p a', p ∈ [Some 0] /\ load [a] p = Some a' /\
     Artifact.Type_ r = Artifact.Type_ a' /\
     Artifact.Digest r = Artifact.Digest a' /\
     Artifact.Labels r = Artifact.Labels a') /\
  tagsForMatching r = Artifact.Tags r /\
  Filter (L := Fragment.lib) (tagFilter regex "^v" Excludes) [Some 1] [a; r]
    = Ok (tagEmit (Fragment.search (Fragment.Cat Fragment.Bol (Fragment.Char "v")))
            Excludes (Some 1) r [a; r]).
Proof.
  intros a r.
  apply (narrowed_record_is_plain (L := Fragment.lib) glob "v*" Matches [Some 0] [a]
           [Some 1] [a; r] (Some 1) r regex "^v" Excludes
           (Fragment.search (Fragment.Cat Fragment.Bol (Fragment.Char "v")))).
  - reflexivity.
  - reflexivity.
  - reflexivity.
  - discriminate.
  - eexists. split; reflexivity.
Defined.

(** C4, as the code has it. Take a rule, run it under Matches and under
    Excludes on the same well-formed input, and let both runs return. Then
    the two outputs together contain exactly the artifacts of the input
    (artifacts taken up to the rewriting of their tag list: type, digest and
    labels). For a Label or LabelRegex rule with at least one label, the
    store is untouched and the outputs are moreover disjoint: every input
    reference is in exactly one of them, and no artifact is in both. For a
    Tag or TagRegex rule with a non-empty pattern each output is, in input
    order, what the artifacts of the input contribute to it, each artifact
    at most one record (itself or a record with its type, digest and
    labels); an artifact contributes to at least one output, and to both
    exactly when it has both a matching and a non-matching tag among the
    tags the rule looks at. So together the outputs hold one record per
    input artifact and one more per artifact with such mixed tags. For an
    empty pattern or label list disjointness is not claimed. *)
Theorem decorations_cover_input {L : Library} (r : Filter.t)
    (artifacts : list ptr) (m : Mem) (oM : list ptr) (mM : Mem)
    (oE : list ptr) (mE : Mem) :
  wellFormed artifacts m ->
  DoFilterArtifacts artifacts [Some (withDecoration r Matches)] m = Ok (oM, mM) ->
  DoFilterArtifacts artifacts [Some (withDecoration r Excludes)] m = Ok (oE, mE) ->
  (forall i, i ∈ idents artifacts m <-> i ∈ idents oM mM \/ i ∈ idents oE mE) /\
  (labelRule r = true ->
     mM = m /\ mE = m /\
     partitionOf artifacts oM oE /\
     partitionOf (idents artifacts m) (idents oM mM) (idents oE mE)) /\
  (forall k pattern,
     tagRuleOf r = Some (k, pattern) -> pattern <> "" ->
     length oM + length oE
     = length artifacts + length (mixedArtifacts (matcherOf k pattern) artifacts m) /\
     exists cM cE : list (list ptr),
       oM = concat cM /\ oE = concat cE /\
       Forall3 (contributes (matcherOf k pattern) m mM mE) artifacts cM cE).
Proof.
  intros Hwf. rewrite !DoFilter_single.
  assert (forall k pattern,
    pattern <> "" ->
    Filter (tagFilter k pattern Matches) artifacts m = Ok (oM, mM) ->
    Filter (tagFilter k pattern Excludes) artifacts m = Ok (oE, mE) ->
    length oM + length oE
    = length artifacts + length (mixedArtifacts (matcherOf k pattern) artifacts m) /\
    exists cM cE : list (list ptr),
      oM = concat cM /\ oE = concat cE /\
      Forall3 (contributes (matcherOf k pattern) m mM mE) artifacts cM cE)
    as Hcount.
  { intros k pattern Hne HM HE.
    apply tagFilter_sound in HM; [|done]. apply tagFilter_sound in HE; [|done].
    pose proof (tagRun_allocated _ _ _ _ _ _ Hwf HM) as Hall.
    split.
    - rewrite (tagRun_length _ _ _ _ _ _ Hall HM), (tagRun_length _ _ _ _ _ _ Hall HE).
      apply filter_count_sum. intros p Hp%list_elem_of_In.
      apply (proj1 (Forall_forall _ _) Hall) in Hp as [a ->].
      apply survives_count.
    - rewrite <- (app_nil_r m) in HM at 1. rewrite <- (app_nil_r m) in HE at 1.
      apply tagRun_parts in HM as (cM & -> & HcM); [|done].
      apply tagRun_parts in HE as (cE & -> & HcE); [|done].
      exists cM, cE. split; [done|]. split; [done|].
      eapply Forall3_impl; [exact (Forall2_Forall3 _ _ _ _ _ HcM HcE)|].
      intros p eM eE. apply contributes_intro. }
  assert (forall k pattern,
    Filter (tagFilter k pattern Matches) artifacts m = Ok (oM, mM) ->
    Filter (tagFilter k pattern Excludes) artifacts m = Ok (oE, mE) ->
    forall i, i ∈ idents artifacts m <-> i ∈ idents oM mM \/ i ∈ idents oE mE)
    as Htag.
  { intros k pattern HM HE i.
    destruct (decide (pattern = "")) as [->|Hne].
    { rewrite tagFilter_empty in HM, HE.
      injection HM as <- <-. injection HE as <- <-. tauto. }
    apply tagFilter_sound in HM; [|done]. apply tagFilter_sound in HE; [|done].
    pose proof (tagRun_allocated _ _ _ _ _ _ Hwf HM) as Hall.
    rewrite (tagRun_idents _ _ _ _ _ _ i Hall HM).
    rewrite (tagRun_idents _ _ _ _ _ _ i Hall HE).
    rewrite elem_of_idents. split.
    - intros (p & a & Hp & Hl & Hi).
      pose proof (survives_cover (matcherOf k pattern) a) as Hc.
      apply orb_true_iff in Hc as [Hc|Hc]; [left|right]; by exists p, a.
    - intros [(p & a & Hp & Hl & _ & Hi)|(p & a & Hp & Hl & _ & Hi)];
        by exists p, a. }
  assert (forall analysis : ptr -> M bool,
    (forall p b m1, analysis p m = Ok (b, m1) -> m1 = m) ->
    (forall p p' a a', load m p = Some a -> load m p' = Some a' ->
       Artifact.Labels a = Artifact.Labels a' -> analysis p m = analysis p' m) ->
    forRange artifacts (decorated analysis Matches) [] m = Ok (oM, mM) ->
    forRange artifacts (decorated analysis Excludes) [] m = Ok (oE, mE) ->
    (forall i, i ∈ idents artifacts m <-> i ∈ idents oM mM \/ i ∈ idents oE mE) /\
    (mM = m /\ mE = m /\
     partitionOf artifacts oM oE /\
     partitionOf (idents artifacts m) (idents oM mM) (idents oE mE))) as Hlabel.
  { intros analysis Hro Hlab HM HE.
    destruct (decorated_partition analysis _ _ _ _ _ _ Hro HM HE)
      as (-> & -> & HoM & HoE & Hall).
    destruct (partition_props analysis _ _ _ _ Hlab HoM HoE Hall)
      as (H1 & H2 & H3 & H4).
    done. }
  destruct r as [[] [s|labels|] d]; simpl; try discriminate.
  - (* Label *)
    rewrite !labelFilter_unfold. destruct labels as [|l labels].
    + simpl. intros [= <- <-] [= <- <-]. split; [tauto|done].
    + change (length (l :: labels) =? 0) with false. cbv iota.
      intros HM HE.
      destruct (Hlabel (labelAnalysis (l :: labels))) as [H1 H2]; try done.
      * intros p b m1. apply labelAnalysis_readonly.
      * intros p p' a a'. apply labelAnalysis_labels.
  - (* Tag *)
    intros HM HE. split; [by apply (Htag glob s)|]. split; [done|].
    intros k pattern [= <- <-] Hne. by apply Hcount.
  - (* TagRegex *)
    intros HM HE. split; [by apply (Htag regex s)|]. split; [done|].
    intros k pattern [= <- <-] Hne. by apply Hcount.
  - (* LabelRegex *)
    rewrite !labelRegexFilter_unfold. destruct labels as [|l labels].
    + simpl. intros [= <- <-] [= <- <-]. split; [tauto|done].
    + change (length (l :: labels) =? 0) with false. cbv iota.
      intros HM HE.
      destruct (Hlabel (labelRegexAnalysis (l :: labels) artifacts))
        as [H1 H2]; try done.
      * intros p b m1. apply labelRegexAnalysis_readonly.
      * intros p p' a a'. apply labelRegexAnalysis_labels.
  - intros [= <- <-] [= <- <-]. split; [tauto|done].
  - intros [= <- <-] [= <- <-]. split; [tauto|done].
  - intros [= <- <-] [= <- <-]. split; [tauto|done].
Qed.

(** The theorem at a Label rule and at a Tag rule. Of two images, the one
    labelled stable is the output under Matches of the rule [stable], the
    other one the output under Excludes. Under the glob "v*" the first
    image, tagged v1 and latest, contributes a record to both outputs and
    the second, tagged v2, to the output under Matches only: three records
    for two artifacts, one of them with mixed tags. *)
Lemma decorations_cover_input_witness :
  let a := Artifact.mk "image" "sha256:1" ["stable"] ["v1"; "latest"] false [] in
  let b := Artifact.mk "image" "sha256:3" ["nightly"] ["v2"] false [] in
  let m := [a; b] in
  let mM := [a; b; narrowed a ["v1"]; narrowed b ["v2"]] in
  let mE := [a; b; narrowed a ["latest"]] in
  ((forall i, i ∈ idents [Some 0; Some 1] m <->
              i ∈ idents [Some 0] m \/ i ∈ idents [Some 1] m) /\
   (true = true ->
      m = m /\ m = m /\
      partitionOf [Some 0; Some 1] [Some 0] [Some 1] /\
      partitionOf (idents [Some 0; Some 1] m) (idents [Some 0] m) (idents [Some 1] m))) /\
  (length [Some 2; Some 3] + length [Some 2]
   = length [Some 0; Some 1]
     + length (mixedArtifacts (matcherOf (L := Fragment.lib) glob "v*")
                 [Some 0; Some 1] m) /\
   exists cM cE : list (list ptr),
     [Some 2; Some 3] = concat cM /\ [Some 2] = concat cE /\
     Forall3 (contributes (matcherOf (L := Fragment.lib) glob "v*") m mM mE)
       [Some 0; Some 1] cM cE).
Proof.
  intros a b m mM mE. split.
  - pose proof (decorations_cover_input (L := Fragment.lib)
           (Filter.mk FilterTypeLabel (AnyStrings ["stable"]) Matches)
           [Some 0; Some 1] m [Some 0] m [Some 1] m) as H.
    destruct H as (H1 & H2 & _).
    + repeat (constructor; [right; eexists; reflexivity|]). constructor.
    + reflexivity.
    + reflexivity.
    + split; [exact H1|exact H2].
  - pose proof (decorations_cover_input (L := Fragment.lib)
             (Filter.mk FilterTypeTag (AnyString "v*") Matches)
             [Some 0; Some 1] m [Some 2; Some 3] mM [Some 2] mE) as H.
    destruct H as (_ & _ & H3).
    + repeat (constructor; [right; eexists; reflexivity|]). constructor.
    + reflexivity.
    + reflexivity.
    + apply (H3 glob "v*"); [reflexivity|discriminate].
Defined.

(** C4 as stated fails. Under the glob "v*" an artifact tagged v1 and latest
    is in the output of Matches (with tag v1) and in the output of Excludes
    (with tag latest): the two outputs do not split the input. Nor do those
    of a Label rule with an empty label list, which returns the whole input
    under both decorations. *)
Lemma decorations_overlap :
  let a := Artifact.mk "image" "sha256:1" ["stable"] ["v1"; "latest"] false [] in
  let tagRule := Filter.mk FilterTypeTag (AnyString "v*") Matches in
  let labelRule := Filter.mk FilterTypeLabel (AnyStrings []) Matches in
  let mM := [a; narrowed a ["v1"]] in
  let mE := [a; narrowed a ["latest"]] in
  DoFilterArtifacts (L := Fragment.lib) [Some 0]
    [Some (withDecoration tagRule Matches)] [a] = Ok ([Some 1], mM) /\
  DoFilterArtifacts (L := Fragment.lib) [Some 0]
    [Some (withDecoration tagRule Excludes)] [a] = Ok ([Some 1], mE) /\
  ~ partitionOf (idents [Some 0] [a]) (idents [Some 1] mM) (idents [Some 1] mE) /\
  DoFilterArtifacts (L := Fragment.lib) [Some 0]
    [Some (withDecoration labelRule Matches)] [a] = Ok ([Some 0], [a]) /\
  DoFilterArtifacts (L := Fragment.lib) [Some 0]
    [Some (withDecoration labelRule Excludes)] [a] = Ok ([Some 0], [a]) /\
  ~ partitionOf (idents [Some 0] [a]) (idents [Some 0] [a]) (idents [Some 0] [a]).
Proof.
  intros a tagRule labelRule mM mE.
  split; [reflexivity|]. split; [reflexivity|]. split; [|split; [|split]].
  - intros [_ H]. apply (H (ident a)). split; by left.
  - reflexivity.
  - reflexivity.
  - intros [_ H]. apply (H (ident a)). split; by left.
Qed.

(** C1 is not what the code does. With the pattern list ["^v.*"], an
    artifact without labels is kept under Matches and removed under
    Excludes (the inner loop never runs, so the match stays true), and an
    artifact labelled v1.0 and stable is removed under Matches although
    "^v.*" matches v1.0 (the first label a pattern does not match ends the
    match). On the one-element list of the spec's own example the run
    panics, because the label position indexes the artifact list. *)
Theorem label_regex_wants_every_label_to_match :
  let bare := Artifact.mk "image" "sha256:1" [] ["v1"] false [] in
  let both := Artifact.mk "image" "sha256:2" ["v1.0"; "stable"] ["v2"] false [] in
  artifactLabelFilterRegex_Filter (L := Fragment.lib) ["^v.*"] Matches
    [Some 0] [bare] = Ok ([Some 0], [bare]) /\
  artifactLabelFilterRegex_Filter (L := Fragment.lib) ["^v.*"] Excludes
    [Some 0] [bare] = Ok ([], [bare]) /\
  artifactLabelFilterRegex_Filter (L := Fragment.lib) ["^v.*"] Matches
    [Some 0; Some 1] [bare; both] = Ok ([Some 0], [bare; both]) /\
  artifactLabelFilterRegex_Filter (L := Fragment.lib) ["^v.*"; "^s.*"] Matches
    [Some 0] [both] = Panic (IndexOutOfRange 1 1).
Proof. repeat split. Qed.

(** C2 is not what the code does. The label-regex rule compiles its
    patterns inside the loop over the artifacts and the loop over the
    patterns: on an empty artifact list nothing is compiled and the call
    returns no error, whatever the patterns (for every library); and a
    pattern that follows one at which the artifact already failed is not
    compiled either. The tag-regex rule, which compiles before its loop,
    returns the error on the same inputs. *)
Theorem label_regex_compiles_inside_the_loops :
  let a := Artifact.mk "image" "sha256:1" ["stable"] ["v1"] false [] in
  (forall (L : Library) labels decoration m,
     artifactLabelFilterRegex_Filter labels decoration [] m = Ok ([], m)) /\
  Fragment.Compile "(unterminated"
    = inl "error parsing regexp: missing closing ): `(unterminated`" /\
  artifactLabelFilterRegex_Filter (L := Fragment.lib) ["(unterminated"] Matches
    [] [] = Ok ([], []) /\
  artifactLabelFilterRegex_Filter (L := Fragment.lib) ["^v.*"; "(unterminated"]
    Matches [Some 0] [a] = Ok ([], [a]) /\
  artifactTagFilterRegex_Filter (L := Fragment.lib) "(unterminated" Matches
    [] [] = Err "error parsing regexp: missing closing ): `(unterminated`".
Proof.
  intros a. split; [|repeat split].
  intros L labels decoration m. unfold artifactLabelFilterRegex_Filter.
  by destruct labels.
Qed.

(** C7 is not what the code does when two configured types are equal up to
    letter case: the [continue] only moves on to the next configured type,
    so the artifact is appended once per configured type it equals. *)
Theorem type_filter_repeats_artifact :
  let a := Artifact.mk "image" "sha256:1" [] ["v1"] false [] in
  artifactTypeFilter_Filter (L := Fragment.lib) ["image"; "IMAGE"] [Some 0] [a]
  = Ok ([Some 0; Some 0], [a]).
Proof. reflexivity. Qed.

(* ================================================================== *)
(** ** Further properties: the filters that select *)
(* ================================================================== *)

Lemma forRange_emit_in {A B} (xs : list A) (body : A -> list B -> M (list B))
    (g : A -> list B) result m :
  (forall x result, x ∈ xs -> body x result m = Ok (result ++ g x, m)) ->
  forRange xs body result m = Ok (result ++ flat_map g xs, m).
Proof.
  revert result. induction xs as [|x xs IH]; intros result Hbody.
  - simpl. unfold ret. by rewrite app_nil_r.
  - rewrite forRange_cons, Hbody by left. rewrite IH.
    + simpl. by rewrite app_assoc.
    + intros y r Hy. apply Hbody. by right.
Qed.

Lemma forRange_emit_load (artifacts : list ptr)
    (body : ptr -> list ptr -> M (list ptr)) (g : ptr -> Artifact.t -> list ptr)
    result m :
  (forall p result,
     body p result m = match load m p with
                       | Some a => Ok (result ++ g p a, m)
                       | None => Panic NilDereference
                       end) ->
  forRange artifacts body result m =
  if allocatedb artifacts m
  then Ok (result ++ flat_map (fun p => match load m p with
                                        | Some a => g p a
                                        | None => []
                                        end) artifacts, m)
  else Panic NilDereference.
Proof.
  intros Hbody. revert result.
  induction artifacts as [|p rest IH]; intros result.
  - simpl. unfold ret. by rewrite app_nil_r.
  - rewrite forRange_cons, Hbody. simpl.
    destruct (load m p) as [a|]; [|done]. simpl. rewrite IH.
    destruct (allocatedb rest m); [|done]. by rewrite app_assoc.
Qed.

Lemma flat_map_select (f : Artifact.t -> bool) (ps : list ptr) (m : Mem) :
  flat_map (fun p => match load m p with
                     | Some a => if f a then [p] else []
                     | None => []
                     end) ps = select f ps m.
Proof.
  unfold select. induction ps as [|p ps IH]; simpl; [done|].
  destruct (load m p) as [a|]; [|done]. by destruct (f a); rewrite IH.
Qed.

Lemma select_ext (f g : Artifact.t -> bool) (ps : list ptr) (m : Mem) :
  (forall a, f a = g a) -> select f ps m = select g ps m.
Proof.
  intros H. unfold select. apply filter_ext. intros p.
  by destruct (load m p).
Qed.

Lemma elem_of_select (f : Artifact.t -> bool) (ps : list ptr) (m : Mem) p :
  p ∈ select f ps m <-> p ∈ ps /\ exists a, load m p = Some a /\ f a = true.
Proof.
  unfold select. rewrite list_elem_of_In, filter_In, <- list_elem_of_In.
  destruct (load m p) as [a|]; split.
  - intros [Hp Hf]. split; [done|]. by exists a.
  - intros [Hp (a' & [= <-] & Hf)]. done.
  - by intros [_ ?].
  - by intros [_ (a' & ? & _)].
Qed.

Lemma sublist_select (f : Artifact.t -> bool) (ps : list ptr) (m : Mem) :
  sublist (select f ps m) ps.
Proof.
  unfold select. induction ps as [|p ps IH]; simpl; [constructor|].
  destruct (match load m p with Some a => f a | None => false end);
    by constructor.
Qed.

Lemma allocatedb_allocated (ps : list ptr) (m : Mem) :
  allocatedb ps m = true <-> allocated ps m.
Proof.
  unfold allocatedb, allocated. rewrite forallb_forall, Forall_forall.
  split; intros H p Hp.
  - apply list_elem_of_In, H in Hp. by destruct (load m p).
  - apply list_elem_of_In, H in Hp as [a ->]. done.
Qed.

Section Selecting.

Context {L : Library}.

Lemma taggedFilter_unfold tagged artifacts m :
  artifactTaggedFilter_Filter tagged artifacts m =
  forRange artifacts (decorated (taggedAnalysis tagged) Matches) [] m.
Proof.
  unfold artifactTaggedFilter_Filter. apply forRange_ext. intros p result m1.
  unfold decorated, taggedAnalysis, bind, deref.
  destruct (load m1 p) as [a|]; [|done]. unfold ret at 3.
  by destruct (_ || _).
Qed.

Lemma decorated_load (analysis : ptr -> M bool) (f : Artifact.t -> bool)
    decoration artifacts m :
  (forall p, analysis p m = match load m p with
                            | Some a => Ok (f a, m)
                            | None => Panic NilDereference
                            end) ->
  forRange artifacts (decorated analysis decoration) [] m =
  if allocatedb artifacts m
  then Ok (select (fun a => keeps decoration (f a)) artifacts m, m)
  else Panic NilDereference.
Proof.
  intros Han.
  rewrite (forRange_emit_load artifacts _
             (fun p a => if keeps decoration (f a) then [p] else [])).
  - by rewrite flat_map_select.
  - intros p result. rewrite decorated_eq, Han.
    destruct (load m p) as [a|]; [|done].
    destruct (keeps decoration (f a)); by rewrite ?app_nil_r.
Qed.

Lemma taggedAnalysis_eq tagged p m :
  taggedAnalysis tagged p m =
  match load m p with
  | Some a => Ok (Bool.eqb (hasTags a) tagged, m)
  | None => Panic NilDereference
  end.
Proof.
  unfold taggedAnalysis, bind, deref, ret, hasTags.
  destruct (load m p) as [a|]; [|done].
  by destruct tagged, (Artifact.Tags a).
Qed.

Lemma hasLabels_spec labels a :
  hasLabels labels a = true <-> Forall (fun l => l ∈ Artifact.Labels a) labels.
Proof.
  unfold hasLabels. rewrite forallb_forall, Forall_forall. split.
  - intros H l Hl. apply list_elem_of_In, H in Hl. by apply bool_decide_eq_true in Hl.
  - intros H l Hl. apply bool_decide_eq_true, H, list_elem_of_In, Hl.
Qed.

End Selecting.

(** X1. The tagged/untagged filter, on a list whose references all point to
    records, returns in input order exactly the references whose artifact
    has at least one tag (target true) or has none (target false), and
    leaves the store as it is; on a list with a nil reference it panics. *)
Theorem tagged_filter_selects {L : Library} (tagged : bool)
    (artifacts : list ptr) (m : Mem) :
  Filter (artifactTaggedFilter tagged) artifacts m =
  if allocatedb artifacts m
  then Ok (select (fun a => Bool.eqb (hasTags a) tagged) artifacts m, m)
  else Panic NilDereference.
Proof.
  unfold Filter. rewrite taggedFilter_unfold.
  rewrite (decorated_load _ (fun a => Bool.eqb (hasTags a) tagged)).
  - reflexivity.
  - intros p. apply taggedAnalysis_eq.
Qed.

(** X2. On a list whose references all point to records, the tagged filter
    and the untagged filter split the input: both return, every reference
    of the input is in one of the two outputs and none is in both. *)
Theorem tagged_and_untagged_split {L : Library} (artifacts : list ptr) (m : Mem) :
  allocated artifacts m ->
  exists tagged untagged,
    Filter (artifactTaggedFilter true) artifacts m = Ok (tagged, m) /\
    Filter (artifactTaggedFilter false) artifacts m = Ok (untagged, m) /\
    partitionOf artifacts tagged untagged.
Proof.
  intros Hall. pose proof (proj2 (allocatedb_allocated _ _) Hall) as Hb.
  unfold Filter. rewrite !taggedFilter_unfold.
  rewrite (decorated_load _ (fun a => Bool.eqb (hasTags a) true))
    by (intros p; apply taggedAnalysis_eq).
  rewrite (decorated_load _ (fun a => Bool.eqb (hasTags a) false))
    by (intros p; apply taggedAnalysis_eq).
  rewrite Hb. eexists _, _. split; [done|]. split; [done|]. split.
  - intros p. rewrite !elem_of_select. split.
    + intros Hp. apply (proj1 (Forall_forall _ _) Hall) in Hp as Ha.
      destruct Ha as [a Ha]. destruct (hasTags a) eqn:E.
      * left. split; [done|]. exists a. by rewrite E.
      * right. split; [done|]. exists a. by rewrite E.
    + intros [[Hp _]|[Hp _]]; done.
  - intros p. rewrite !elem_of_select.
    intros [[_ (a & Ha & H1)] [_ (a' & Ha' & H2)]].
    rewrite Ha in Ha'. injection Ha' as <-.
    rewrite keeps_Matches in H1, H2. by destruct (hasTags a).
Qed.

Lemma tagged_and_untagged_split_witness :
  let a := Artifact.mk "image" "sha256:1" [] ["v1"] false [] in
  let b := Artifact.mk "image" "sha256:2" [] [] false [] in
  exists tagged untagged,
    Filter (L := Fragment.lib) (artifactTaggedFilter true) [Some 0; Some 1] [a; b]
      = Ok (tagged, [a; b]) /\
    Filter (L := Fragment.lib) (artifactTaggedFilter false) [Some 0; Some 1] [a; b]
      = Ok (untagged, [a; b]) /\
    partitionOf [Some 0; Some 1] tagged untagged.
Proof.
  intros a b.
  apply (tagged_and_untagged_split (L := Fragment.lib) [Some 0; Some 1] [a; b]).
  repeat (constructor; [eexists; reflexivity|]). constructor.
Defined.

Section SelectingMore.

Context {L : Library}.

Lemma typeLoop_eq (types all : list string) p a result m :
  load m p = Some a ->
  forRange types (fun t result =>
    do a <- deref p;
    if strings_EqualFold (strings_ToLower (Artifact.Type_ a)) (strings_ToLower t)
    then ret (result ++ [p])
    else ret result) result m
  = Ok (result ++ replicate (length (typeMatches types a)) p, m).
Proof.
  intros Hp. revert result. induction types as [|t types IH]; intros result.
  - simpl. unfold ret. by rewrite app_nil_r.
  - rewrite forRange_cons. unfold bind at 1, deref at 1. rewrite Hp.
    unfold typeMatches. simpl.
    destruct (strings_EqualFold _ _); unfold ret at 1; rewrite IH.
    + simpl. by rewrite <- app_assoc.
    + done.
Qed.

Lemma typeFilter_eq (t : string) (types : list string) artifacts m :
  artifactTypeFilter_Filter (t :: types) artifacts m =
  if allocatedb artifacts m
  then Ok (flat_map (fun p => match load m p with
                              | Some a =>
                                  replicate (length (typeMatches (t :: types) a)) p
                              | None => []
                              end) artifacts, m)
  else Panic NilDereference.
Proof.
  unfold artifactTypeFilter_Filter.
  change (length (t :: types) =? 0) with false. cbv iota.
  rewrite (forRange_emit_load artifacts _
             (fun p a => replicate (length (typeMatches (t :: types) a)) p)).
  - reflexivity.
  - intros p result. destruct (load m p) as [a|] eqn:Hp.
    + by apply typeLoop_eq.
    + rewrite forRange_cons. unfold bind, deref. by rewrite Hp.
Qed.

Lemma labelFilter_eq (l : string) (labels : list string) decoration artifacts m :
  artifactLabelFilter_Filter (l :: labels) decoration artifacts m =
  if allocatedb artifacts m
  then Ok (select (fun a => keeps decoration (hasLabels (l :: labels) a)) artifacts m, m)
  else Panic NilDereference.
Proof.
  rewrite labelFilter_unfold.
  change (length (l :: labels) =? 0) with false. cbv iota.
  apply decorated_load. intros p. apply labelAnalysis_eq.
Qed.

Lemma keeps_other decoration b :
  decoration <> Excludes -> keeps decoration b = keeps Matches b.
Proof.
  intros H. unfold keeps.
  destruct (String.eqb_spec decoration Excludes) as [->|_]; done.
Qed.

Lemma decorated_keeps (analysis : ptr -> M bool) d d' p result m :
  (forall b, keeps d b = keeps d' b) ->
  decorated analysis d p result m = decorated analysis d' p result m.
Proof.
  intros H. rewrite !decorated_eq.
  destruct (analysis p m) as [[b m1]| |]; [|done..]. by rewrite H.
Qed.

Lemma tagBody_keeps (mt : string -> error + bool) d d' p result m :
  (forall b, keeps d b = keeps d' b) ->
  tagBody mt d p result m = tagBody mt d' p result m.
Proof.
  intros H. unfold tagBody, bind, deref, try.
  destruct (load m p) as [a|]; [|done].
  destruct (length _ =? 0).
  - destruct (mt "") as [e|b]; [done|]. by rewrite !decorate_if, H.
  - rewrite (forRange_ext _ (narrowBody mt d) (narrowBody mt d')); [done|].
    intros t ts m2. rewrite !narrowBody_eq.
    destruct (mt t) as [e|b]; [done|]. by rewrite H.
Qed.

(** A strategy that selects returns a part of its input, in input order,
    and leaves the store alone. *)
Lemma selecting_sublist (f : ArtifactFilter) artifacts m out m' :
  selecting f = true ->
  Filter f artifacts m = Ok (out, m') ->
  m' = m /\ sublist out artifacts.
Proof.
  assert (forall analysis decoration,
    (forall p b m1, analysis p m = Ok (b, m1) -> m1 = m) ->
    forRange artifacts (decorated analysis decoration) [] m = Ok (out, m') ->
    m' = m /\ sublist out artifacts) as Hdec.
  { intros analysis decoration Hro H.
    apply decorated_sound in H as (-> & Hall & ->); [|done].
    split; [done|]. simpl. clear.
    induction artifacts as [|p ps IH]; simpl; [constructor|].
    destruct (match analysis p m with Ok (b, _) => _ | _ => false end);
      by constructor. }
  destruct f as [| labels d | tagged | | | labels d]; try done; intros _; unfold Filter.
  - rewrite labelFilter_unfold. destruct labels as [|l labels].
    + simpl. by intros [= <- <-].
    + change (length (l :: labels) =? 0) with false. cbv iota.
      apply Hdec. intros p b m1. apply labelAnalysis_readonly.
  - rewrite taggedFilter_unfold. apply Hdec. intros p b m1.
    rewrite taggedAnalysis_eq. destruct (load m p); [|done]. by intros [= _ <-].
  - rewrite labelRegexFilter_unfold. destruct labels as [|l labels].
    + simpl. by intros [= <- <-].
    + change (length (l :: labels) =? 0) with false. cbv iota.
      apply Hdec. intros p b m1. apply labelRegexAnalysis_readonly.
Qed.

End SelectingMore.

(** X3. The type filter with no configured type returns its input. With at
    least one, on a list whose references all point to records, it returns,
    in input order, each reference once per configured type that its
    artifact's type equals up to letter case (so exactly the matching
    artifacts, and each once, when a single type is configured), with the
    store unchanged; on a list with a nil reference it panics. *)
Theorem type_filter_counts_matches {L : Library} (types : list string)
    (t : string) (artifacts : list ptr) (m : Mem) :
  Filter (artifactTypeFilter types) artifacts m =
    match types with
    | [] => Ok (artifacts, m)
    | _ =>
        if allocatedb artifacts m
        then Ok (flat_map (fun p => match load m p with
                                    | Some a =>
                                        replicate (length (typeMatches types a)) p
                                    | None => []
                                    end) artifacts, m)
        else Panic NilDereference
    end /\
  Filter (artifactTypeFilter [t]) artifacts m =
    if allocatedb artifacts m
    then Ok (select (fun a => strings_EqualFold (strings_ToLower (Artifact.Type_ a))
                                (strings_ToLower t)) artifacts m, m)
    else Panic NilDereference.
Proof.
  unfold Filter. split.
  - destruct types as [|t' types]; [reflexivity|]. apply typeFilter_eq.
  - rewrite typeFilter_eq. destruct (allocatedb artifacts m); [|done].
    rewrite <- flat_map_select. do 2 f_equal.
    apply flat_map_ext. intros p. destruct (load m p) as [a|]; [|done].
    unfold typeMatches. simpl. by destruct (strings_EqualFold _ _).
Qed.

(** X4. The exact label rule with an empty label list returns its input.
    With at least one label, on a list whose references all point to
    records, it returns in input order exactly the references whose
    artifact has every configured label among its labels (decoration other
    than excludes) or lacks at least one of them (excludes), with the store
    unchanged; on a list with a nil reference it panics. *)
Theorem label_filter_selects {L : Library} (labels : list string)
    (decoration : string) (artifacts : list ptr) (m : Mem) :
  Filter (artifactLabelFilter labels decoration) artifacts m =
    match labels with
    | [] => Ok (artifacts, m)
    | _ =>
        if allocatedb artifacts m
        then Ok (select (fun a => keeps decoration (hasLabels labels a)) artifacts m, m)
        else Panic NilDereference
    end /\
  (forall a, hasLabels labels a = true <->
             Forall (fun l => l ∈ Artifact.Labels a) labels).
Proof.
  split; [|intros a; apply hasLabels_spec].
  unfold Filter. destruct labels as [|l labels]; [reflexivity|].
  apply labelFilter_eq.
Qed.

(** X5. Only the decoration "excludes" inverts a rule: with any other
    decoration string (the empty one, a misspelt one) each of the four
    decorated strategies does exactly what it does with "matches". *)
Theorem other_decoration_is_matches {L : Library} (decoration : string)
    (labels : list string) (pattern : string) (artifacts : list ptr) (m : Mem) :
  decoration <> Excludes ->
  Filter (artifactLabelFilter labels decoration) artifacts m
    = Filter (artifactLabelFilter labels Matches) artifacts m /\
  Filter (artifactLabelFilterRegex labels decoration) artifacts m
    = Filter (artifactLabelFilterRegex labels Matches) artifacts m /\
  Filter (artifactTagFilter pattern decoration) artifacts m
    = Filter (artifactTagFilter pattern Matches) artifacts m /\
  Filter (artifactTagFilterRegex pattern decoration) artifacts m
    = Filter (artifactTagFilterRegex pattern Matches) artifacts m.
Proof.
  intros Hd. pose proof (fun b => keeps_other decoration b Hd) as Hk.
  unfold Filter. repeat split.
  - rewrite !labelFilter_unfold. destruct (length labels =? 0); [done|].
    apply forRange_ext. intros p result m1. by apply decorated_keeps.
  - rewrite !labelRegexFilter_unfold. destruct (length labels =? 0); [done|].
    apply forRange_ext. intros p result m1. by apply decorated_keeps.
  - rewrite !tagFilter_glob_unfold. destruct (String.length pattern =? 0); [done|].
    apply forRange_ext. intros p result m1. by apply tagBody_keeps.
  - rewrite !tagFilter_regex_unfold. destruct (String.length pattern =? 0); [done|].
    destruct (regexp_Compile pattern) as [e|re]; [done|].
    apply forRange_ext. intros p result m1. by apply tagBody_keeps.
Qed.

Lemma other_decoration_is_matches_witness :
  let a := Artifact.mk "image" "sha256:1" ["stable"] ["v1"; "latest"] false [] in
  Filter (L := Fragment.lib) (artifactLabelFilter ["stable"] "") [Some 0] [a]
    = Filter (L := Fragment.lib) (artifactLabelFilter ["stable"] Matches) [Some 0] [a] /\
  Filter (L := Fragment.lib) (artifactLabelFilterRegex ["stable"] "") [Some 0] [a]
    = Filter (L := Fragment.lib) (artifactLabelFilterRegex ["stable"] Matches)
        [Some 0] [a] /\
  Filter (L := Fragment.lib) (artifactTagFilter "v*" "") [Some 0] [a]
    = Filter (L := Fragment.lib) (artifactTagFilter "v*" Matches) [Some 0] [a] /\
  Filter (L := Fragment.lib) (artifactTagFilterRegex "v*" "") [Some 0] [a]
    = Filter (L := Fragment.lib) (artifactTagFilterRegex "v*" Matches) [Some 0] [a].
Proof.
  intros a.
  apply (other_decoration_is_matches (L := Fragment.lib) "" ["stable"] "v*"
           [Some 0] [a]).
  discriminate.
Defined.

(** X6. A pipeline made of label rules (exact or regex) and tagged/untagged
    filters only allocates nothing and, when it returns, returns a
    subsequence of its input: the surviving references, in input order. *)
Theorem selecting_pipeline_returns_subsequence {L : Library}
    (fs : ArtifactFilters) (artifacts : list ptr) (m : Mem)
    (out : list ptr) (m' : Mem) :
  forallb selecting fs = true ->
  ArtifactFilters_Filter fs artifacts m = Ok (out, m') ->
  m' = m /\ sublist out artifacts.
Proof.
  revert artifacts. induction fs as [|f fs IH]; intros artifacts Hsel.
  - simpl. by intros [= <- <-].
  - simpl in Hsel. apply andb_true_iff in Hsel as [Hf Hfs].
    rewrite pipeline_cons.
    destruct (Filter f artifacts m) as [[o1 m1]| |] eqn:E; try discriminate.
    apply selecting_sublist in E as [-> Hsub]; [|done].
    intros H. apply IH in H as [-> Hsub']; [|done].
    split; [done|]. by etrans.
Qed.

Lemma selecting_pipeline_returns_subsequence_witness :
  let a := Artifact.mk "image" "sha256:1" ["stable"] ["v1"] false [] in
  let b := Artifact.mk "image" "sha256:2" ["nightly"] [] false [] in
  [a; b] = [a; b] /\ sublist [Some 0] [Some 0; Some 1].
Proof.
  intros a b.
  apply (selecting_pipeline_returns_subsequence (L := Fragment.lib)
           [artifactLabelFilter ["nightly"] Excludes; artifactTaggedFilter true]
           [Some 0; Some 1] [a; b] [Some 0] [a; b]).
  - reflexivity.
  - reflexivity.
Defined.

(* ================================================================== *)
(** ** Further properties: errors *)
(* ================================================================== *)

Lemma forRange_Err {A S} (xs : list A) (f : A -> S -> M S) s m e :
  forRange xs f s m = Err e ->
  exists x s' m', x ∈ xs /\ f x s' m' = Err e.
Proof.
  revert s m. induction xs as [|x xs IH]; intros s m; [done|].
  rewrite forRange_cons.
  destruct (f x s m) as [[s1 m1]| |] eqn:E; try discriminate.
  - intros (y & s' & m' & Hy & H)%IH. exists y, s', m'. split; [by right|done].
  - intros [= ->]. exists x, s, m. split; [by left|done].
Qed.

Lemma forRangeBrk_Err {A S} (xs : list A) (f : A -> S -> M (flow S)) s m e :
  forRangeBrk xs f s m = Err e ->
  exists x s' m', x ∈ xs /\ f x s' m' = Err e.
Proof.
  revert s m. induction xs as [|x xs IH]; intros s m; [done|].
  rewrite forRangeBrk_cons.
  destruct (f x s m) as [[[s1|s1] m1]| |] eqn:E; try discriminate.
  - intros (y & s' & m' & Hy & H)%IH. exists y, s', m'. split; [by right|done].
  - intros [= ->]. exists x, s, m. split; [by left|done].
Qed.

Lemma Forall2_elem_r {A B} (R : A -> B -> Prop) (l : list A) (k : list B) y :
  Forall2 R l k -> y ∈ k -> exists x, x ∈ l /\ R x y.
Proof.
  induction 1 as [|x y' l k Hxy _ IH]; [by intros ?%elem_of_nil|].
  intros [->|Hy]%elem_of_cons.
  - exists x. split; [by left|done].
  - destruct (IH Hy) as (x' & Hx' & HR). exists x'. split; [by right|done].
Qed.

Section Errors.

Context {L : Library}.

Lemma tagBody_Err (mt : string -> error + bool) d p result m e :
  tagBody mt d p result m = Err e -> exists t, mt t = inl e.
Proof.
  unfold tagBody, bind, deref, try.
  destruct (load m p) as [a|]; [|done].
  destruct (length _ =? 0).
  - destruct (mt "") as [e'|b] eqn:E; [intros [= ->]; by exists ""|].
    rewrite decorate_if. by destruct (keeps d b).
  - destruct (forRange _ (narrowBody mt d) [] m) as [[tags m1]| |] eqn:E.
    + destruct (length tags =? 0); [done|]. by destruct (Artifact.IsAcc a).
    + intros [= ->]. apply forRange_Err in E as (t & ts & m' & _ & E).
      rewrite narrowBody_eq in E. destruct (mt t) as [e'|b] eqn:Et; [|done].
      injection E as ->. by exists t.
    + done.
Qed.

Lemma typeFilter_no_Err types artifacts m e :
  artifactTypeFilter_Filter types artifacts m <> Err e.
Proof.
  unfold artifactTypeFilter_Filter. destruct (length types =? 0); [done|].
  intros (p & r & m1 & _ & H)%forRange_Err.
  apply forRange_Err in H as (t & r' & m2 & _ & H).
  unfold bind, deref in H. destruct (load m2 p); [|done].
  by destruct (strings_EqualFold _ _).
Qed.

Lemma labelRegexAnalysis_Err labels artifacts p m e :
  labelRegexAnalysis labels artifacts p m = Err e ->
  exists l, l ∈ labels /\ regexp_Compile l = inl e.
Proof.
  unfold labelRegexAnalysis. unfold bind at 1.
  destruct (forRangeBrk _ _ _ m) as [[f m1]| |] eqn:E; try discriminate.
  intros [= ->]. apply forRangeBrk_Err in E as (l & s & m1 & Hl & E).
  exists l. split; [done|]. revert E. unfold bind at 1, try.
  destruct (regexp_Compile l) as [e'|re]; [by intros [= ->]|].
  unfold bind at 1, deref. destruct (load m1 p) as [a|]; [|done].
  intros (il & s' & m2 & _ & E)%forRangeBrk_Err. exfalso. revert E.
  unfold bind, index, deref. destruct (artifacts !! il.1) as [other|]; [|done].
  unfold ret at 1. destruct (load m2 other); [|done]. by destruct (negb _).
Qed.

(** An error of a strategy is an error of its matcher on its pattern. *)
Lemma Filter_Err (f : ArtifactFilter) artifacts m e :
  Filter f artifacts m = Err e -> errorOf f e.
Proof.
  destruct f as [types | labels d | tagged | pattern d | pattern d | labels d];
    unfold Filter; simpl.
  - intros H. by apply typeFilter_no_Err in H.
  - rewrite labelFilter_unfold. destruct (length labels =? 0); [done|].
    intros (p & r & m1 & _ & H)%forRange_Err. rewrite decorated_eq in H.
    rewrite labelAnalysis_eq in H. by destruct (load m1 p).
  - rewrite taggedFilter_unfold.
    intros (p & r & m1 & _ & H)%forRange_Err. rewrite decorated_eq in H.
    rewrite taggedAnalysis_eq in H. by destruct (load m1 p).
  - rewrite tagFilter_glob_unfold. destruct pattern as [|c pattern]; [done|].
    simpl. intros (p & r & m1 & _ & H)%forRange_Err.
    split; [done|]. by apply tagBody_Err in H.
  - rewrite tagFilter_regex_unfold. destruct pattern as [|c pattern]; [done|].
    simpl. destruct (regexp_Compile _) as [e'|re]; [by intros [= ->]|].
    intros (p & r & m1 & _ & H)%forRange_Err.
    by apply tagBody_Err in H as [t H].
  - rewrite labelRegexFilter_unfold. destruct (length labels =? 0); [done|].
    intros (p & r & m1 & _ & H)%forRange_Err. rewrite decorated_eq in H.
    destruct (labelRegexAnalysis labels artifacts p m1) as [[b m2]| |] eqn:E;
      try done.
    injection H as ->. by apply labelRegexAnalysis_Err in E.
Qed.

Lemma builds_errorSource (r : Filter.t) (f : ArtifactFilter) e :
  builds r f -> errorOf f e -> errorSource r e.
Proof. by intros []. Qed.

Lemma tagBody_regex_no_Err (re : Regexp) d p result m e :
  tagBody (fun s => inr (MatchString re s)) d p result m <> Err e.
Proof. by intros [t H]%tagBody_Err. Qed.

End Errors.

(** X7. The tag-regex rule returns an error exactly when its pattern is
    non-empty and does not compile, and the error is the compiler's; this
    holds for every artifact list, the empty one included. *)
Theorem tag_regex_error_iff {L : Library} (pattern decoration : string)
    (artifacts : list ptr) (m : Mem) (e : error) :
  Filter (artifactTagFilterRegex pattern decoration) artifacts m = Err e <->
  pattern <> "" /\ regexp_Compile pattern = inl e.
Proof.
  unfold Filter. rewrite tagFilter_regex_unfold. split.
  - destruct pattern as [|c pattern]; [done|]. simpl.
    destruct (regexp_Compile _) as [e'|re]; [by intros [= ->]|].
    intros (p & r & m1 & _ & H)%forRange_Err.
    by apply tagBody_regex_no_Err in H.
  - intros [Hne ->]. by destruct pattern.
Qed.

(** X8. When a pipeline of strategies returns an error, one of its
    strategies is a Tag rule on whose non-empty pattern [util.Match] returns
    that error for some string, a TagRegex rule whose non-empty pattern the
    compiler rejects with that error, or a LabelRegex rule one of whose
    patterns the compiler rejects with it. Type filters, exact label rules
    and tagged filters never cause an error. *)
Theorem pipeline_error_comes_from_a_pattern {L : Library} (fs : ArtifactFilters)
    (artifacts : list ptr) (m : Mem) (e : error) :
  ArtifactFilters_Filter fs artifacts m = Err e ->
  exists f, f ∈ fs /\ errorOf f e.
Proof.
  unfold ArtifactFilters_Filter.
  intros (f & arts & m1 & Hf & H)%forRange_Err.
  exists f. split; [done|]. by apply Filter_Err in H.
Qed.

Lemma pipeline_error_comes_from_a_pattern_witness :
  let a := Artifact.mk "image" "sha256:1" ["stable"] ["v1"] false [] in
  exists f,
    f ∈ [artifactLabelFilter ["stable"] Matches;
         artifactLabelFilterRegex ["(unterminated"] Matches] /\
    errorOf (L := Fragment.lib) f
      "error parsing regexp: missing closing ): `(unterminated`".
Proof.
  intros a.
  apply (pipeline_error_comes_from_a_pattern (L := Fragment.lib)
           [artifactLabelFilter ["stable"] Matches;
            artifactLabelFilterRegex ["(unterminated"] Matches]
           [Some 0] [a]).
  reflexivity.
Defined.

(** X9. When the entry point returns an error, the rule list holds a
    reference to a Tag, TagRegex or LabelRegex rule whose pattern is the
    source of that error; building the strategies never is. *)
Theorem entry_point_error_comes_from_a_rule {L : Library}
    (filters : list (option Filter.t)) (artifacts : list ptr) (m : Mem) (e : error) :
  DoFilterArtifacts artifacts filters m = Err e ->
  exists r, Some r ∈ filters /\ errorSource r e.
Proof.
  unfold DoFilterArtifacts, bind. rewrite build_spec.
  destruct (firstFault filters) eqn:E; [done|].
  unfold ArtifactFilters_Filter.
  intros (f & arts & m1 & Hf & H)%forRange_Err.
  apply Filter_Err in H.
  pose proof (strategies_build _ (proj1 (firstFault_wellTyped _ E))) as Hfs.
  destruct (Forall2_elem_r _ _ _ _ Hfs Hf) as (r & Hr & Hbuilds).
  exists r. split.
  - apply list_elem_of_In in Hr. apply filter_In in Hr as [Hr _].
    by apply elem_of_rulesOf, list_elem_of_In.
  - by eapply builds_errorSource.
Qed.

Lemma entry_point_error_comes_from_a_rule_witness :
  let a := Artifact.mk "image" "sha256:1" ["stable"] ["v1"] false [] in
  exists r,
    Some r ∈ [Some (Filter.mk (FilterTypeOther "name") (AnyString "library/**") Matches);
              Some (Filter.mk FilterTypeTagRegex (AnyString "(unterminated") Matches)] /\
    errorSource (L := Fragment.lib) r
      "error parsing regexp: missing closing ): `(unterminated`".
Proof.
  intros a.
  apply (entry_point_error_comes_from_a_rule (L := Fragment.lib)
           [Some (Filter.mk (FilterTypeOther "name") (AnyString "library/**") Matches);
            Some (Filter.mk FilterTypeTagRegex (AnyString "(unterminated") Matches)]
           [Some 0] [a]).
  reflexivity.
Defined.

(* ================================================================== *)
(** ** Further properties: the store and the builder *)
(* ================================================================== *)

Lemma allocated_sublist (ps qs : list ptr) (m : Mem) :
  sublist ps qs -> allocated qs m -> allocated ps m.
Proof.
  intros Hsub Hall. apply Forall_forall. intros p Hp.
  apply (proj1 (Forall_forall _ _) Hall). by eapply elem_of_sublist.
Qed.

Section Store.

Context {L : Library}.

(** A strategy that returns has only added records to the store, and the
    references it returns point to records if those it was given did. *)
Lemma Filter_store (f : ArtifactFilter) artifacts m out m' :
  Filter f artifacts m = Ok (out, m') ->
  exists ext, m' = m ++ ext /\ (allocated artifacts m -> allocated out m').
Proof.
  destruct (selecting f) eqn:Hsel.
  { intros H. apply selecting_sublist in H as [-> Hsub]; [|done].
    exists []. rewrite app_nil_r. split; [done|]. by apply allocated_sublist. }
  destruct f as [types | | | pattern d | pattern d |]; try done; unfold Filter.
  - destruct types as [|t types].
    + intros [= <- <-]. exists []. by rewrite app_nil_r.
    + rewrite typeFilter_eq. destruct (allocatedb artifacts m) eqn:Hb; [|done].
      intros [= <- <-]. exists []. rewrite app_nil_r. split; [done|].
      intros Hall. apply Forall_forall. intros q Hq.
      apply list_elem_of_In, in_flat_map in Hq as (p & Hp & Hq).
      apply list_elem_of_In in Hp.
      apply (proj1 (Forall_forall _ _) Hall) in Hp as Ha. destruct Ha as [a Ha].
      rewrite Ha in Hq. apply list_elem_of_In, elem_of_replicate in Hq as [-> _].
      by exists a.
  - intros H. destruct (decide (pattern = "")) as [->|Hne].
    + injection H as <- <-. exists []. by rewrite app_nil_r.
    + apply (tagFilter_sound glob) in H; [|done].
      apply tagRun_store in H as (ext & -> & _ & Hout). by exists ext.
  - intros H. destruct (decide (pattern = "")) as [->|Hne].
    + injection H as <- <-. exists []. by rewrite app_nil_r.
    + apply (tagFilter_sound regex) in H; [|done].
      apply tagRun_store in H as (ext & -> & _ & Hout). by exists ext.
Qed.

Lemma pipeline_store (fs : ArtifactFilters) artifacts m out m' :
  ArtifactFilters_Filter fs artifacts m = Ok (out, m') ->
  exists ext, m' = m ++ ext /\ (allocated artifacts m -> allocated out m').
Proof.
  revert artifacts m. induction fs as [|f fs IH]; intros artifacts m.
  - intros [= <- <-]. exists []. by rewrite app_nil_r.
  - rewrite pipeline_cons.
    destruct (Filter f artifacts m) as [[o1 m1]| |] eqn:E; try discriminate.
    apply Filter_store in E as (ext1 & -> & H1).
    intros (ext2 & -> & H2)%IH. exists (ext1 ++ ext2).
    split; [by rewrite app_assoc|]. auto.
Qed.

(** Rules of a kind the builder does not know add neither a fault nor a
    strategy. *)
Lemma fault_filter_kept (filters : list (option Filter.t)) :
  firstFault (List.filter kept filters) = firstFault filters.
Proof.
  unfold firstFault. f_equal.
  induction filters as [|filter filters IH]; [done|].
  destruct filter as [[[] v d]|]; cbn; by rewrite ?IH.
Qed.

Lemma strategies_filter_kept (filters : list (option Filter.t)) :
  flat_map (fun r => option_list (strategyOf r)) (rulesOf (List.filter kept filters))
  = flat_map (fun r => option_list (strategyOf r)) (rulesOf filters).
Proof.
  unfold rulesOf.
  induction filters as [|filter filters IH]; [done|].
  destruct filter as [[[] [] d]|]; cbn; by rewrite ?IH.
Qed.

End Store.

(** X10. When a pipeline of strategies returns, the store it returns is the
    store it was given followed by the records it allocated: every record of
    the input store is still there, at its address and unchanged. If
    moreover the references it was given all point to records, so do the
    references it returns. *)
Theorem pipeline_only_adds_records {L : Library} (fs : ArtifactFilters)
    (artifacts : list ptr) (m : Mem) (out : list ptr) (m' : Mem) :
  ArtifactFilters_Filter fs artifacts m = Ok (out, m') ->
  (exists ext, m' = m ++ ext) /\
  (forall p a, load m p = Some a -> load m' p = Some a) /\
  (allocated artifacts m -> allocated out m').
Proof.
  intros (ext & -> & Hall)%pipeline_store.
  split; [by exists ext|]. split; [|done].
  intros p a. apply store_grows.
Qed.

Lemma pipeline_only_adds_records_witness :
  let a := Artifact.mk "image" "sha256:1" ["stable"] ["v1"; "latest"] false [] in
  let b := Artifact.mk "image" "sha256:2" ["stable"] [] false [] in
  let m' := [a; b; narrowed a ["v1"]] in
  (exists ext, m' = [a; b] ++ ext) /\
  (forall p c, load [a; b] p = Some c -> load m' p = Some c) /\
  (allocated [Some 0; Some 1] [a; b] -> allocated [Some 2] m').
Proof.
  intros a b m'.
  apply (pipeline_only_adds_records (L := Fragment.lib)
           [artifactLabelFilter ["stable"] Matches; artifactTagFilter "v*" Matches]
           [Some 0; Some 1] [a; b] [Some 2] m').
  reflexivity.
Defined.

(** X11. Running the entry point on the concatenation of two rule lists, the
    second of which holds no nil reference and only rules that carry a value
    of the right dynamic type, is running it on the first list and then, on
    what that returned, on the second; an error or a panic of the first run
    ends the whole run. (The builder goes through the whole rule list before
    any strategy runs, so a fault in the second list would show even where
    the first run ends in an error.) *)
Theorem entry_point_composes {L : Library} (rules1 rules2 : list (option Filter.t))
    (artifacts : list ptr) (m : Mem) :
  firstFault rules2 = None ->
  DoFilterArtifacts artifacts (rules1 ++ rules2) m =
  match DoFilterArtifacts artifacts rules1 m with
  | Ok (artifacts1, m1) => DoFilterArtifacts artifacts1 rules2 m1
  | Err e => Err e
  | Panic p => Panic p
  end.
Proof.
  intros H2. unfold DoFilterArtifacts, bind.
  rewrite !build_spec, firstFault_app, H2.
  destruct (firstFault rules1); [done|].
  rewrite rulesOf_app, flat_map_app, pipeline_app.
  destruct (ArtifactFilters_Filter _ artifacts m) as [[a1 m1]| |]; [|done..].
  by rewrite build_spec, H2.
Qed.

Lemma entry_point_composes_witness :
  let a := Artifact.mk "image" "sha256:1" ["stable"] ["v1"; "beta"] false [] in
  let rules1 := [Some (Filter.mk FilterTypeTagRegex (AnyString "v.*") Matches)] in
  let rules2 := [Some (Filter.mk FilterTypeLabel (AnyStrings ["stable"]) Matches)] in
  DoFilterArtifacts (L := Fragment.lib) [Some 0] (rules1 ++ rules2) [a] =
  match DoFilterArtifacts (L := Fragment.lib) [Some 0] rules1 [a] with
  | Ok (artifacts1, m1) => DoFilterArtifacts (L := Fragment.lib) artifacts1 rules2 m1
  | Err e => Err e
  | Panic p => Panic p
  end.
Proof.
  intros a rules1 rules2.
  apply (entry_point_composes (L := Fragment.lib) rules1 rules2 [Some 0] [a]).
  reflexivity.
Defined.

(** X12. Rules of a kind the builder does not know have no effect on a run
    of the entry point: the run on a rule list is the run on the list
    without the references to them, whatever it does. *)
Theorem unknown_rules_have_no_effect {L : Library} (filters : list (option Filter.t))
    (artifacts : list ptr) (m : Mem) :
  DoFilterArtifacts artifacts filters m
  = DoFilterArtifacts artifacts (List.filter kept filters) m.
Proof.
  unfold DoFilterArtifacts, bind.
  by rewrite !build_spec, fault_filter_kept, strategies_filter_kept.
Qed.

(* ================================================================== *)
(** ** Further properties: the tag rules *)
(* ================================================================== *)

Lemma contents_app (ps qs : list ptr) (m : Mem) :
  contents (ps ++ qs) m = contents ps m ++ contents qs m.
Proof. apply omap_app. Qed.

Lemma contents_grows (ps : list ptr) (m ext : Mem) :
  allocated ps m -> contents ps (m ++ ext) = contents ps m.
Proof.
  unfold contents. induction 1 as [|p ps [a Ha] _ IH]; [done|].
  cbn. rewrite (store_grows _ _ _ _ Ha), Ha. f_equal. exact IH.
Qed.

Lemma tagEmit_contents mb decoration p a m e m1 ext :
  tagEmit mb decoration p a m = (e, m1) ->
  load m p = Some a ->
  contents e (m1 ++ ext) = tagContent mb decoration a.
Proof.
  unfold tagEmit, tagContent, contents. intros He Hp.
  destruct (tagsForMatching a) as [|t src].
  - destruct (keeps decoration (mb "")); injection He as <- <-; simpl; [|done].
    by rewrite (store_grows _ _ _ _ Hp).
  - destruct (List.filter _ (t :: src)) as [|t' tags']; injection He as <- <-.
    + done.
    + cbn [omap list_omap]. by rewrite (store_grows _ _ _ _ (load_new m _)).
Qed.

(** The records a run of a tag rule returns are, in order, what the
    artifacts of the input turn into. *)
Lemma tagRun_contents mb decoration artifacts m es m' :
  allocated artifacts m ->
  tagRun mb decoration artifacts m = Some (es, m') ->
  contents es m' = flat_map (tagContent mb decoration) (contents artifacts m).
Proof.
  revert m es m'. induction artifacts as [|p rest IH]; intros m es m' Hall; simpl.
  - by intros [= <- <-].
  - apply Forall_cons in Hall as [[a Hp] Hrest].
    unfold contents at 2. cbn [omap list_omap]. rewrite Hp.
    fold (contents rest m).
    destruct (tagEmit mb decoration p a m) as [e m1] eqn:He.
    destruct (tagRun mb decoration rest m1) as [[es' m2]|] eqn:Hrun;
      [|discriminate].
    intros [= <- <-].
    assert (exists ext1, m1 = m ++ ext1) as [ext1 ->].
    { apply tagEmit_cases in He as [[_ ->]|(tags & _ & _ & ->)]; [|by eexists].
      exists []. by rewrite app_nil_r. }
    destruct (tagRun_store _ _ _ _ _ _ Hrun) as (ext & -> & _ & _).
    rewrite contents_app, (tagEmit_contents _ _ _ _ _ _ _ ext He Hp).
    rewrite (IH _ _ _ (allocated_grows _ _ ext1 Hrest) Hrun).
    by rewrite contents_grows.
Qed.

(** A tag rule returns a reference it was given only for an artifact
    without tags to look at. *)
Lemma tagRun_originals mb decoration artifacts m es m' q a :
  allocated artifacts m ->
  tagRun mb decoration artifacts m = Some (es, m') ->
  q ∈ es ->
  load m q = Some a ->
  q ∈ artifacts /\ tagsForMatching a = [] /\ keeps decoration (mb "") = true.
Proof.
  revert m es m'. induction artifacts as [|p rest IH]; intros m es m' Hall; simpl.
  - intros [= <- <-]. by intros ?%elem_of_nil.
  - apply Forall_cons in Hall as [[a0 Hp] Hrest]. rewrite Hp.
    destruct (tagEmit mb decoration p a0 m) as [e m1] eqn:He.
    destruct (tagRun mb decoration rest m1) as [[es' m2]|] eqn:Hrun;
      [|discriminate].
    intros [= <- <-] [Hq|Hq]%elem_of_app Hl.
    + unfold tagEmit in He. destruct (tagsForMatching a0) as [|t src] eqn:Esrc.
      * destruct (keeps decoration (mb "")) eqn:Ek; injection He as <- <-;
          [|by apply elem_of_nil in Hq].
        apply list_elem_of_singleton in Hq as ->.
        rewrite Hp in Hl. injection Hl as <-. split; [by left|done].
      * destruct (List.filter _ (t :: src)); injection He as <- <-;
          [by apply elem_of_nil in Hq|].
        apply list_elem_of_singleton in Hq as ->.
        by rewrite load_new_None in Hl.
    + assert (exists ext1, m1 = m ++ ext1) as [ext1 ->].
      { apply tagEmit_cases in He as [[_ ->]|(tags & _ & _ & ->)]; [|by eexists].
        exists []. by rewrite app_nil_r. }
      destruct (IH _ _ _ (allocated_grows _ _ ext1 Hrest) Hrun Hq
                  (store_grows _ _ _ _ Hl)) as (H1 & H2 & H3).
      split; [by right|done].
Qed.

Lemma filter_idem {A} (f : A -> bool) (l : list A) :
  List.filter f (List.filter f l) = List.filter f l.
Proof.
  induction l as [|x l IH]; simpl; [done|].
  destruct (f x) eqn:E; simpl; by rewrite ?E, IH.
Qed.

Lemma tagContent_plain mb decoration a :
  Artifact.IsAcc a = false ->
  tagContent mb decoration a =
  match Artifact.Tags a with
  | [] => if keeps decoration (mb "") then [a] else []
  | src =>
      match List.filter (fun t => keeps decoration (mb t)) src with
      | [] => []
      | tags => [narrowed a tags]
      end
  end.
Proof.
  intros H. unfold tagContent, tagsForMatching. rewrite H.
  destruct (Artifact.Tags a) as [|t src]; [done|].
  by destruct (List.filter _ (t :: src)).
Qed.

(** For an artifact that is not an accessory, the record a tag rule turns
    it into is left as it is by the same rule. *)
Lemma tagContent_idem mb decoration a b :
  Artifact.IsAcc a = false ->
  b ∈ tagContent mb decoration a ->
  Artifact.IsAcc b = false /\ tagContent mb decoration b = [b].
Proof.
  intros Hacc. rewrite (tagContent_plain _ _ a Hacc).
  destruct (Artifact.Tags a) as [|t src] eqn:Etags.
  - destruct (keeps decoration (mb "")) eqn:Ek; [|by intros ?%elem_of_nil].
    intros ->%list_elem_of_singleton. split; [done|].
    by rewrite (tagContent_plain _ _ a Hacc), Etags, Ek.
  - destruct (List.filter _ (t :: src)) as [|t' tags'] eqn:Ef;
      [by intros ?%elem_of_nil|].
    intros ->%list_elem_of_singleton. split; [done|].
    rewrite tagContent_plain by done. cbn [Artifact.Tags narrowed].
    pose proof (filter_idem (fun t => keeps decoration (mb t)) (t :: src)) as Hi.
    rewrite Ef in Hi. by rewrite Hi.
Qed.

Lemma flat_map_tagContent_idem mb decoration (l : list Artifact.t) :
  Forall (fun a => Artifact.IsAcc a = false) l ->
  flat_map (tagContent mb decoration) (flat_map (tagContent mb decoration) l)
  = flat_map (tagContent mb decoration) l.
Proof.
  induction 1 as [|a l Ha _ IH]; simpl; [done|].
  rewrite flat_map_app, IH. f_equal.
  assert (forall b, b ∈ tagContent mb decoration a ->
            tagContent mb decoration b = [b]) as Hb.
  { intros b Hb. by apply (tagContent_idem _ _ a) in Hb as [_ ?]. }
  revert Hb. generalize (tagContent mb decoration a). intros k Hk.
  induction k as [|b k IHk]; simpl; [done|].
  rewrite Hk by left. simpl. f_equal. apply IHk. intros c Hc. apply Hk. by right.
Qed.

Section TagErrors.

Context {L : Library}.

Lemma narrow_Err (mt : string -> error + bool) d tags acc m t e' :
  t ∈ tags -> mt t = inl e' ->
  exists e, forRange tags (narrowBody mt d) acc m = Err e.
Proof.
  intros Ht Hmt. revert acc. induction tags as [|t0 tags IH]; intros acc.
  - by apply elem_of_nil in Ht.
  - rewrite forRange_cons, narrowBody_eq.
    destruct (mt t0) as [e|b] eqn:E; [by exists e|].
    apply elem_of_cons in Ht as [->|Ht]; [congruence|]. by apply IH.
Qed.

Lemma narrow_no_Panic (mt : string -> error + bool) d tags acc m x :
  forRange tags (narrowBody mt d) acc m <> Panic x.
Proof.
  revert acc. induction tags as [|t tags IH]; intros acc; [done|].
  rewrite forRange_cons, narrowBody_eq. destruct (mt t); [done|]. apply IH.
Qed.

Lemma tagBody_reports (mt : string -> error + bool) d p a result m t e' :
  load m p = Some a -> t ∈ examined a -> mt t = inl e' ->
  exists e, tagBody mt d p result m = Err e.
Proof.
  intros Hp Ht Hmt. unfold tagBody, examined, tagsForMatching in *.
  unfold bind at 1, deref. rewrite Hp. rewrite !app_nil_l.
  destruct (if Artifact.IsAcc a then _ else _) as [|t0 src].
  - apply list_elem_of_singleton in Ht as ->. simpl. unfold bind, try.
    rewrite Hmt. by eexists.
  - change (length (t0 :: src) =? 0) with false. cbv iota. unfold bind at 1.
    destruct (narrow_Err mt d (t0 :: src) [] m t e' Ht Hmt) as [e ->].
    by exists e.
Qed.

Lemma tagBody_returns (mt : string -> error + bool) d p a result m :
  load m p = Some a ->
  (exists e, tagBody mt d p result m = Err e) \/
  (exists out ext, tagBody mt d p result m = Ok (out, m ++ ext)).
Proof.
  intros Hp.
  destruct (tagBody mt d p result m) as [[out m1]|e|x] eqn:E.
  - right. apply tagBody_sound in E as (a' & Ha' & -> & ->).
    destruct (tagEmit (boolOf mt) d p a' m) as [e m1] eqn:He. simpl.
    apply tagEmit_cases in He as [[_ ->]|(tags & _ & _ & ->)].
    + exists (result ++ e), []. by rewrite app_nil_r.
    + by eexists _, _.
  - left. by exists e.
  - exfalso. revert E. unfold tagBody, bind at 1, deref. rewrite Hp.
    destruct (length _ =? 0).
    + unfold bind, try. destruct (mt "") as [e|b]; [done|].
      rewrite decorate_if. by destruct (keeps d b).
    + unfold bind at 1.
      destruct (forRange _ (narrowBody mt d) [] m) as [[tags m1]|e|y] eqn:En.
      * destruct (length tags =? 0); [done|]. by destruct (Artifact.IsAcc a).
      * done.
      * by apply narrow_no_Panic in En.
Qed.

Lemma tagLoop_reports (mt : string -> error + bool) d artifacts result m p a t e' :
  allocated artifacts m ->
  p ∈ artifacts -> load m p = Some a -> t ∈ examined a -> mt t = inl e' ->
  exists e, forRange artifacts (tagBody mt d) result m = Err e.
Proof.
  intros Hall Hin Hp Ht Hmt. revert result m Hall Hp.
  induction artifacts as [|p0 rest IH]; intros result m Hall Hp.
  - by apply elem_of_nil in Hin.
  - apply Forall_cons in Hall as [[a0 Hp0] Hrest]. rewrite forRange_cons.
    apply elem_of_cons in Hin as [->|Hin].
    + destruct (tagBody_reports mt d p0 a result m t e' Hp Ht Hmt) as [e ->].
      by exists e.
    + destruct (tagBody_returns mt d p0 a0 result m Hp0)
        as [[e ->]|(out & ext & ->)]; [by exists e|].
      apply IH; [done|by apply allocated_grows|by apply store_grows].
Qed.

End TagErrors.

(** X13. If [util.Match] fails on one of the strings a glob tag rule hands
    it for an artifact of the list (a tag it looks at, or the empty string
    for an artifact without such tags), the rule returns an error, one that
    [util.Match] returned for its pattern, and no artifact list. *)
Theorem glob_match_failure_is_returned {L : Library} (pattern decoration : string)
    (artifacts : list ptr) (m : Mem) (p : ptr) (a : Artifact.t)
    (t : string) (e' : error) :
  pattern <> "" ->
  allocated artifacts m ->
  p ∈ artifacts ->
  load m p = Some a ->
  t ∈ examined a ->
  util_Match pattern t = inl e' ->
  exists e, Filter (artifactTagFilter pattern decoration) artifacts m = Err e /\
            exists t', util_Match pattern t' = inl e.
Proof.
  intros Hne Hall Hp Ha Ht Hmt.
  assert (exists e, Filter (artifactTagFilter pattern decoration) artifacts m = Err e)
    as [e He].
  { unfold Filter. rewrite tagFilter_glob_unfold.
    destruct pattern as [|c pattern]; [done|]. simpl.
    by eapply tagLoop_reports. }
  exists e. split; [done|]. by apply Filter_Err in He as [_ ?].
Qed.

Lemma glob_match_failure_is_returned_witness :
  let a := Artifact.mk "image" "sha256:1" [] ["v1"] false [] in
  exists e,
    Filter (L := Fragment.lib) (artifactTagFilter "[" Matches) [Some 0] [a] = Err e /\
    exists t', util_Match (Library := Fragment.lib) "[" t' = inl e.
Proof.
  intros a.
  apply (glob_match_failure_is_returned (L := Fragment.lib) "[" Matches
           [Some 0] [a] (Some 0) a "v1" "syntax error in pattern").
  - discriminate.
  - repeat (constructor; [eexists; reflexivity|]). constructor.
  - by left.
  - reflexivity.
  - by left.
  - reflexivity.
Defined.

(** X14. A glob or regex tag rule with a non-empty, well-formed pattern,
    run on a list whose references all point to records, returns, and the
    records it returns are in input order what each artifact turns into:
    nothing, when none of the tags looked at is kept (or, without such
    tags, the empty string is not); the artifact itself when it has no tags
    to look at and the empty string is kept; otherwise a record with the
    same type, digest and labels whose tags are the kept tags in order, or,
    for an accessory, its own tags. Kept means matched, under the decoration
    excludes not matched. *)
Theorem tag_rule_contents {L : Library} (k : tagKind) (pattern decoration : string)
    (mb : string -> bool) (artifacts : list ptr) (m : Mem) :
  pattern <> "" ->
  usable k pattern mb ->
  allocated artifacts m ->
  exists out m',
    Filter (tagFilter k pattern decoration) artifacts m = Ok (out, m') /\
    contents out m' = flat_map (tagContent mb decoration) (contents artifacts m).
Proof.
  intros Hne Hus Hall.
  destruct (tagRun_total mb decoration artifacts m Hall) as [[out m'] Hrun].
  exists out, m'. split; [by eapply tagFilter_complete|].
  by apply tagRun_contents.
Qed.

Lemma tag_rule_contents_witness :
  let a := Artifact.mk "image" "sha256:1" ["stable"] ["v1"; "v2"; "latest"] false [] in
  let b := Artifact.mk "image" "sha256:2" [] [] false [] in
  let c := Artifact.mk "image" "sha256:3" [] ["v3"] false [] in
  exists out m',
    Filter (L := Fragment.lib) (tagFilter glob "v*" Excludes)
      [Some 0; Some 1; Some 2] [a; b; c] = Ok (out, m') /\
    contents out m'
    = flat_map (tagContent (Fragment.glob "v*") Excludes)
        (contents [Some 0; Some 1; Some 2] [a; b; c]).
Proof.
  intros a b c.
  apply (tag_rule_contents (L := Fragment.lib) glob "v*" Excludes (Fragment.glob "v*")
           [Some 0; Some 1; Some 2] [a; b; c]).
  - discriminate.
  - intros s. reflexivity.
  - repeat (constructor; [eexists; reflexivity|]). constructor.
Defined.

(** X15. A tag rule with a non-empty pattern never hands back the input
    record of an artifact whose tags it looked at: a reference of the output
    that points into the input store belongs to the input list, its artifact
    has no tags to look at, the empty string was kept, and the record is
    unchanged. Every other output reference is a new record. *)
Theorem tag_rule_returns_only_untagged_originals {L : Library} (k : tagKind)
    (pattern decoration : string) (artifacts : list ptr) (m : Mem)
    (out : list ptr) (m' : Mem) (q : ptr) (a : Artifact.t) :
  pattern <> "" ->
  allocated artifacts m ->
  Filter (tagFilter k pattern decoration) artifacts m = Ok (out, m') ->
  q ∈ out ->
  load m q = Some a ->
  q ∈ artifacts /\ tagsForMatching a = [] /\
  keeps decoration (matcherOf k pattern "") = true /\
  load m' q = Some a.
Proof.
  intros Hne Hall Hrun Hq Ha.
  apply tagFilter_sound in Hrun; [|done].
  destruct (tagRun_originals _ _ _ _ _ _ _ _ Hall Hrun Hq Ha) as (H1 & H2 & H3).
  destruct (tagRun_store _ _ _ _ _ _ Hrun) as (ext & -> & _ & _).
  repeat split; try done. by apply store_grows.
Qed.

Lemma tag_rule_returns_only_untagged_originals_witness :
  let a := Artifact.mk "image" "sha256:1" [] ["v1"; "latest"] false [] in
  let b := Artifact.mk "image" "sha256:2" [] [] false [] in
  Some 1 ∈ [Some 0; Some 1] /\ tagsForMatching b = [] /\
  keeps Matches (matcherOf (L := Fragment.lib) glob "*" "") = true /\
  load [a; b; narrowed a ["v1"; "latest"]] (Some 1) = Some b.
Proof.
  intros a b.
  apply (tag_rule_returns_only_untagged_originals (L := Fragment.lib) glob "*"
           Matches [Some 0; Some 1] [a; b] [Some 2; Some 1]
           [a; b; narrowed a ["v1"; "latest"]] (Some 1) b).
  - discriminate.
  - repeat (constructor; [eexists; reflexivity|]). constructor.
  - reflexivity.
  - right. by left.
  - reflexivity.
Defined.

(** X16. On a list without accessories, a tag rule with a non-empty,
    well-formed pattern is idempotent on contents: run again on its own
    output it returns records equal, one by one, to those it was given.
    (For an accessory this fails: the record that stands for it is no
    accessory any more, see C10.) *)
Theorem tag_rule_twice {L : Library} (k : tagKind) (pattern decoration : string)
    (mb : string -> bool) (artifacts : list ptr) (m : Mem) :
  pattern <> "" ->
  usable k pattern mb ->
  allocated artifacts m ->
  Forall (fun a => Artifact.IsAcc a = false) (contents artifacts m) ->
  exists out1 m1 out2 m2,
    Filter (tagFilter k pattern decoration) artifacts m = Ok (out1, m1) /\
    Filter (tagFilter k pattern decoration) out1 m1 = Ok (out2, m2) /\
    contents out2 m2 = contents out1 m1.
Proof.
  intros Hne Hus Hall Hplain.
  destruct (tagRun_total mb decoration artifacts m Hall) as [[out1 m1] Hrun1].
  destruct (tagRun_store _ _ _ _ _ _ Hrun1) as (ext & -> & _ & Hall1).
  destruct (tagRun_total mb decoration out1 _ Hall1) as [[out2 m2] Hrun2].
  exists out1, (m ++ ext), out2, m2.
  split; [by eapply tagFilter_complete|].
  split; [by eapply tagFilter_complete|].
  rewrite (tagRun_contents _ _ _ _ _ _ Hall1 Hrun2).
  rewrite (tagRun_contents _ _ _ _ _ _ Hall Hrun1).
  by apply flat_map_tagContent_idem.
Qed.

Lemma tag_rule_twice_witness :
  let a := Artifact.mk "image" "sha256:1" ["stable"] ["v1"; "v2"; "latest"] false [] in
  let b := Artifact.mk "image" "sha256:2" [] [] false [] in
  exists out1 m1 out2 m2,
    Filter (L := Fragment.lib) (tagFilter regex "^v" Matches) [Some 0; Some 1] [a; b]
      = Ok (out1, m1) /\
    Filter (L := Fragment.lib) (tagFilter regex "^v" Matches) out1 m1 = Ok (out2, m2) /\
    contents out2 m2 = contents out1 m1.
Proof.
  intros a b.
  apply (tag_rule_twice (L := Fragment.lib) regex "^v" Matches
           (Fragment.search (Fragment.Cat Fragment.Bol (Fragment.Char "v")))
           [Some 0; Some 1] [a; b]).
  - discriminate.
  - eexists. split; reflexivity.
  - repeat (constructor; [eexists; reflexivity|]). constructor.
  - repeat constructor.
Defined.

(* ================================================================== *)
(** ** Further properties: the label-regex rule *)
(* ================================================================== *)

Section LabelRegex.

Context {L : Library}.

(** The loop over the labels of one artifact, from position [k] on, when
    every position it reaches is below the length of the artifact list. *)
Lemma regexLabels_eq (re : Regexp) (artifacts : list ptr) (ls : list string)
    (k : nat) (s : bool) m :
  allocated artifacts m ->
  k + length ls <= length artifacts ->
  forRangeBrk (zip (seq k (length ls)) ls) (fun il match_ =>
    let exists_ := MatchString re il.2 in
    do other <- index artifacts il.1;
    do _ <- deref other;
    if negb exists_ then ret (Break false) else ret (Next match_)) s m
  = Ok (if forallb (MatchString re) ls then Next s else Break false, m).
Proof.
  intros Hall. revert k. induction ls as [|l ls IH]; intros k Hk; [done|].
  simpl in Hk. cbn [length seq zip zip_with].
  etrans; [apply forRangeBrk_cons|].
  cbn [fst snd]. unfold bind, index, deref.
  destruct (lookup_lt_is_Some_2 artifacts k) as [other Ho]; [lia|].
  rewrite Ho. unfold ret at 1.
  assert (is_Some (load m other)) as [a Ha].
  { apply (proj1 (Forall_forall _ _) Hall). by eapply list_elem_of_lookup_2. }
  rewrite Ha. simpl. destruct (MatchString re l); simpl; [|done].
  unfold ret. apply IH. lia.
Qed.

(** The same loop when the labels outnumber the artifacts: it reaches the
    position that is the length of the list, unless a label before that one
    is not matched. *)
Lemma regexLabels_panics (re : Regexp) (artifacts : list ptr)
    (pre : list string) (l : string) (post : list string) (k : nat) (s : bool) m :
  allocated artifacts m ->
  k + length pre = length artifacts ->
  forallb (MatchString re) pre = true ->
  forRangeBrk (zip (seq k (length (pre ++ l :: post))) (pre ++ l :: post))
    (fun il match_ =>
      let exists_ := MatchString re il.2 in
      do other <- index artifacts il.1;
      do _ <- deref other;
      if negb exists_ then ret (Break false) else ret (Next match_)) s m
  = Panic (IndexOutOfRange (length artifacts) (length artifacts)).
Proof.
  intros Hall. revert k. induction pre as [|l0 pre IH]; intros k Hk Hpre.
  - simpl in Hk. rewrite Nat.add_0_r in Hk. subst k.
    cbn [length app seq zip zip_with].
    etrans; [apply forRangeBrk_cons|]. cbn [fst snd]. unfold bind, index.
    by rewrite (lookup_ge_None_2 artifacts (length artifacts)) by lia.
  - simpl in Hk, Hpre. apply andb_true_iff in Hpre as [Hl0 Hpre].
    cbn [length app seq zip zip_with].
    etrans; [apply forRangeBrk_cons|].
    cbn [fst snd]. unfold bind, index, deref.
    destruct (lookup_lt_is_Some_2 artifacts k) as [other Ho]; [lia|].
    rewrite Ho. unfold ret at 1.
    assert (is_Some (load m other)) as [a Ha].
    { apply (proj1 (Forall_forall _ _) Hall). by eapply list_elem_of_lookup_2. }
    rewrite Ha, Hl0. simpl. unfold ret. apply IH; [lia|done].
Qed.

Lemma regexPatterns_eq (labels : list string) (res : list Regexp)
    (artifacts : list ptr) p a (s : bool) m :
  Forall2 (fun l re => regexp_Compile l = inr re) labels res ->
  allocated artifacts m ->
  load m p = Some a ->
  length (Artifact.Labels a) <= length artifacts ->
  forRangeBrk labels (fun label match_ =>
    do filterRegexPattern <- try (regexp_Compile label);
    do a <- deref p;
    forRangeBrk (indexed (Artifact.Labels a)) (fun il match_ =>
      let exists_ := MatchString filterRegexPattern il.2 in
      do other <- index artifacts il.1;
      do _ <- deref other;
      if negb exists_ then ret (Break false) else ret (Next match_))
      match_) s m
  = Ok (if everyLabelMatches res a then Next s else Break false, m).
Proof.
  intros Hres Hall Hp Hlen. unfold everyLabelMatches.
  induction Hres as [|l re labels res Hl _ IH]; [done|].
  rewrite forRangeBrk_cons. unfold bind at 1, try at 1. rewrite Hl.
  unfold bind at 1, deref at 1. rewrite Hp. unfold indexed.
  rewrite regexLabels_eq by done. simpl.
  destruct (forallb (MatchString re) (Artifact.Labels a)); [exact IH|done].
Qed.

Lemma labelRegexAnalysis_eq (labels : list string) (res : list Regexp)
    (artifacts : list ptr) p a m :
  Forall2 (fun l re => regexp_Compile l = inr re) labels res ->
  allocated artifacts m ->
  load m p = Some a ->
  length (Artifact.Labels a) <= length artifacts ->
  labelRegexAnalysis labels artifacts p m = Ok (everyLabelMatches res a, m).
Proof.
  intros Hres Hall Hp Hlen. unfold labelRegexAnalysis. unfold bind at 1.
  rewrite (regexPatterns_eq labels res artifacts p a) by done.
  unfold ret. by destruct (everyLabelMatches res a).
Qed.

Lemma labelRegexAnalysis_panics (label : string) (labels : list string)
    (re : Regexp) (artifacts : list ptr) p a m
    (pre : list string) (l : string) (post : list string) :
  regexp_Compile label = inr re ->
  allocated artifacts m ->
  load m p = Some a ->
  Artifact.Labels a = pre ++ l :: post ->
  length pre = length artifacts ->
  forallb (MatchString re) pre = true ->
  labelRegexAnalysis (label :: labels) artifacts p m
  = Panic (IndexOutOfRange (length artifacts) (length artifacts)).
Proof.
  intros Hre Hall Hp Hlabels Hlen Hpre.
  pose proof (regexLabels_panics re artifacts pre l post 0 true m Hall Hlen Hpre)
    as Hloop.
  unfold labelRegexAnalysis. unfold bind at 1.
  replace (forRangeBrk (label :: labels) _ true m)
    with (@Panic (flow bool * Mem)
            (IndexOutOfRange (length artifacts) (length artifacts))); [done|].
  symmetry. etrans; [apply forRangeBrk_cons|].
  unfold bind at 1, try at 1. rewrite Hre.
  unfold bind at 1, deref at 1. rewrite Hp. unfold indexed. rewrite Hlabels.
  cbv zeta in Hloop. by rewrite Hloop.
Qed.

End LabelRegex.

(** X17. What the label-regex rule computes. With at least one pattern, all
    patterns compiling, on a list whose references all point to records and
    none of whose artifacts has more labels than the list has elements, the
    rule returns in input order exactly the references whose artifact has
    every label matched by every pattern (decoration other than excludes),
    or has a label that some pattern does not match (excludes); an artifact
    without labels counts as matched. The store is unchanged. *)
Theorem label_regex_selects {L : Library} (labels : list string)
    (res : list Regexp) (decoration : string) (artifacts : list ptr) (m : Mem) :
  labels <> [] ->
  Forall2 (fun l re => regexp_Compile l = inr re) labels res ->
  allocated artifacts m ->
  Forall (fun p => forall a, load m p = Some a ->
                     length (Artifact.Labels a) <= length artifacts) artifacts ->
  Filter (artifactLabelFilterRegex labels decoration) artifacts m
  = Ok (select (fun a => keeps decoration (everyLabelMatches res a)) artifacts m, m).
Proof.
  intros Hne Hres Hall Hfit. unfold Filter. rewrite labelRegexFilter_unfold.
  destruct labels as [|l0 labels]; [done|].
  change (length (l0 :: labels) =? 0) with false. cbv iota.
  rewrite (forRange_emit_in artifacts _
             (fun p => match load m p with
                       | Some a =>
                           if keeps decoration (everyLabelMatches res a)
                           then [p] else []
                       | None => []
                       end)).
  - by rewrite flat_map_select.
  - intros p result Hp. rewrite decorated_eq.
    apply (proj1 (Forall_forall _ _) Hall) in Hp as Ha. destruct Ha as [a Ha].
    pose proof (proj1 (Forall_forall _ _) Hfit p Hp a Ha) as Hlen.
    rewrite (labelRegexAnalysis_eq _ res _ _ a) by auto. rewrite Ha.
    destruct (keeps decoration _); by rewrite ?app_nil_r.
Qed.

Lemma label_regex_selects_witness :
  let a := Artifact.mk "image" "sha256:1" ["v1.0"; "v2"] ["t"] false [] in
  let b := Artifact.mk "image" "sha256:2" ["v1.0"; "stable"] ["t"] false [] in
  let c := Artifact.mk "image" "sha256:3" [] ["t"] false [] in
  let re := Fragment.Cat Fragment.Bol
              (Fragment.Cat (Fragment.Char "v") (Fragment.Star Fragment.AnyChar)) in
  Filter (L := Fragment.lib) (artifactLabelFilterRegex ["^v.*"] Matches)
    [Some 0; Some 1; Some 2] [a; b; c]
  = Ok (select (fun x => keeps Matches (everyLabelMatches (L := Fragment.lib) [re] x))
          [Some 0; Some 1; Some 2] [a; b; c], [a; b; c]).
Proof.
  intros a b c re.
  apply (label_regex_selects (L := Fragment.lib) ["^v.*"] [re] Matches
           [Some 0; Some 1; Some 2] [a; b; c]).
  - discriminate.
  - repeat constructor.
  - repeat (constructor; [eexists; reflexivity|]). constructor.
  - repeat (constructor; [intros x [= <-]; simpl; lia|]). constructor.
Defined.

(** X18. The label-regex rule indexes the artifact list with the position
    of the label it is looking at. When the first artifact has more labels
    than the list has elements, the first pattern compiles and matches the
    labels at the positions below the length of the list, the call panics
    with an index out of range at that length. *)
Theorem label_regex_index_out_of_range {L : Library} (label : string)
    (labels : list string) (re : Regexp) (decoration : string)
    (p : ptr) (rest : list ptr) (a : Artifact.t) (m : Mem)
    (pre : list string) (l : string) (post : list string) :
  regexp_Compile label = inr re ->
  allocated (p :: rest) m ->
  load m p = Some a ->
  Artifact.Labels a = pre ++ l :: post ->
  length pre = length (p :: rest) ->
  forallb (MatchString re) pre = true ->
  Filter (artifactLabelFilterRegex (label :: labels) decoration) (p :: rest) m
  = Panic (IndexOutOfRange (length (p :: rest)) (length (p :: rest))).
Proof.
  intros Hre Hall Hp Hlabels Hlen Hpre.
  unfold Filter. rewrite labelRegexFilter_unfold.
  change (length (label :: labels) =? 0) with false. cbv iota.
  rewrite forRange_cons, decorated_eq.
  by rewrite (labelRegexAnalysis_panics label labels re (p :: rest) p a m
                pre l post).
Qed.

Lemma label_regex_index_out_of_range_witness :
  let a := Artifact.mk "image" "sha256:1" ["v1.0"; "stable"] ["t"] false [] in
  Filter (L := Fragment.lib) (artifactLabelFilterRegex ["^v.*"; "^s.*"] Matches)
    [Some 0] [a]
  = Panic (IndexOutOfRange 1 1).
Proof.
  intros a.
  apply (label_regex_index_out_of_range (L := Fragment.lib) "^v.*" ["^s.*"]
           (Fragment.Cat Fragment.Bol
              (Fragment.Cat (Fragment.Char "v") (Fragment.Star Fragment.AnyChar)))
           Matches (Some 0) [] a [a] ["v1.0"] "stable" []).
  - reflexivity.
  - repeat (constructor; [eexists; reflexivity|]). constructor.
  - reflexivity.
  - reflexivity.
  - reflexivity.
  - reflexivity.
Defined.
(* ================================================================== *)
(** ** Further properties: the artifact list as a slice *)
(* ================================================================== *)

Section SliceRuns.

Context {L : Library} {R : Slices.Runtime}.

Lemma append_Ok s x h : exists s' h', Slices.append s x h = Ok (s', h').
Proof.
  unfold Slices.append, Slices.grown.
  destruct (Slices.array s); [destruct (_ <? _)|]; eauto.
Qed.

Lemma bind_lift {X Y} (c : M X) (K : X -> Slices.St Y) m A :
  Slices.bind (Slices.lift c) K (Slices.mkHeap m A) =
  match c m with
  | Ok (a, m1) => K a (Slices.mkHeap m1 A)
  | Err e => Err e
  | Panic p => Panic p
  end.
Proof. unfold Slices.bind, Slices.lift. simpl. by destruct (c m) as [[a m1]| |]. Qed.

Lemma lift_eq {X} (c : M X) m A :
  Slices.lift c (Slices.mkHeap m A) =
  match c m with
  | Ok (a, m1) => Ok (a, Slices.mkHeap m1 A)
  | Err e => Err e
  | Panic p => Panic p
  end.
Proof. reflexivity. Qed.

Lemma bind_congr {X Y} (c c' : Slices.St X) (K : X -> Slices.St Y) h :
  c h = c' h -> Slices.bind c K h = Slices.bind c' K h.
Proof. unfold Slices.bind. by intros ->. Qed.

Lemma bind_eq {X Y} (c : M X) (k : X -> M Y) m :
  bind c k m =
  match c m with
  | Ok (a, m1) => k a m1
  | Err e => Err e
  | Panic p => Panic p
  end.
Proof. reflexivity. Qed.

Lemma valid_records m m' A s :
  Slices.valid (Slices.mkHeap m A) s -> Slices.valid (Slices.mkHeap m' A) s.
Proof. done. Qed.

Lemma elems_records m m' A s :
  Slices.elems (Slices.mkHeap m A) s = Slices.elems (Slices.mkHeap m' A) s.
Proof. done. Qed.

Lemma valid_length h s :
  Slices.valid h s -> length (Slices.elems h s) = Slices.len s.
Proof.
  unfold Slices.valid, Slices.elems, Slices.cells. intros [Hlen H].
  destruct (Slices.array s) as [i|].
  - destruct H as (c & -> & Hc). simpl.
    rewrite length_take_le; [done|]. rewrite length_drop. lia.
  - rewrite take_nil. simpl. lia.
Qed.

(** [append] on a slice of the run's own: the elements get [x] at their
    end, the slice stays the run's own, and the first [n] arrays are left
    alone. *)
Lemma append_spec n m A s x :
  Slices.valid (Slices.mkHeap m A) s -> fresh n s -> n <= length A ->
  exists s' A',
    Slices.append s x (Slices.mkHeap m A) = Ok (s', Slices.mkHeap m A') /\
    Slices.valid (Slices.mkHeap m A') s' /\ fresh n s' /\
    Slices.elems (Slices.mkHeap m A') s' = Slices.elems (Slices.mkHeap m A) s ++ [x] /\
    take n A' = take n A /\ length A <= length A'.
Proof.
  intros Hv Hf Hn. pose proof (valid_length _ _ Hv) as Hl.
  assert (forall c, c = Nat.max (S (Slices.len s))
                          (Slices.growslice (Slices.cap s) (S (Slices.len s))) ->
    let cellsN := Slices.elems (Slices.mkHeap m A) s ++ x :: replicate (c - S (Slices.len s)) None in
    let s' := Slices.Slice (Some (length A)) 0 (S (Slices.len s)) c in
    Slices.valid (Slices.mkHeap m (A ++ [cellsN])) s' /\ fresh n s' /\
    Slices.elems (Slices.mkHeap m (A ++ [cellsN])) s'
      = Slices.elems (Slices.mkHeap m A) s ++ [x] /\
    take n (A ++ [cellsN]) = take n A /\ length A <= length (A ++ [cellsN])) as Hgrow.
  { intros c Hc cellsN s'. split; [|split; [|split; [|split]]].
    - split; [simpl; lia|]. simpl. exists cellsN.
      split; [by rewrite lookup_app_r, Nat.sub_diag by lia|].
      unfold cellsN. rewrite length_app, Hl. simpl. rewrite length_replicate. lia.
    - done.
    - unfold Slices.elems at 1, Slices.cells. simpl.
      rewrite lookup_app_r, Nat.sub_diag by lia. simpl. unfold cellsN.
      rewrite drop_0.
      change (x :: replicate (c - S (Slices.len s)) None)
        with ([x] ++ replicate (c - S (Slices.len s)) None).
      rewrite app_assoc. apply take_app_length'.
      rewrite length_app, Hl. simpl. lia.
    - by rewrite take_app_le.
    - rewrite length_app. simpl. lia. }
  unfold Slices.append, Slices.grown.
  destruct (Slices.array s) as [i|] eqn:Ei.
  - destruct (Slices.len s <? Slices.cap s) eqn:Elt.
    + apply Nat.ltb_lt in Elt.
      destruct Hv as [Hle Hv]. rewrite Ei in Hv. destruct Hv as (c & HAi & Hc). simpl in HAi.
      unfold fresh in Hf. rewrite Ei in Hf.
      eexists _, _. split; [reflexivity|]. split; [|split; [|split; [|split]]].
      * split; [simpl; lia|]. simpl. exists (<[Slices.start s + Slices.len s := x]> c).
        split; [by rewrite list_lookup_alter_eq, HAi|]. by rewrite length_insert.
      * done.
      * unfold Slices.elems, Slices.cells. simpl. rewrite Ei.
        rewrite list_lookup_alter_eq, HAi. simpl.
        rewrite drop_insert_ge by lia.
        replace (Slices.start s + Slices.len s - Slices.start s) with (Slices.len s) by lia.
        rewrite (take_S_r _ _ x).
        -- by rewrite take_insert_ge by lia.
        -- apply list_lookup_insert_eq. rewrite length_drop. lia.
      * by rewrite take_alter_ge.
      * by rewrite length_alter.
    + eexists _, _. split; [reflexivity|]. by apply Hgrow.
  - eexists _, _. split; [reflexivity|]. by apply Hgrow.
Qed.

Lemma appendAll_spec n m A s ys :
  Slices.valid (Slices.mkHeap m A) s -> fresh n s -> n <= length A ->
  exists s' A',
    appendAll s ys (Slices.mkHeap m A) = Ok (s', Slices.mkHeap m A') /\
    Slices.valid (Slices.mkHeap m A') s' /\ fresh n s' /\
    Slices.elems (Slices.mkHeap m A') s' = Slices.elems (Slices.mkHeap m A) s ++ ys /\
    take n A' = take n A /\ length A <= length A'.
Proof.
  unfold appendAll. revert s A.
  induction ys as [|y ys IH]; intros s A Hv Hf Hn.
  - exists s, A. rewrite app_nil_r. done.
  - destruct (append_spec n m A s y Hv Hf Hn) as (s1 & A1 & Ha & Hv1 & Hf1 & He1 & Ht1 & Hl1).
    destruct (IH s1 A1 Hv1 Hf1 ltac:(lia)) as (s2 & A2 & Hb & Hv2 & Hf2 & He2 & Ht2 & Hl2).
    exists s2, A2. split.
    { simpl. unfold Slices.bind. by rewrite Ha. }
    split; [done|]. split; [done|]. split.
    { by rewrite He2, He1, <- app_assoc. }
    split; [congruence|lia].
Qed.

(** A loop on the records alone, run in the larger state. *)
Lemma forRange_lift {X S} (xs : list X) (BodyS : X -> S -> Slices.St S)
    (body : X -> S -> M S) A :
  (forall x s m, BodyS x s (Slices.mkHeap m A) = Slices.lift (body x s) (Slices.mkHeap m A)) ->
  forall s m,
    Slices.forRange xs BodyS s (Slices.mkHeap m A)
    = Slices.lift (forRange xs body s) (Slices.mkHeap m A).
Proof.
  intros Hb. induction xs as [|x xs IH]; intros s m; [done|].
  simpl. unfold Slices.bind. rewrite Hb. unfold Slices.lift, bind. simpl.
  destruct (body x s m) as [[s' m']| |]; [|done..].
  by rewrite IH.
Qed.

Lemma forRangeBrk_lift {X S} (xs : list X) (BodyS : X -> S -> Slices.St (flow S))
    (body : X -> S -> M (flow S)) A :
  (forall x s m, BodyS x s (Slices.mkHeap m A) = Slices.lift (body x s) (Slices.mkHeap m A)) ->
  forall s m,
    Slices.forRangeBrk xs BodyS s (Slices.mkHeap m A)
    = Slices.lift (forRangeBrk xs body s) (Slices.mkHeap m A).
Proof.
  intros Hb. induction xs as [|x xs IH]; intros s m; [done|].
  simpl. unfold Slices.bind. rewrite Hb. unfold Slices.lift, bind. simpl.
  destruct (body x s m) as [[[s'|s'] m']| |]; [|done..].
  by rewrite IH.
Qed.

(** The elements of a slice on one of the first arrays do not change while
    those arrays stay. *)
Lemma cells_frame m m' A0 A s :
  Slices.valid (Slices.mkHeap m A0) s ->
  take (length A0) A = A0 ->
  Slices.cells (Slices.mkHeap m' A) s = Slices.cells (Slices.mkHeap m A0) s.
Proof.
  intros [_ Hv] Ht. unfold Slices.cells. simpl in *.
  destruct (Slices.array s) as [i|]; [|done].
  destruct Hv as (c & Hc & _). rewrite Hc.
  apply lookup_lt_Some in Hc as Hi.
  by rewrite <- (lookup_take_lt A (length A0) i), Ht, Hc by done.
Qed.

Lemma index_frame m m' A0 A s k x :
  Slices.valid (Slices.mkHeap m A0) s ->
  take (length A0) A = A0 ->
  Slices.elems (Slices.mkHeap m A0) s !! k = Some x ->
  Slices.index s k (Slices.mkHeap m' A) = Ok (x, Slices.mkHeap m' A).
Proof.
  intros Hv Ht Hx. unfold Slices.index.
  rewrite (cells_frame m m' A0 A s Hv Ht).
  apply lookup_lt_Some in Hx as Hk. rewrite (valid_length _ _ Hv) in Hk.
  apply Nat.ltb_lt in Hk as ->.
  unfold Slices.elems in Hx. apply lookup_take_Some in Hx as [-> _]. done.
Qed.

Lemma index_frame_None m m' A0 A s k :
  Slices.valid (Slices.mkHeap m A0) s ->
  Slices.elems (Slices.mkHeap m A0) s !! k = None ->
  Slices.index s k (Slices.mkHeap m' A)
  = Panic (IndexOutOfRange k (length (Slices.elems (Slices.mkHeap m A0) s))).
Proof.
  intros Hv Hx. unfold Slices.index.
  apply lookup_ge_None_1 in Hx. rewrite (valid_length _ _ Hv) in *.
  by apply Nat.ltb_ge in Hx as ->.
Qed.

(** The loop over the artifacts: when the body does on slices what the body
    on lists does, with an [append] for every element the latter adds, so
    do the loops. *)
Lemma forArtifacts_refines (artifacts : Slices.slice)
    (B : ptr -> Slices.slice -> Slices.St Slices.slice)
    (b : ptr -> list ptr -> M (list ptr)) m0 A0 :
  Slices.valid (Slices.mkHeap m0 A0) artifacts ->
  (forall x rl m,
     b x rl m = match b x [] m with
                | Ok (ys, m') => Ok (rl ++ ys, m')
                | Err e => Err e
                | Panic p => Panic p
                end) ->
  (forall x r m A,
     take (length A0) A = A0 ->
     B x r (Slices.mkHeap m A) = match b x [] m with
                                 | Ok (ys, m') => appendAll r ys (Slices.mkHeap m' A)
                                 | Err e => Err e
                                 | Panic p => Panic p
                                 end) ->
  refines (fun out h' outl m' =>
             Slices.records h' = m' /\ Slices.elems h' out = outl /\
             Slices.valid h' out /\ take (length A0) (Slices.arrays h') = A0 /\
             fresh (length A0) out)
    (Slices.forArtifacts artifacts B Slices.nilSlice (Slices.mkHeap m0 A0))
    (forRange (Slices.elems (Slices.mkHeap m0 A0) artifacts) b [] m0).
Proof.
  intros Hv Hb HB. unfold Slices.forArtifacts.
  pose proof (valid_length _ _ Hv) as Hlen.
  set (xs := Slices.elems (Slices.mkHeap m0 A0) artifacts) in *.
  assert (forall d k r rl m A,
    k + d = Slices.len artifacts ->
    Slices.valid (Slices.mkHeap m A) r -> fresh (length A0) r ->
    Slices.elems (Slices.mkHeap m A) r = rl ->
    take (length A0) A = A0 ->
    refines (fun out h' outl m' =>
               Slices.records h' = m' /\ Slices.elems h' out = outl /\
               Slices.valid h' out /\ take (length A0) (Slices.arrays h') = A0 /\
               fresh (length A0) out)
      (Slices.forRange (seq k d)
         (fun i s => Slices.bind (Slices.index artifacts i) (fun artifact => B artifact s))
         r (Slices.mkHeap m A))
      (forRange (drop k xs) b rl m)) as Hloop.
  { induction d as [|d IH]; intros k r rl m A Hk Hr Hf He Ht.
    - rewrite drop_ge by lia. simpl. done.
    - destruct (lookup_lt_is_Some_2 xs k) as [x Hx]; [lia|].
      rewrite (drop_S _ _ _ Hx), forRange_cons, Hb.
      cbn [seq Slices.forRange]. unfold Slices.bind at 1 2.
      rewrite (index_frame m0 m A0 A artifacts k x Hv Ht Hx).
      rewrite (HB _ _ _ _ Ht).
      destruct (b x [] m) as [[ys m']| |]; [|done..].
      assert (length A0 <= length A) as HA.
      { rewrite <- Ht at 1. rewrite length_take. lia. }
      destruct (appendAll_spec (length A0) m' A r ys Hr Hf HA)
        as (r' & A' & -> & Hr' & Hf' & He' & Ht' & Hl').
      apply IH; [lia|done|done| |congruence].
      rewrite He'. f_equal. exact He. }
  specialize (Hloop (Slices.len artifacts) 0 Slices.nilSlice [] m0 A0).
  rewrite drop_0 in Hloop. apply Hloop; try done.
  by rewrite take_ge.
Qed.

Lemma appendAll_nil r h : appendAll r [] h = Ok (r, h).
Proof. reflexivity. Qed.

Lemma appendAll_one r x h : appendAll r [x] h = Slices.append r x h.
Proof.
  unfold appendAll. simpl. unfold Slices.bind.
  by destruct (append_Ok r x h) as (s' & h' & ->).
Qed.

Lemma appendAll_keeps (c : bool) r x h :
  (if c then Slices.append r x else Slices.ret r) h
  = appendAll r (if c then [] ++ [x] else []) h.
Proof. destruct c; cbn [app]; [by rewrite appendAll_one|done]. Qed.

(** The bodies on lists only add to the result. *)
Lemma decorated_appends (analysis : ptr -> M bool) decoration x rl m :
  decorated analysis decoration x rl m =
  match decorated analysis decoration x [] m with
  | Ok (ys, m') => Ok (rl ++ ys, m')
  | Err e => Err e
  | Panic p => Panic p
  end.
Proof.
  rewrite !decorated_eq. destruct (analysis x m) as [[c m1]| |]; [|done..].
  destruct (keeps decoration c); by rewrite ?app_nil_r.
Qed.

(** The body on slices of a loop that ends with the decoration test. *)
Lemma decorated_slices (analysis : ptr -> M bool) decoration
    (run : outcome (Slices.slice * Slices.Heap)) x r m A :
  run = match analysis x m with
        | Ok (c, m1) =>
            (if String.eqb decoration Excludes
             then if negb c then Slices.append r x else Slices.ret r
             else if c then Slices.append r x else Slices.ret r) (Slices.mkHeap m1 A)
        | Err e => Err e
        | Panic p => Panic p
        end ->
  run = match decorated analysis decoration x [] m with
        | Ok (ys, m') => appendAll r ys (Slices.mkHeap m' A)
        | Err e => Err e
        | Panic p => Panic p
        end.
Proof.
  intros ->. rewrite decorated_eq.
  destruct (analysis x m) as [[c m1]| |]; [|done..].
  unfold keeps. destruct (String.eqb decoration Excludes), c; cbn [negb app];
    by rewrite ?appendAll_one.
Qed.

Lemma taggedFilter_refines tagged artifacts m0 A0 :
  Slices.valid (Slices.mkHeap m0 A0) artifacts ->
  refines (fun out h' outl m' =>
             Slices.records h' = m' /\ Slices.elems h' out = outl /\
             Slices.valid h' out /\ take (length A0) (Slices.arrays h') = A0 /\
             fresh (length A0) out)
    (Slices.artifactTaggedFilter_Filter tagged artifacts (Slices.mkHeap m0 A0))
    (artifactTaggedFilter_Filter tagged
       (Slices.elems (Slices.mkHeap m0 A0) artifacts) m0).
Proof.
  intros Hv. rewrite taggedFilter_unfold. unfold Slices.artifactTaggedFilter_Filter.
  apply forArtifacts_refines; [done|apply decorated_appends|].
  intros x r m A _. apply decorated_slices.
  unfold Slices.bind, Slices.deref, Slices.lift, taggedAnalysis, bind, deref, ret.
  simpl. destruct (load m x) as [a|]; [|done]. simpl.
  by destruct ((tagged && (0 <? length (Artifact.Tags a)))
               || (negb tagged && (length (Artifact.Tags a) =? 0))).
Qed.

Lemma labelLoop_refines labels decoration artifacts m0 A0 :
  Slices.valid (Slices.mkHeap m0 A0) artifacts ->
  refines (fun out h' outl m' =>
             Slices.records h' = m' /\ Slices.elems h' out = outl /\
             Slices.valid h' out /\ take (length A0) (Slices.arrays h') = A0 /\
             fresh (length A0) out)
    (Slices.forArtifacts artifacts (fun artifact result =>
       Slices.bind (Slices.deref artifact) (fun a =>
       Slices.bind (Slices.forRange (Artifact.Labels a)
                      (fun label (labelset : gset string) =>
                         Slices.ret ({[label]} ∪ labelset)) ∅) (fun labelset =>
       Slices.bind (Slices.forRangeBrk labels (fun label match_ =>
                      if bool_decide (label ∈ labelset)
                      then Slices.ret (Next match_)
                      else Slices.ret (Break false)) true) (fun f =>
       let match_ := flowState f in
       if String.eqb decoration Excludes then
         if negb match_ then Slices.append result artifact else Slices.ret result
       else
         if match_ then Slices.append result artifact else Slices.ret result))))
       Slices.nilSlice (Slices.mkHeap m0 A0))
    (forRange (Slices.elems (Slices.mkHeap m0 A0) artifacts)
       (decorated (labelAnalysis labels) decoration) [] m0).
Proof.
  intros Hv.
  apply forArtifacts_refines; [done|apply decorated_appends|].
  intros x r m A _. apply decorated_slices.
  unfold Slices.bind at 1, Slices.deref, Slices.lift at 1, labelAnalysis.
  unfold bind at 1, deref. simpl.
  destruct (load m x) as [a|]; [|done]. simpl.
  unfold Slices.bind at 1.
  rewrite (forRange_lift _ _
             (fun label (labelset : gset string) => ret ({[label]} ∪ labelset)))
    by done.
  unfold Slices.lift at 1, bind at 1. simpl.
  destruct (forRange (Artifact.Labels a) _ ∅ m) as [[labelset m1]| |]; [|done..].
  unfold Slices.bind at 1.
  rewrite (forRangeBrk_lift _ _
             (fun label (match_ : bool) =>
                if bool_decide (label ∈ labelset)
                then ret (Next match_) else ret (Break false))).
  - unfold Slices.lift at 1, bind at 1. simpl.
    by destruct (forRangeBrk labels _ true m1) as [[f m2]| |].
  - intros label s m'. by destruct (bool_decide (label ∈ labelset)).
Qed.

Lemma labelRegexLoop_refines labels decoration artifacts m0 A0 :
  Slices.valid (Slices.mkHeap m0 A0) artifacts ->
  refines (fun out h' outl m' =>
             Slices.records h' = m' /\ Slices.elems h' out = outl /\
             Slices.valid h' out /\ take (length A0) (Slices.arrays h') = A0 /\
             fresh (length A0) out)
    (Slices.forArtifacts artifacts (fun artifact result =>
       Slices.bind (Slices.forRangeBrk labels (fun label match_ =>
         Slices.bind (Slices.try (regexp_Compile label)) (fun filterRegexPattern =>
         Slices.bind (Slices.deref artifact) (fun a =>
         Slices.forRangeBrk (indexed (Artifact.Labels a)) (fun il match_ =>
           let exists_ := MatchString filterRegexPattern il.2 in
           Slices.bind (Slices.index artifacts il.1) (fun other =>
           Slices.bind (Slices.deref other) (fun _ =>
           if negb exists_ then Slices.ret (Break false)
           else Slices.ret (Next match_)))) match_))) true) (fun f =>
       let match_ := flowState f in
       if String.eqb decoration Excludes then
         if negb match_ then Slices.append result artifact else Slices.ret result
       else
         if match_ then Slices.append result artifact else Slices.ret result))
       Slices.nilSlice (Slices.mkHeap m0 A0))
    (forRange (Slices.elems (Slices.mkHeap m0 A0) artifacts)
       (decorated (labelRegexAnalysis labels
                     (Slices.elems (Slices.mkHeap m0 A0) artifacts)) decoration)
       [] m0).
Proof.
  intros Hv.
  apply forArtifacts_refines; [done|apply decorated_appends|].
  intros x r m A Ht. apply decorated_slices.
  unfold labelRegexAnalysis. rewrite bind_eq.
  etrans.
  { apply bind_congr.
    apply (forRangeBrk_lift _ _
      (fun label (match_ : bool) =>
         do filterRegexPattern <- try (regexp_Compile label);
         do a <- deref x;
         forRangeBrk (indexed (Artifact.Labels a)) (fun il match_ =>
           let exists_ := MatchString filterRegexPattern il.2 in
           do other <- index (Slices.elems (Slices.mkHeap m0 A0) artifacts) il.1;
           do _ <- deref other;
           if negb exists_ then ret (Break false) else ret (Next match_)) match_)).
    intros label s m'.
    unfold Slices.try, Slices.deref. rewrite bind_lift, lift_eq, bind_eq.
    unfold try at 1 2.
    destruct (regexp_Compile label) as [e|re]; [done|].
    rewrite bind_lift, bind_eq. unfold deref at 1 3.
    destruct (load m' x) as [a|]; [|done].
    rewrite <- lift_eq.
    apply forRangeBrk_lift. intros il s' m''. cbv zeta.
    rewrite lift_eq, bind_eq. unfold index.
    destruct (Slices.elems (Slices.mkHeap m0 A0) artifacts !! il.1) as [other|] eqn:Ho.
    - unfold Slices.bind at 1.
      rewrite (index_frame m0 m'' A0 A artifacts _ other Hv Ht Ho).
      unfold ret at 1. rewrite bind_lift, bind_eq. unfold deref.
      destruct (load m'' other); [|done].
      by destruct (negb (MatchString re il.2)).
    - unfold Slices.bind at 1.
      by rewrite (index_frame_None m0 m'' A0 A artifacts _ Hv Ho). }
  rewrite bind_lift.
  by destruct (forRangeBrk labels _ true m) as [[f m2]| |].
Qed.

Lemma tagBody_appends (mt : string -> error + bool) decoration x rl m :
  tagBody mt decoration x rl m =
  match tagBody mt decoration x [] m with
  | Ok (ys, m') => Ok (rl ++ ys, m')
  | Err e => Err e
  | Panic p => Panic p
  end.
Proof.
  unfold tagBody. rewrite !bind_eq. unfold deref.
  destruct (load m x) as [a|]; [|done]. cbv zeta.
  destruct (length _ =? 0).
  - rewrite !bind_eq. unfold try. destruct (mt "") as [e|c]; [done|].
    destruct (String.eqb decoration Excludes), c; simpl; unfold ret;
      by rewrite ?app_nil_r.
  - rewrite !bind_eq.
    destruct (forRange _ (narrowBody mt decoration) [] m) as [[tags m1]| |]; [|done..].
    destruct (length tags =? 0); [unfold ret; by rewrite app_nil_r|].
    by destruct (Artifact.IsAcc a).
Qed.

(** The end of the body of a tag rule, once the tags are chosen. *)
Lemma narrowed_slices (a : Artifact.t) (tags : list string) r m A :
  Slices.bind
    (Slices.new {| Artifact.Type_ := Artifact.Type_ a;
                   Artifact.Digest := Artifact.Digest a;
                   Artifact.Labels := Artifact.Labels a;
                   Artifact.Tags := tags;
                   Artifact.IsAcc := false;
                   Artifact.ParentTags := [] |})
    (fun q => Slices.append r q) (Slices.mkHeap m A)
  = match (do q <- new (narrowed a tags); ret ([] ++ [q])) m with
    | Ok (ys, m') => appendAll r ys (Slices.mkHeap m' A)
    | Err e => Err e
    | Panic p => Panic p
    end.
Proof.
  unfold Slices.new. rewrite bind_lift, bind_eq. unfold new, ret. cbn [app].
  by rewrite appendAll_one.
Qed.

Lemma tagLoop_refines (mt : string -> error + bool) decoration
    (B : ptr -> Slices.slice -> Slices.St Slices.slice) artifacts m0 A0 :
  Slices.valid (Slices.mkHeap m0 A0) artifacts ->
  (forall x r m A,
     B x r (Slices.mkHeap m A) =
     match load m x with
     | None => Panic NilDereference
     | Some a =>
         let tagsForMatching :=
           if Artifact.IsAcc a then [] ++ Artifact.ParentTags a
           else [] ++ Artifact.Tags a in
         if length tagsForMatching =? 0 then
           match mt "" with
           | inl e => Err e
           | inr c =>
               (if String.eqb decoration Excludes
                then if negb c then Slices.append r x else Slices.ret r
                else if c then Slices.append r x else Slices.ret r)
                 (Slices.mkHeap m A)
           end
         else
           match forRange tagsForMatching (narrowBody mt decoration) [] m with
           | Ok (tags, m1) =>
               (if length tags =? 0 then Slices.ret r else
                if Artifact.IsAcc a then
                  Slices.bind (Slices.new (narrowed a (Artifact.Tags a)))
                    (fun q => Slices.append r q)
                else
                  Slices.bind (Slices.new (narrowed a tags))
                    (fun q => Slices.append r q)) (Slices.mkHeap m1 A)
           | Err e => Err e
           | Panic p => Panic p
           end
     end) ->
  refines (fun out h' outl m' =>
             Slices.records h' = m' /\ Slices.elems h' out = outl /\
             Slices.valid h' out /\ take (length A0) (Slices.arrays h') = A0 /\
             fresh (length A0) out)
    (Slices.forArtifacts artifacts B Slices.nilSlice (Slices.mkHeap m0 A0))
    (forRange (Slices.elems (Slices.mkHeap m0 A0) artifacts)
       (tagBody mt decoration) [] m0).
Proof.
  intros Hv HB.
  apply forArtifacts_refines; [done|apply tagBody_appends|].
  intros x r m A _. rewrite HB. unfold tagBody. rewrite bind_eq. unfold deref.
  destruct (load m x) as [a|]; [|done]. cbv zeta.
  destruct (length _ =? 0).
  - rewrite bind_eq. unfold try. destruct (mt "") as [e|c]; [done|].
    destruct (String.eqb decoration Excludes), c; cbn [negb]; unfold ret;
      cbn [app]; by rewrite ?appendAll_one.
  - rewrite bind_eq.
    destruct (forRange _ (narrowBody mt decoration) [] m) as [[tags m1]| |]; [|done..].
    destruct (length tags =? 0); [done|].
    destruct (Artifact.IsAcc a); apply narrowed_slices.
Qed.

Lemma append_records s x m A s' h' :
  Slices.append s x (Slices.mkHeap m A) = Ok (s', h') ->
  exists A', h' = Slices.mkHeap m A'.
Proof.
  unfold Slices.append, Slices.grown.
  destruct (Slices.array s); [destruct (_ <? _)|]; intros [= <- <-]; by eexists.
Qed.

Lemma typeBody_appends (types : list string) x rl m :
  forRange types (fun t result =>
    do a <- deref x;
    if strings_EqualFold (strings_ToLower (Artifact.Type_ a)) (strings_ToLower t)
    then ret (result ++ [x])
    else ret result) rl m =
  match forRange types (fun t result =>
          do a <- deref x;
          if strings_EqualFold (strings_ToLower (Artifact.Type_ a)) (strings_ToLower t)
          then ret (result ++ [x])
          else ret result) [] m with
  | Ok (ys, m') => Ok (rl ++ ys, m')
  | Err e => Err e
  | Panic p => Panic p
  end.
Proof.
  destruct (load m x) as [a|] eqn:Hx.
  - by rewrite !(typeLoop_eq types types x a) by done.
  - destruct types as [|t types]; [simpl; unfold ret; by rewrite app_nil_r|].
    rewrite !forRange_cons, !bind_eq. unfold deref. by rewrite Hx.
Qed.

Lemma typeBody_slices (types : list string) x r m A :
  Slices.forRange types (fun t result =>
    Slices.bind (Slices.deref x) (fun a =>
    if strings_EqualFold (strings_ToLower (Artifact.Type_ a)) (strings_ToLower t)
    then Slices.append result x
    else Slices.ret result)) r (Slices.mkHeap m A) =
  match forRange types (fun t result =>
          do a <- deref x;
          if strings_EqualFold (strings_ToLower (Artifact.Type_ a)) (strings_ToLower t)
          then ret (result ++ [x])
          else ret result) [] m with
  | Ok (ys, m') => appendAll r ys (Slices.mkHeap m' A)
  | Err e => Err e
  | Panic p => Panic p
  end.
Proof.
  destruct (load m x) as [a|] eqn:Hx.
  - rewrite (typeLoop_eq types types x a) by done. cbn [app].
    revert r A. induction types as [|t types IH]; intros r A; [done|].
    cbn [Slices.forRange]. unfold Slices.bind at 1, Slices.deref.
    rewrite bind_lift. unfold deref. rewrite Hx.
    unfold typeMatches. cbn [List.filter].
    destruct (strings_EqualFold _ _).
    + cbn [length replicate]. unfold appendAll. cbn [Slices.forRange].
      unfold Slices.bind at 2.
      destruct (append_Ok r x (Slices.mkHeap m A)) as (r' & h' & Ha). rewrite Ha.
      apply append_records in Ha as [A' ->]. apply IH.
    + apply IH.
  - destruct types as [|t types]; [done|].
    cbn [Slices.forRange]. unfold Slices.bind at 1, Slices.deref.
    rewrite bind_lift, forRange_cons, bind_eq. unfold deref. by rewrite Hx.
Qed.

Lemma refines_impl {X Y} (rel rel' : X -> Slices.Heap -> Y -> Mem -> Prop) x y :
  refines rel x y ->
  (forall a h b m, rel a h b m -> rel' a h b m) ->
  refines rel' x y.
Proof.
  destruct x as [[a h]| |], y as [[b m]| |]; simpl; auto.
Qed.

(** One strategy on a slice against the strategy on the elements. *)
Lemma Filter_refines (f : ArtifactFilter) artifacts m0 A0 :
  Slices.valid (Slices.mkHeap m0 A0) artifacts ->
  refines (fun out h' outl m' =>
             Slices.records h' = m' /\ Slices.elems h' out = outl /\
             Slices.valid h' out /\ take (length A0) (Slices.arrays h') = A0 /\
             if runsLoop f then fresh (length A0) out
             else out = artifacts /\ h' = Slices.mkHeap m0 A0)
    (Slices.Filter f artifacts (Slices.mkHeap m0 A0))
    (Filter f (Slices.elems (Slices.mkHeap m0 A0) artifacts) m0).
Proof.
  intros Hv.
  assert (refines (fun out h' outl m' =>
             Slices.records h' = m' /\ Slices.elems h' out = outl /\
             Slices.valid h' out /\ take (length A0) (Slices.arrays h') = A0 /\
             out = artifacts /\ h' = Slices.mkHeap m0 A0)
            (Ok (artifacts, Slices.mkHeap m0 A0))
            (Ok (Slices.elems (Slices.mkHeap m0 A0) artifacts, m0))) as Hsame.
  { simpl. by rewrite take_ge. }
  destruct f as [types|labels decoration|tagged|pattern decoration
                |pattern decoration|labels decoration]; unfold Filter, Slices.Filter.
  - unfold Slices.artifactTypeFilter_Filter, artifactTypeFilter_Filter, runsLoop.
    destruct (length types =? 0); [exact Hsame|]. cbn [negb].
    apply forArtifacts_refines; [done| |].
    + intros x rl m. apply typeBody_appends.
    + intros x r m A _. apply typeBody_slices.
  - unfold Slices.artifactLabelFilter_Filter. rewrite labelFilter_unfold.
    unfold runsLoop. destruct (length labels =? 0); [exact Hsame|]. cbn [negb].
    by apply labelLoop_refines.
  - unfold runsLoop. by apply taggedFilter_refines.
  - unfold Slices.artifactTagFilter_Filter. rewrite tagFilter_glob_unfold.
    unfold runsLoop. destruct (String.length pattern =? 0); [exact Hsame|]. cbn [negb].
    apply tagLoop_refines; [done|]. intros x r m A.
    unfold Slices.deref. rewrite bind_lift. unfold deref.
    destruct (load m x) as [a|]; [|done]. cbv zeta.
    destruct (length _ =? 0).
    + unfold Slices.try. rewrite bind_lift. unfold try.
      by destruct (util_Match pattern "").
    + etrans.
      { apply bind_congr.
        apply (forRange_lift _ _ (narrowBody (util_Match pattern) decoration)).
        intros tag tags m'. unfold Slices.try.
        rewrite bind_lift, lift_eq, narrowBody_eq. unfold try.
        destruct (util_Match pattern tag) as [e|c]; [done|].
        unfold keeps. by destruct (String.eqb decoration Excludes), c. }
      rewrite bind_lift.
      by destruct (forRange _ (narrowBody (util_Match pattern) decoration) [] m)
        as [[tags m1]| |].
  - unfold Slices.artifactTagFilterRegex_Filter. rewrite tagFilter_regex_unfold.
    unfold runsLoop. destruct (String.length pattern =? 0); [exact Hsame|]. cbn [negb].
    unfold Slices.try. rewrite bind_lift. unfold try.
    destruct (regexp_Compile pattern) as [e|re]; [done|].
    apply tagLoop_refines; [done|]. intros x r m A.
    unfold Slices.deref. rewrite bind_lift. unfold deref.
    destruct (load m x) as [a|]; [|done]. cbv zeta.
    destruct (length _ =? 0); [done|].
    etrans.
    { apply bind_congr.
      apply (forRange_lift _ _
               (narrowBody (fun s => inr (MatchString re s)) decoration)).
      intros tag tags m'. rewrite lift_eq, narrowBody_eq.
      unfold keeps. by destruct (String.eqb decoration Excludes), (MatchString re tag). }
    rewrite bind_lift.
    by destruct (forRange _ (narrowBody _ decoration) [] m) as [[tags m1]| |].
  - unfold Slices.artifactLabelFilterRegex_Filter. rewrite labelRegexFilter_unfold.
    unfold runsLoop. destruct (length labels =? 0); [exact Hsame|]. cbn [negb].
    by apply labelRegexLoop_refines.
Qed.

Lemma fresh_le n n' s : n <= n' -> fresh n' s -> fresh n s.
Proof. unfold fresh. destruct (Slices.array s); [lia|done]. Qed.

Lemma take_frame (A0 A A1 : list (list ptr)) :
  take (length A0) A = A0 -> take (length A) A1 = A ->
  take (length A0) A1 = A0.
Proof.
  intros H0 H1. rewrite <- H1 in H0. rewrite take_take in H0.
  rewrite Nat.min_l in H0; [done|].
  rewrite <- H0 at 1. rewrite length_take. lia.
Qed.

(** A pipeline of strategies on a slice against the pipeline on the
    elements, in a run that started with the arrays [A0] and the slice
    [a0]. *)
Lemma pipeline_refines (a0 : Slices.slice) (A0 : list (list ptr))
    (fs : ArtifactFilters) artifacts m A :
  Slices.valid (Slices.mkHeap m A) artifacts ->
  take (length A0) A = A0 ->
  artifacts = a0 \/ fresh (length A0) artifacts ->
  refines (fun out h' outl m' =>
             Slices.records h' = m' /\ Slices.elems h' out = outl /\
             Slices.valid h' out /\ take (length A0) (Slices.arrays h') = A0 /\
             (out = a0 \/ fresh (length A0) out))
    (Slices.ArtifactFilters_Filter fs artifacts (Slices.mkHeap m A))
    (ArtifactFilters_Filter fs (Slices.elems (Slices.mkHeap m A) artifacts) m).
Proof.
  revert artifacts m A. induction fs as [|f fs IH]; intros artifacts m A Hv Ht Ha.
  - simpl. done.
  - rewrite pipeline_cons. unfold Slices.ArtifactFilters_Filter.
    cbn [Slices.forRange]. unfold Slices.bind at 1.
    pose proof (Filter_refines f artifacts m A Hv) as Hf.
    destruct (Slices.Filter f artifacts (Slices.mkHeap m A)) as [[out [m1 A1]]| |],
      (Filter f (Slices.elems (Slices.mkHeap m A) artifacts) m) as [[outl m1']| |];
      simpl in Hf; try done.
    destruct Hf as (<- & <- & Hv1 & Ht1 & Hout).
    apply (IH out m1 A1 Hv1).
    + by eapply take_frame.
    + destruct (runsLoop f).
      * right. eapply fresh_le; [|exact Hout]. rewrite <- Ht at 1.
        rewrite length_take. lia.
      * destruct Hout as [-> _]. exact Ha.
Qed.

Lemma sameRun_intro m0 A0 artifacts out h' outl m' :
  Slices.records h' = m' /\ Slices.elems h' out = outl /\
  Slices.valid h' out /\ take (length A0) (Slices.arrays h') = A0 /\
  (out = artifacts \/ fresh (length A0) out) ->
  sameRun (Slices.mkHeap m0 A0) artifacts out h' outl m'.
Proof.
  intros (H1 & H2 & H3 & H4 & H5). unfold sameRun. simpl.
  do 3 (split; [done|]). split; [|done].
  exists (drop (length A0) (Slices.arrays h')).
  by rewrite <- H4 at 1; rewrite take_drop.
Qed.

End SliceRuns.

(** X19. The filters treat a slice as the list of its elements. Run on a
    slice that lies within an allocated array (or is nil), a pipeline of
    strategies, and likewise the entry point, does what the same run on the
    list of the elements does: it returns the same error, panics in the
    same way, or returns a slice whose elements are the list that run
    returns, with the same records. The returned slice lies within an
    allocated array, the arrays that existed before the call are all still
    there and unchanged, and the returned slice is the argument itself or is
    on none of them. *)
Theorem slices_run_as_lists {L : Library} {R : Slices.Runtime}
    (fs : ArtifactFilters) (filters : list (option Filter.t))
    (artifacts : Slices.slice) (h : Slices.Heap) :
  Slices.valid h artifacts ->
  refines (sameRun h artifacts)
    (Slices.ArtifactFilters_Filter fs artifacts h)
    (ArtifactFilters_Filter fs (Slices.elems h artifacts) (Slices.records h)) /\
  refines (sameRun h artifacts)
    (Slices.DoFilterArtifacts artifacts filters h)
    (DoFilterArtifacts (Slices.elems h artifacts) filters (Slices.records h)).
Proof.
  destruct h as [m0 A0]. intros Hv. simpl.
  assert (forall fs,
    refines (sameRun (Slices.mkHeap m0 A0) artifacts)
      (Slices.ArtifactFilters_Filter fs artifacts (Slices.mkHeap m0 A0))
      (ArtifactFilters_Filter fs (Slices.elems (Slices.mkHeap m0 A0) artifacts) m0))
    as Hpipe.
  { intros fs'. eapply refines_impl.
    - apply (pipeline_refines artifacts A0 fs' artifacts m0 A0 Hv);
        [by rewrite take_ge|by left].
    - intros out h' outl m'. apply sameRun_intro. }
  split; [apply Hpipe|].
  unfold Slices.DoFilterArtifacts, DoFilterArtifacts.
  rewrite bind_lift, bind_eq, build_spec.
  destruct (firstFault filters); [done|]. apply Hpipe.
Qed.

Lemma slices_run_as_lists_witness :
  let a := Artifact.mk "image" "sha256:1" ["stable"] ["v1"; "beta"] false [] in
  let b := Artifact.mk "image" "sha256:2" [] ["v2"] false [] in
  let h := Slices.mkHeap [a; b] [[Some 0; Some 1; None]] in
  let artifacts := Slices.Slice (Some 0) 0 2 3 in
  let fs := [artifactTagFilterRegex "v.*" Matches; artifactLabelFilter ["stable"] Matches] in
  let filters := [Some (Filter.mk FilterTypeTagRegex (AnyString "v.*") Matches);
                  Some (Filter.mk FilterTypeLabel (AnyStrings ["stable"]) Matches)] in
  refines (sameRun h artifacts)
    (Slices.ArtifactFilters_Filter (L := Fragment.lib) (R := Slices.doubling)
       fs artifacts h)
    (ArtifactFilters_Filter (L := Fragment.lib) fs
       (Slices.elems h artifacts) (Slices.records h)) /\
  refines (sameRun h artifacts)
    (Slices.DoFilterArtifacts (L := Fragment.lib) (R := Slices.doubling)
       artifacts filters h)
    (DoFilterArtifacts (L := Fragment.lib)
       (Slices.elems h artifacts) filters (Slices.records h)).
Proof.
  intros a b h artifacts fs filters.
  apply (slices_run_as_lists (L := Fragment.lib) (R := Slices.doubling)
           fs filters artifacts h).
  split; [simpl; lia|]. eexists. split; [reflexivity|simpl; lia].
Defined.

(** X20. A strategy that runs its loop (it has no early return, or its
    pattern or list is not empty) never hands back the slice it was given:
    what it returns is nil or a slice on an array allocated during the call.
    And it writes to no array that existed before: every slice that lay
    within an allocated array before the call, the argument included, has
    the same elements after it. *)
Theorem loop_returns_a_new_slice {L : Library} {R : Slices.Runtime}
    (f : ArtifactFilter) (artifacts : Slices.slice) (h : Slices.Heap)
    (out : Slices.slice) (h' : Slices.Heap) :
  Slices.valid h artifacts ->
  runsLoop f = true ->
  Slices.Filter f artifacts h = Ok (out, h') ->
  fresh (length (Slices.arrays h)) out /\
  (is_Some (Slices.array artifacts) -> out <> artifacts) /\
  (forall s, Slices.valid h s -> Slices.elems h' s = Slices.elems h s).
Proof.
  destruct h as [m0 A0]. intros Hv Hloop Hrun.
  pose proof (Filter_refines f artifacts m0 A0 Hv) as Hf.
  rewrite Hrun, Hloop in Hf.
  destruct (Filter f (Slices.elems (Slices.mkHeap m0 A0) artifacts) m0)
    as [[outl m']| |]; simpl in Hf; try done.
  destruct Hf as (_ & _ & _ & Ht & Hfresh). simpl.
  split; [done|]. split.
  - intros [i Hi] ->. unfold fresh in Hfresh. rewrite Hi in Hfresh.
    destruct Hv as [_ Hv]. rewrite Hi in Hv. destruct Hv as (c & Hc & _).
    apply lookup_lt_Some in Hc. simpl in Hc. lia.
  - intros s Hs. destruct h' as [m1 A1]. unfold Slices.elems.
    by rewrite (cells_frame m0 m1 A0 A1 s Hs Ht).
Qed.

Lemma loop_returns_a_new_slice_witness :
  let a := Artifact.mk "image" "sha256:1" ["stable"] ["v1"] false [] in
  let h := Slices.mkHeap [a] [[Some 0]] in
  let h' := Slices.mkHeap [a] [[Some 0]; [Some 0]] in
  let artifacts := Slices.Slice (Some 0) 0 1 1 in
  let out := Slices.Slice (Some 1) 0 1 1 in
  fresh (length (Slices.arrays h)) out /\
  (is_Some (Slices.array artifacts) -> out <> artifacts) /\
  (forall s, Slices.valid h s -> Slices.elems h' s = Slices.elems h s).
Proof.
  intros a h h' artifacts out.
  apply (loop_returns_a_new_slice (L := Fragment.lib) (R := Slices.doubling)
           (artifactLabelFilter ["stable"] Matches) artifacts h out h').
  - split; [simpl; lia|]. eexists. split; [reflexivity|simpl; lia].
  - reflexivity.
  - reflexivity.
Defined.
